(** * OCR pipeline: retry policy, text cleaner, PDF extractor, batch orchestrator

    Shallow embedding of [backend/pipelines/ocr_pipeline.py].

    - Python [str] values are sequences of Unicode code points: [list N].
    - [re], [str.strip], [str.split], [str.join], [pathlib] and [asyncio] are
      library code; the parts the pipeline uses are modelled below from their
      documented behaviour.
    - External collaborators (rasteriser, DOCX parser, image loader, remote OCR
      call) are parameters of the model: each call either returns a value or
      raises an instance of [Exception].  Exceptions outside [Exception]
      ([asyncio.CancelledError]) and Python [int] arguments that are no
      repetition counts have models of their own at the end of Part I. *)

From Stdlib Require Import ZArith NArith List Bool Lia Permutation.
From Stdlib Require Import Strings.String Strings.Ascii.
From Stdlib Require DecimalString.
From stdpp Require Import base list gmap strings.

#[local] Open Scope N_scope.
#[local] Open Scope nat_scope.

(* ===================================================================== *)
(** * Part I: definitions                                                 *)
(* ===================================================================== *)

(** ** Python strings *)

(** A Python [str] is a list of code points. *)
Abbreviation pystr := (list N).

(** A literal: the code points of an ASCII string. *)
Definition py (s : string) : pystr :=
  N_of_ascii <$> list_ascii_of_string s.

(** The characters ['\n'] and ['\t']. *)
Definition NL : N := 10%N.
Definition TAB : N := 9%N.

(** [c.isspace()] for a single code point (CPython's whitespace table). *)
Definition isspace (c : N) : bool :=
  ((9 <=? c) && (c <=? 13) || (28 <=? c) && (c <=? 32)
   || (c =? 133) || (c =? 160) || (c =? 5760)
   || (8192 <=? c) && (c <=? 8202)
   || (c =? 8232) || (c =? 8233) || (c =? 8239) || (c =? 8287)
   || (c =? 12288))%N.

(** [s.lstrip()], [s.rstrip()], [s.strip()] *)
Fixpoint lstrip (s : pystr) : pystr :=
  match s with
  | [] => []
  | c :: t => if isspace c then lstrip t else s
  end.

Definition rstrip (s : pystr) : pystr := rev (lstrip (rev s)).

Definition strip (s : pystr) : pystr := rstrip (lstrip s).

(** [text.split('\n')]: always at least one piece. *)
Fixpoint split_nl (s : pystr) : list pystr :=
  match s with
  | [] => [[]]
  | c :: t =>
      if (c =? NL)%N then [] :: split_nl t
      else match split_nl t with
           | l :: ls => (c :: l) :: ls
           | [] => [[c]]
           end
  end.

(** [sep.join(pieces)] *)
Fixpoint str_join (sep : pystr) (ls : list pystr) : pystr :=
  match ls with
  | [] => []
  | [l] => l
  | l :: ls' => l ++ sep ++ str_join sep ls'
  end.

(** ['\n'.join(lines)] *)
Definition join_nl (ls : list pystr) : pystr := str_join [NL] ls.

(** [str(n)] for a natural number, and [enumerate(l)]. *)
Definition str_of_nat (n : nat) : pystr :=
  py (DecimalString.NilEmpty.string_of_uint (Nat.to_uint n)).

Definition enumerate {A} (l : list A) : list (nat * A) :=
  imap (fun i x => (i, x)) l.

(** A line: a string without newline. *)
Definition no_newline (l : pystr) : Prop := NL ∉ l.

(** ** Regular expressions used by the cleaner *)

(** Number of leading characters of [t] equal to [c]. *)
Fixpoint run_length (c : N) (t : pystr) : nat :=
  match t with
  | d :: t' => if (d =? c)%N then S (run_length c t') else 0
  | [] => 0
  end.

(** [re.match(r'^(.)\1{4,}$', s)] as a truth value.  [.] matches any
    character but a newline, the back-reference is greedy, and [$] matches
    at the end of the string or just before a final newline. *)
Definition re_match_separator (s : pystr) : bool :=
  match s with
  | [] => false
  | c :: t =>
      negb (c =? NL)%N && (4 <=? run_length c t) &&
      match drop (run_length c t) t with
      | [] => true
      | [d] => (d =? NL)%N
      | _ => false
      end
  end.

(** [re.sub(r'(.)\1{n,}', r'\1' * n, s)], scanning left to right.  [skip] is
    the number of characters still covered by the match found last; at a
    free position the pattern matches when the character is not a newline
    and is followed by at least [n] copies of itself, the greedy
    back-reference then takes the whole run, and the match is replaced by
    [n] copies. *)
Fixpoint re_sub_runs (n : nat) (skip : nat) (s : pystr) : pystr :=
  match s with
  | [] => []
  | c :: t =>
      match skip with
      | S k => re_sub_runs n k t
      | 0 =>
          if negb (c =? NL)%N && (n <=? run_length c t)
          then repeat c n ++ re_sub_runs n (run_length c t) t
          else c :: re_sub_runs n 0 t
      end
  end.

Definition collapse_runs (n : nat) (line : pystr) : pystr :=
  re_sub_runs n 0 line.

(** ** [remove_repetition] *)

(** The separator test of the loop: [re.match(..., line.strip())]. *)
Definition is_separator_line (line : pystr) : bool :=
  re_match_separator (strip line).

(** Local variables of the loop. *)
Record loop_state := LoopState {
  cleaned_lines : list pystr;
  prev_line : option pystr;
  line_count : nat
}.

Definition loop_init : loop_state := LoopState [] None 0.

(** One iteration of [for line in lines]. *)
Definition loop_body (max_consecutive : nat) (st : loop_state) (line : pystr)
  : loop_state :=
  if is_separator_line line then st
  else
    let line := collapse_runs max_consecutive line in
    if decide (prev_line st = Some line) then
      let count := S (line_count st) in
      if max_consecutive <? count
      then LoopState (cleaned_lines st) (prev_line st) count
      else LoopState (cleaned_lines st ++ [line]) (prev_line st) count
    else LoopState (cleaned_lines st ++ [line]) (Some line) 1.

(** [max_consecutive] is a repetition count here, from 0 to below the
    limit of [re]; [remove_repetition_int] below follows the code for every
    Python [int]. *)
Definition remove_repetition (text : pystr) (max_consecutive : nat) : pystr :=
  join_nl (cleaned_lines (fold_left (loop_body max_consecutive)
                                    (split_nl text) loop_init)).

(** ** Run-length view of a line (used to reason about the two regexes) *)

(** Maximal runs of equal characters, with their lengths. *)
Fixpoint runs (s : pystr) : list (N * nat) :=
  match s with
  | [] => []
  | c :: t =>
      match runs t with
      | (d, k) :: rs => if (c =? d)%N then (c, S k) :: rs else (c, 1) :: (d, k) :: rs
      | [] => [(c, 1)]
      end
  end.

Definition expand (rs : list (N * nat)) : pystr :=
  flat_map (fun r => repeat (fst r) (snd r)) rs.

(** A run list in normal form: no empty run, neighbours differ. *)
Fixpoint normal (rs : list (N * nat)) : Prop :=
  match rs with
  | [] => True
  | (c, k) :: rs' =>
      0 < k /\ match rs' with (d, _) :: _ => c <> d | [] => True end /\ normal rs'
  end.

(** Cap one run at [n] characters. *)
Definition cap (n : nat) (r : N * nat) : N * nat := (fst r, Nat.min (snd r) n).

(** Length of the longest run of one character in a line. *)
Definition longest_run (s : pystr) : nat :=
  foldr Nat.max 0 (snd <$> runs s).

Definition starts_with (c : N) (s : pystr) : Prop :=
  match s with d :: _ => d = c | [] => False end.

Definition runs_no_newline (rs : list (N * nat)) : Prop :=
  Forall (fun r => fst r <> NL) rs.

Definition positive_runs (rs : list (N * nat)) : Prop :=
  Forall (fun r => 0 < snd r) rs.

(** [lstrip] and [strip] on run lists, and the separator pattern on the
    runs of a string without newline. *)
Fixpoint lstrip_runs (rs : list (N * nat)) : list (N * nat) :=
  match rs with
  | [] => []
  | r :: rs' => if isspace (fst r) then lstrip_runs rs' else rs
  end.

Definition strip_runs (rs : list (N * nat)) : list (N * nat) :=
  rev (lstrip_runs (rev (lstrip_runs rs))).

Definition sep_runs (rs : list (N * nat)) : bool :=
  match rs with
  | [(_, k)] => 5 <=? k
  | _ => false
  end.

(** The lines kept by the loop, as a recursive function of the loop
    variables [prev_line] and [line_count]. *)
Fixpoint kept_lines (n : nat) (prev : option pystr) (count : nat)
    (lines : list pystr) : list pystr :=
  match lines with
  | [] => []
  | line :: rest =>
      if is_separator_line line then kept_lines n prev count rest
      else
        let line' := collapse_runs n line in
        if decide (prev = Some line') then
          if n <? S count then kept_lines n prev (S count) rest
          else line' :: kept_lines n prev (S count) rest
        else line' :: kept_lines n (Some line') 1 rest
  end.

(** [out] is obtained from [inp] by deleting lines and shortening the
    character runs of the lines that are kept. *)
Inductive derived_lines (n : nat) : list pystr -> list pystr -> Prop :=
  | derived_nil : derived_lines n [] []
  | derived_drop line inp out :
      derived_lines n inp out -> derived_lines n (line :: inp) out
  | derived_keep line inp out :
      derived_lines n inp out ->
      derived_lines n (line :: inp) (collapse_runs n line :: out).

(** Every line of [out] that repeats its predecessor stays within [n]
    occurrences in a row; [prev] and [count] describe the run that ends
    just before [out]. *)
Fixpoint runs_within (n : nat) (prev : option pystr) (count : nat)
    (out : list pystr) : Prop :=
  match out with
  | [] => True
  | l :: out' =>
      if decide (prev = Some l)
      then S count <= n /\ runs_within n prev (S count) out'
      else runs_within n (Some l) 1 out'
  end.

(** No two neighbouring lines are equal. *)
Definition adjacent_distinct (lines : list pystr) : Prop :=
  forall i l, lines !! i = Some l -> lines !! S i <> Some l.

(** Sample inputs: the character ['a'], the string ["a"*50], and a short
    text with a separator line. *)
Definition char_a : N := 97%N.
Definition a50 : pystr := repeat char_a 50.

Definition sample_text : pystr :=
  join_nl [py "Patient: Ana"; py "  ----- "; py "has diabetes"].

(** ** [retry_gemini_async] *)

Inductive retry_result (V E : Type) : Type :=
  | Returned (v : V)        (* [return await generate_fn(...)] *)
  | ReturnedNone            (* the loop ended: the function returns [None] *)
  | Raised (e : E).         (* [raise] *)
Arguments Returned {V E} v.
Arguments ReturnedNone {V E}.
Arguments Raised {V E} e.

Record retry_run (V E : Type) := RetryRun {
  outcome : retry_result V E;
  invocations : nat;        (* how many times [generate_fn] was called *)
  sleeps : list Z           (* the [asyncio.sleep] delays, in order *)
}.
Arguments RetryRun {V E}.
Arguments outcome {V E}.
Arguments invocations {V E}.
Arguments sleeps {V E}.

(** The slice [l[:r]] for a Python [int] [r]. *)
Definition py_slice_to {A} (l : list A) (r : Z) : list A :=
  if (r <? 0)%Z then take (length l - Z.to_nat (- r)) l
  else take (Z.to_nat r) l.

(** Default arguments. *)
Definition default_retries : Z := 3.
Definition default_delays : list Z := [0; 60; 180]%Z.

Section RetryDefs.
Context {V E : Type}.

(** The wrapped operation: [generate_fn k] is what its invocation number
    [k] (counting from 0) does, return a value or raise an instance of
    [Exception]; [retry_gemini_async_base] below adds the exceptions that
    [except Exception] does not catch. *)
Variable generate_fn : nat -> V + E.

(** [for attempt, delay in enumerate(delays[:retries])], with the number
    of invocations made so far and the delays slept so far. *)
Fixpoint retry_loop (retries : Z) (items : list (nat * Z))
    (calls : nat) (slept : list Z) : retry_run V E :=
  match items with
  | [] => RetryRun ReturnedNone calls slept
  | (attempt, delay) :: rest =>
      let slept := if (0 <? delay)%Z then slept ++ [delay] else slept in
      match generate_fn calls with
      | inl v => RetryRun (Returned v) (S calls) slept
      | inr e =>
          if (Z.of_nat attempt =? retries - 1)%Z
          then RetryRun (Raised e) (S calls) slept
          else retry_loop retries rest (S calls) slept
      end
  end.

Definition retry_gemini_async (retries : Z) (delays : list Z) : retry_run V E :=
  retry_loop retries (enumerate (py_slice_to delays retries)) 0 [].
End RetryDefs.

(** Sample operations: one that fails twice and then returns 42, and one
    that fails every time, with the number of the invocation as its error. *)
Definition flaky_twice (k : nat) : nat + nat :=
  if k <? 2 then inr k else inl 42.

Definition always_failing (k : nat) : unit + nat := inr k.

(** ** [asyncio.gather] *)

(** [await asyncio.gather( *tasks, return_exceptions=True)].  [results] is
    what each task finishes with, in task order; [completion] is the order
    in which the tasks finish.  A finished task stores its result in the
    slot of its own position. *)
Definition gather_slots {A} (results : list A) (completion : list nat)
  : list (option A) :=
  fold_left (fun slots i =>
               match results !! i with
               | Some r => <[i := Some r]> slots
               | None => slots
               end)
            completion (replicate (length results) None).

(** The awaited value: the list of all slots, once every slot is filled
    ([None] when some task never finishes). *)
Definition gather {A} (results : list A) (completion : list nat)
  : option (list A) :=
  mapM id (gather_slots results completion).

(** ** Extractors and batch orchestrator *)

Definition CONVERSION_DPI : nat := 200.
Definition MAX_CONCURRENCY : nat := 8.

(** What [python-docx] reads from a file: the paragraph texts and, for
    every table, its rows of cell texts. *)
Record Docx := MkDocx {
  docx_paragraphs : list pystr;
  docx_tables : list (list (list pystr))
}.

(** The stub body of [extract_text_from_image_content] in this repository:
    it always returns the placeholder text. *)
Definition placeholder_text (page_num : nat) : pystr :=
  py "[Placeholder OCR text from page " ++ str_of_nat page_num ++ py "]"
  ++ [NL; NL] ++ py "This is simulated text extraction. "
  ++ py "In production, this would contain actual medical document text extracted by Gemini Vision.".

(** The text appended for page [i] (0-based) of a PDF. *)
Definition page_failed_marker (i : nat) : pystr :=
  [NL] ++ py "[Page " ++ str_of_nat (i + 1) ++ py " extraction failed]" ++ [NL].

Definition page_block (i : nat) (text : pystr) : pystr :=
  [NL] ++ py "--- Page " ++ str_of_nat (i + 1) ++ py " ---" ++ [NL] ++ text ++ [NL].

(** Result of running [extract_from_pdf]: the returned text and the
    resolutions with which the rasteriser was called, in order. *)
Record pdf_run := PdfRun {
  pdf_text : pystr;
  raster_dpis : list nat
}.

Section PipelineDefs.
Context {Path Image Exn : Type}.

(** The environment of a run: the libraries and services the pipeline
    calls, and the scheduler's completion orders.  In this repository
    [extract_text_from_image_content] is a stub that returns
    [placeholder_text]; in production it is the remote call, which can
    raise. *)
Record World := MkWorld {
  path_str : Path -> pystr;                      (* [str(path)] *)
  suffix_lower : Path -> pystr;                  (* [path.suffix.lower()] *)
  convert_from_path : Path -> nat -> list Image + Exn;  (* path, dpi *)
  DocxDocument : Path -> Docx + Exn;
  image_open_rgb : Path -> Image + Exn;          (* [Image.open], [convert('RGB')] *)
  extract_text_from_image_content : Image -> nat -> pystr + Exn;
  page_completion : Path -> list nat;            (* page tasks of a PDF *)
  doc_completion : list nat                      (* document tasks *)
}.

Variable w : World.

(** One iteration of the loop that combines the page texts, for a page
    call that returned or raised an [Exception]; [combine_page_result]
    below adds the page task that was cancelled. *)
Definition combine_page (combined_text : pystr) (it : nat * (pystr + Exn))
  : pystr :=
  match it with
  | (i, inr _) => combined_text ++ page_failed_marker i
  | (i, inl text) => combined_text ++ page_block i text
  end.

(** The piece of the combined text that belongs to page [i] (0-based). *)
Definition page_segment (i : nat) (result : pystr + Exn) : pystr :=
  match result with
  | inl text => page_block i text
  | inr _ => page_failed_marker i
  end.

(** One segment per page, in page order. *)
Definition pdf_pages_text (images : list Image) : pystr :=
  concat (imap (fun i img =>
                  page_segment i (extract_text_from_image_content w img (i + 1)))
               images).

Definition extract_from_pdf (pdf_path : Path) : option pdf_run :=
  match convert_from_path w pdf_path CONVERSION_DPI with
  | inl images =>
      let tasks :=
        (fun it => extract_text_from_image_content w (snd it) (fst it + 1))
          <$> enumerate images in
      page_texts ← gather tasks (page_completion w pdf_path);
      Some (PdfRun (fold_left combine_page (enumerate page_texts) [])
                   [CONVERSION_DPI])
  | inr _ => Some (PdfRun [] [CONVERSION_DPI])
  end.

Definition extract_from_docx (docx_path : Path) : pystr :=
  match DocxDocument w docx_path with
  | inl doc =>
      let paragraphs :=
        filter (fun t => strip t <> []) (docx_paragraphs doc) in
      let tables_text :=
        flat_map (fun table => str_join [TAB] <$> table) (docx_tables doc) in
      join_nl (paragraphs ++ tables_text)
  | inr _ => []
  end.

Definition extract_from_image (image_path : Path) : pystr :=
  match image_open_rgb w image_path with
  | inl img =>
      match extract_text_from_image_content w img 1 with
      | inl text => text
      | inr _ => []
      end
  | inr _ => []
  end.

(** [_extract_single]: the task of one document; it finishes with the
    pair it returns or with the exception it raises. *)
Definition extract_single (path : Path) : option (pystr * pystr + Exn) :=
  let suffix := suffix_lower w path in
  text ←
    (if decide (suffix = py ".pdf") then pdf_text <$> extract_from_pdf path
     else if decide (suffix ∈ [py ".docx"; py ".doc"])
          then Some (extract_from_docx path)
     else if decide (suffix ∈ [py ".png"; py ".jpg"; py ".jpeg"])
          then Some (extract_from_image path)
     else Some []);
  Some (inl (path_str w path, text)).

(** One iteration of the loop that filters out exceptions. *)
Definition collect (output : gmap pystr pystr) (result : pystr * pystr + Exn)
  : gmap pystr pystr :=
  match result with
  | inr _ => output
  | inl (path, text) => <[path := text]> output
  end.

Definition extract_text_from_documents (file_paths : list Path)
  : option (gmap pystr pystr) :=
  finished ← mapM extract_single file_paths;
  results ← gather finished (doc_completion w);
  Some (fold_left collect results ∅).

(** The remote OCR calls a document task makes while it holds its
    semaphore slot: one per page of a PDF, one for an image. *)
Definition remote_calls (path : Path) : nat :=
  let suffix := suffix_lower w path in
  if decide (suffix = py ".pdf") then
    match convert_from_path w path CONVERSION_DPI with
    | inl images => length images
    | inr _ => 0
    end
  else if decide (suffix ∈ [py ".docx"; py ".doc"]) then 0
  else if decide (suffix ∈ [py ".png"; py ".jpg"; py ".jpeg"]) then
    match image_open_rgb w path with inl _ => 1 | inr _ => 0 end
  else 0.

(** Every task finishes: the document tasks in some order, and the page
    tasks of every PDF that was rasterised in some order. *)
Definition all_tasks_finish (file_paths : list Path) : Prop :=
  Permutation (doc_completion w) (seq 0 (length file_paths)) /\
  forall p images,
    p ∈ file_paths ->
    convert_from_path w p CONVERSION_DPI = inl images ->
    Permutation (page_completion w p) (seq 0 (length images)).

(** The text a document is mapped to. *)
Definition document_text (path : Path) : pystr :=
  let suffix := suffix_lower w path in
  if decide (suffix = py ".pdf") then
    match convert_from_path w path CONVERSION_DPI with
    | inl images => pdf_pages_text images
    | inr _ => []
    end
  else if decide (suffix ∈ [py ".docx"; py ".doc"]) then extract_from_docx path
  else if decide (suffix ∈ [py ".png"; py ".jpg"; py ".jpeg"])
       then extract_from_image path
  else [].

(** The extraction of a document failed as a whole: the rasteriser, the
    DOCX parser, the image loader or the remote call for the image
    raised. *)
Definition extraction_failed (path : Path) : Prop :=
  let suffix := suffix_lower w path in
  (suffix = py ".pdf" /\
     exists e, convert_from_path w path CONVERSION_DPI = inr e) \/
  (suffix <> py ".pdf" /\ (suffix ∈ [py ".docx"; py ".doc"]) /\
     exists e, DocxDocument w path = inr e) \/
  (suffix <> py ".pdf" /\ (suffix ∉ [py ".docx"; py ".doc"]) /\
   (suffix ∈ [py ".png"; py ".jpg"; py ".jpeg"]) /\
     ((exists e, image_open_rgb w path = inr e) \/
      (exists img e, image_open_rgb w path = inl img /\
                     extract_text_from_image_content w img 1 = inr e))).

(** A file type the pipeline does not handle. *)
Definition unsupported (path : Path) : Prop :=
  let suffix := suffix_lower w path in
  suffix <> py ".pdf" /\ (suffix ∉ [py ".docx"; py ".doc"]) /\
  (suffix ∉ [py ".png"; py ".jpg"; py ".jpeg"]).
End PipelineDefs.

Arguments World : clear implicits.

(** ** The semaphore and the tasks it admits *)

(** A remote call of a document task: not yet started, in flight (between
    the start of [extract_text_from_image_content] and its return), or
    returned. *)
Inductive call_state := Created | Active | Completed.

#[global] Instance call_state_eq_dec : EqDecision call_state.
Proof. solve_decision. Defined.

(** A document task [_extract_single]: waiting at [async with sem], inside
    the block with the remote calls that [asyncio.gather] started for it, or
    past the block. *)
Inductive task_state :=
  | Waiting (calls : nat)
  | Inside (calls : list call_state)
  | Finished.

Record sem_state := SemState {
  permits : nat;                 (* the semaphore's counter *)
  tasks : list task_state
}.

(** [sem = asyncio.Semaphore(max_concurrency)] and one task per document;
    [calls] gives, per document, the number of its remote calls. *)
Definition sem_init (max_concurrency : nat) (calls : list nat) : sem_state :=
  SemState max_concurrency (Waiting <$> calls).

(** The steps of the event loop.  Entering the block takes a permit, and
    only a document task takes one: the page tasks of a PDF are started by
    [asyncio.gather] inside the block without any further acquisition. *)
Inductive sem_step : sem_state -> sem_state -> Prop :=
  | step_acquire p ts i n :
      ts !! i = Some (Waiting n) ->
      sem_step (SemState (S p) ts)
                (SemState p (<[i := Inside (replicate n Created)]> ts))
  | step_call_start p ts i cs j :
      ts !! i = Some (Inside cs) -> cs !! j = Some Created ->
      sem_step (SemState p ts)
                (SemState p (<[i := Inside (<[j := Active]> cs)]> ts))
  | step_call_return p ts i cs j :
      ts !! i = Some (Inside cs) -> cs !! j = Some Active ->
      sem_step (SemState p ts)
                (SemState p (<[i := Inside (<[j := Completed]> cs)]> ts))
  | step_release p ts i cs :
      ts !! i = Some (Inside cs) -> Forall (fun c => c = Completed) cs ->
      sem_step (SemState p ts)
                (SemState (S p) (<[i := Finished]> ts)).

Inductive sem_reachable (s0 : sem_state) : sem_state -> Prop :=
  | reach_init : sem_reachable s0 s0
  | reach_step s s' : sem_reachable s0 s -> sem_step s s' -> sem_reachable s0 s'.

(** Remote calls in flight, and document tasks inside the block. *)
Definition active_in (t : task_state) : nat :=
  match t with
  | Inside cs => length (filter (fun c => c = Active) cs)
  | _ => 0
  end.

Definition active_calls (s : sem_state) : nat :=
  sum_list_with active_in (tasks s).

Definition holds_permit (t : task_state) : nat :=
  match t with Inside _ => 1 | _ => 0 end.

Definition permit_holders (s : sem_state) : nat :=
  sum_list_with holds_permit (tasks s).

(** A task agrees with the number of remote calls of its document. *)
Definition task_ok (n : nat) (t : task_state) : Prop :=
  match t with
  | Waiting m => m = n
  | Inside cs => length cs = n
  | Finished => True
  end.

(** ** Concrete environments *)

(** Documents are named by their path text, page images by a number,
    exceptions by their message. *)
Definition scan_pdf : pystr := py "scan.pdf".
Definition empty_docx : pystr := py "empty.docx".
Definition notes_txt : pystr := py "notes.txt".

Definition suffix_of_sample (p : pystr) : pystr :=
  if decide (p = scan_pdf) then py ".pdf"
  else if decide (p = empty_docx) then py ".docx"
  else if decide (p = notes_txt) then py ".txt"
  else [].

(** A three-page scan whose second page makes the remote call raise; the
    page tasks finish in the order 3, 1, 2. *)
Definition world_three_pages : World pystr nat string :=
  @MkWorld pystr nat string
    id suffix_of_sample
    (fun _ _ => inl [0; 1; 2])
    (fun _ => inr "not a docx file"%string)
    (fun _ => inr "cannot identify image file"%string)
    (fun img page_num =>
       if img =? 1 then inr "deadline exceeded"%string
       else inl (placeholder_text page_num))
    (fun _ => [2; 0; 1])
    [0].

(** A two-page scan on which every call succeeds. *)
Definition world_two_pages : World pystr nat string :=
  @MkWorld pystr nat string
    id suffix_of_sample
    (fun _ _ => inl [0; 1])
    (fun _ => inr "not a docx file"%string)
    (fun _ => inr "cannot identify image file"%string)
    (fun _ page_num => inl (placeholder_text page_num))
    (fun _ => [0; 1])
    [0].

(** A scan that cannot be rasterised at 200 DPI but can at 100 DPI. *)
Definition world_low_memory : World pystr nat string :=
  @MkWorld pystr nat string
    id suffix_of_sample
    (fun _ dpi => if dpi =? 100 then inl [0] else inr "out of memory"%string)
    (fun _ => inr "not a docx file"%string)
    (fun _ => inr "cannot identify image file"%string)
    (fun _ page_num => inl (placeholder_text page_num))
    (fun _ => [0])
    [0].

(** A batch environment: the scan cannot be rasterised, the DOCX file
    opens and has no paragraph and no table. *)
Definition world_batch : World pystr nat string :=
  @MkWorld pystr nat string
    id suffix_of_sample
    (fun _ _ => inr "out of memory"%string)
    (fun _ => inl (MkDocx [] []))
    (fun _ => inr "cannot identify image file"%string)
    (fun _ page_num => inl (placeholder_text page_num))
    (fun _ => [])
    [2; 0; 1].

(** ** The lines of a DOCX file, and more sample environments *)

(** The lines [extract_from_docx] joins. *)
Definition docx_lines (doc : Docx) : list pystr :=
  filter (fun t => strip t <> []) (docx_paragraphs doc)
  ++ flat_map (fun table => str_join [TAB] <$> table) (docx_tables doc).

Definition sample_docx : Docx :=
  MkDocx [py "Patient: Ana"; py "   "; py " Diagnosis"]
         [[[py "Dose"; py "5 mg"]; [[]; []]]].

Definition report_docx : pystr := py "report.docx".

Definition world_docx : World pystr nat string :=
  @MkWorld pystr nat string
    id suffix_of_sample
    (fun _ _ => inr "not a pdf file"%string)
    (fun _ => inl sample_docx)
    (fun _ => inr "cannot identify image file"%string)
    (fun _ page_num => inl (placeholder_text page_num))
    (fun _ => [])
    [0].

(** The batch environment with four document tasks. *)
Definition world_batch_four : World pystr nat string :=
  @MkWorld pystr nat string
    id suffix_of_sample
    (fun _ _ => inr "out of memory"%string)
    (fun _ => inl (MkDocx [] []))
    (fun _ => inr "cannot identify image file"%string)
    (fun _ page_num => inl (placeholder_text page_num))
    (fun _ => [])
    [3; 1; 0; 2].

(** ** Runs of the semaphore *)

(** Steps still ahead of a remote call, of a task, of the whole batch. *)
Definition call_weight (c : call_state) : nat :=
  match c with Created => 2 | Active => 1 | Completed => 0 end.

Definition task_weight (t : task_state) : nat :=
  match t with
  | Waiting n => 2 * n + 2
  | Inside cs => sum_list_with call_weight cs + 1
  | Finished => 0
  end.

Definition sem_weight (s : sem_state) : nat :=
  sum_list_with task_weight (tasks s).

(** A run of [k] steps. *)
Inductive sem_steps : nat -> sem_state -> sem_state -> Prop :=
  | steps_none s : sem_steps 0 s s
  | steps_more k s s' s'' :
      sem_steps k s s' -> sem_step s' s'' -> sem_steps (S k) s s''.

Definition sem_stuck (s : sem_state) : Prop := forall s', ~ sem_step s s'.

(** ** Document classification ([classification_pipeline.py]) *)

(** [p] is a prefix of [s], and [needle in hay] for two strings. *)
Fixpoint str_startswith (s p : pystr) {struct p} : bool :=
  match p, s with
  | [], _ => true
  | c :: p', d :: s' => (c =? d)%N && str_startswith s' p'
  | _ :: _, [] => false
  end.

Fixpoint str_contains (needle hay : pystr) : bool :=
  str_startswith hay needle ||
  match hay with
  | [] => false
  | _ :: hay' => str_contains needle hay'
  end.

(** The pydantic model [DocumentType]; [confidence] is the rational the
    float literal denotes in decimal notation. *)
Record DocumentType := MkDocumentType {
  is_claim : option bool;
  confidence : QArith_base.Q;
  reasoning : pystr;
  key_indicators : list pystr
}.

(** The keywords of the stub heuristic. *)
Definition CLAIM_KEYWORDS : list pystr :=
  [py "allegation"; py "malpractice"; py "negligence"; py "lawsuit"; py "claim"].

(** The dict [{"medical": ..., "claim": ...}] that [split_documents] and
    [batch_classify_documents] return. *)
Record split_result := MkSplit {
  medical : pystr;
  claim : pystr
}.

(** The list item [f"\n\n--- From: {file_path} ---\n\n{body}"]. *)
Definition from_section (file_path body : pystr) : pystr :=
  [NL; NL] ++ py "--- From: " ++ file_path ++ py " ---" ++ [NL; NL] ++ body.

Section ClassificationDefs.
(** [str.lower] of the Python library. *)
Variable str_lower : pystr -> pystr.

(** [classify_document]: the stub body that runs in this repository (the
    API call is commented out); [model] is not used by it. *)
Definition classify_document (text : pystr) (model : pystr) : DocumentType :=
  let is_claim :=
    existsb (fun keyword => str_contains keyword (str_lower text))
            CLAIM_KEYWORDS in
  MkDocumentType (Some is_claim) (QArith_base.Qmake 85 100)
    (py "Placeholder classification based on keyword heuristics")
    [py "Sample indicator"].

Definition split_documents (text : pystr) (classification : DocumentType)
  : split_result :=
  match is_claim classification with
  | None => MkSplit text text
  | Some true => MkSplit [] text
  | Some false => MkSplit text []
  end.

(** One iteration of [for file_path, text in documents.items()], on the
    lists [all_medical] and [all_claims]. *)
Definition classify_step (acc : list pystr * list pystr)
    (item : pystr * pystr) : list pystr * list pystr :=
  let '(all_medical, all_claims) := acc in
  let '(file_path, text) := item in
  let classification := classify_document text (py "gpt-4o") in
  let split := split_documents text classification in
  let all_medical :=
    if decide (medical split = []) then all_medical
    else all_medical ++ [from_section file_path (medical split)] in
  let all_claims :=
    if decide (claim split = []) then all_claims
    else all_claims ++ [from_section file_path (claim split)] in
  (all_medical, all_claims).

(** [batch_classify_documents]; [documents] lists the items of the dict in
    its iteration order. *)
Definition batch_classify_documents (documents : list (pystr * pystr))
  : split_result :=
  let '(all_medical, all_claims) := fold_left classify_step documents ([], []) in
  MkSplit (str_join [NL; NL] all_medical) (str_join [NL; NL] all_claims).

(** The stub classifies [text] as a claim. *)
Definition classified_as_claim (text : pystr) : bool :=
  existsb (fun keyword => str_contains keyword (str_lower text)) CLAIM_KEYWORDS.
End ClassificationDefs.

(** A lower-casing of the ASCII letters, for the examples. *)
Definition ascii_lower (s : pystr) : pystr :=
  (fun c => if ((65 <=? c) && (c <=? 90))%N then (c + 32)%N else c) <$> s.

Definition sample_documents : list (pystr * pystr) :=
  [(py "a.pdf", py "Patient presents with chest pain");
   (py "b.pdf", []);
   (py "c.docx", py "The plaintiff alleges medical MALPRACTICE");
   (py "d.txt", py "Disclaimer: for internal use")].

(** ** Synthetic data generator ([generate_synthetic_data.py]) *)

(** [str(z)] for an integer. *)
Definition str_of_Z (z : Z) : pystr :=
  if (z <? 0)%Z then py "-" ++ str_of_nat (Z.to_nat (- z))
  else str_of_nat (Z.to_nat z).

(** The exceptions of the library calls and dict accesses. *)
Inductive py_exn :=
  | IndexError              (* [random.choice] of an empty sequence *)
  | ValueError              (* [randint] of an empty range, [sample] larger
                               than the population, [strptime] of a bad text *)
  | KeyError (key : pystr). (* [d[key]] for a missing key *)

(** The constant tables. *)
Definition PATIENT_NAMES : list pystr :=
  [py "Patient A"; py "Patient B"; py "Patient C"; py "Patient D"; py "Patient E"].

Definition OCCUPATIONS : list pystr :=
  [py "Teacher"; py "Engineer"; py "Nurse"; py "Driver"; py "Accountant";
   py "Chef"; py "Lawyer"].

Definition MEDICAL_CONDITIONS : list pystr :=
  [py "Hypertension"; py "Type 2 Diabetes"; py "Hyperlipidemia"; py "Asthma";
   py "Osteoarthritis"; py "Depression"; py "GERD"; py "Hypothyroidism"].

Definition SURGICAL_HISTORY : list pystr :=
  [py "Appendectomy"; py "Cholecystectomy"; py "Hernia repair";
   py "Knee arthroscopy"; py "Cesarean section"; py "Tonsillectomy"].

Definition MEDICATIONS : list pystr :=
  [py "Metformin"; py "Lisinopril"; py "Atorvastatin"; py "Metoprolol";
   py "Omeprazole"; py "Levothyroxine"; py "Albuterol"; py "Sertraline"].

(** An entry of [EPISODES_VDC] and of [EPISODES_PRAXIS]. *)
Record vdc_template := VdcTemplate {
  vt_chief_complaint : pystr;
  vt_diagnosis : pystr;
  vt_treatment : pystr;
  vt_expected_injury_days : Z;
  vt_expected_disability_points : Z
}.

Record praxis_template := PraxisTemplate {
  pt_chief_complaint : pystr;
  pt_diagnosis : pystr;
  pt_treatment : pystr;
  pt_allegation : pystr;
  pt_lex_artis_met : bool;
  pt_reasoning : pystr
}.

Definition EPISODES_VDC : list vdc_template :=
  [VdcTemplate (py "Motor vehicle accident with whiplash injury")
               (py "Cervical sprain, grade 2")
               (py "Conservative management with NSAIDs and physical therapy")
               45 3;
   VdcTemplate (py "Fall from height resulting in ankle fracture")
               (py "Bimalleolar ankle fracture")
               (py "ORIF with plate and screws")
               90 8;
   VdcTemplate (py "Workplace injury - crush injury to hand")
               (py "Multiple metacarpal fractures, soft tissue injury")
               (py "Surgical fixation, hand therapy")
               120 12].

Definition EPISODES_PRAXIS : list praxis_template :=
  [PraxisTemplate (py "Chest pain")
                  (py "Acute coronary syndrome")
                  (py "PCI with stent placement")
                  (py "Delayed diagnosis of ACS")
                  true
                  (py "Patient presented with atypical symptoms; standard workup performed");
   PraxisTemplate (py "Abdominal pain")
                  (py "Appendicitis with perforation")
                  (py "Emergent appendectomy")
                  (py "Delayed surgical intervention")
                  false
                  (py "8-hour delay in CT scan despite peritonitis signs");
   PraxisTemplate (py "Postoperative infection")
                  (py "Surgical site infection, deep")
                  (py "Antibiotics, debridement")
                  (py "Improper sterile technique")
                  true
                  (py "Infection rate within expected range for procedure type")].

(** The dict of [generate_patient_demographics]. *)
Record demographics := Demographics {
  patient_id : pystr;
  age : Z;
  sex : pystr;
  occupation : pystr
}.

(** The keys an episode dict has beside the common ones: those of
    [generate_episode_vdc] or those of [generate_episode_praxis]. *)
Inductive episode_keys :=
  | VdcKeys (expected_injury_days expected_disability_points : Z)
            (evolution current_status : pystr)
  | PraxisKeys (allegation : pystr) (lex_artis_met : bool)
               (expected_conclusion reasoning : pystr).

Record episode := Episode {
  ep_date : pystr;
  ep_location : pystr;
  ep_chief_complaint : pystr;
  ep_diagnosis : pystr;
  ep_treatment : pystr;
  ep_keys : episode_keys
}.

(** [episode.get('evolution', default)] and
    [episode.get('current_status', default)] *)
Definition get_evolution (e : episode) (default : pystr) : pystr :=
  match ep_keys e with VdcKeys _ _ evolution _ => evolution | PraxisKeys _ _ _ _ => default end.

Definition get_current_status (e : episode) (default : pystr) : pystr :=
  match ep_keys e with VdcKeys _ _ _ status => status | PraxisKeys _ _ _ _ => default end.

(** The expected report: ["type"] and ["sections"]. *)
Inductive expected_report :=
  | VdcReport (antecedentes_medicos cronologia lesiones_secuelas : pystr)
              (dias_impedimento puntos_secuela : Z) (conclusiones : pystr)
  | PraxisReport (antecedentes_medicos cronologia_hechos analisis_lex_artis
                  conclusiones : pystr).

Definition report_type_of (r : expected_report) : pystr :=
  match r with
  | VdcReport _ _ _ _ _ _ => py "vdc"
  | PraxisReport _ _ _ _ => py "praxis"
  end.

Record document := Document {
  doc_type : pystr;
  doc_date : pystr;
  doc_text : pystr
}.

Record case_metadata := CaseMetadata {
  generated_date : pystr;
  synthetic : bool;
  version : pystr
}.

Record synthetic_case := SyntheticCase {
  case_id : pystr;
  case_report_type : pystr;
  case_complexity : pystr;
  patient_demographics : demographics;
  medical_history : list pystr;
  surgical_history : list pystr;
  medications : list pystr;
  current_episode : episode;
  documents : list document;
  case_expected_report : expected_report;
  metadata : case_metadata
}.

(** [generate_document_text] *)
Definition generate_document_text (e : episode) (d : demographics)
    (med_history : list pystr) : pystr :=
  let doc_text :=
    py "EMERGENCY ROOM REPORT" ++ [NL; NL]
    ++ py "Date: " ++ ep_date e ++ [NL]
    ++ py "Location: " ++ ep_location e ++ [NL; NL]
    ++ py "PATIENT INFORMATION" ++ [NL]
    ++ py "Patient ID: " ++ patient_id d ++ [NL]
    ++ py "Age: " ++ str_of_Z (age d) ++ py " years" ++ [NL]
    ++ py "Sex: " ++ sex d ++ [NL]
    ++ py "Occupation: " ++ occupation d ++ [NL; NL]
    ++ py "CHIEF COMPLAINT" ++ [NL]
    ++ ep_chief_complaint e ++ [NL; NL]
    ++ py "MEDICAL HISTORY" ++ [NL] in
  let doc_text :=
    fold_left (fun doc_text condition => doc_text ++ py "- " ++ condition ++ [NL])
              med_history doc_text in
  doc_text
  ++ [NL] ++ py "DIAGNOSIS" ++ [NL]
  ++ ep_diagnosis e ++ [NL; NL]
  ++ py "TREATMENT" ++ [NL]
  ++ ep_treatment e ++ [NL; NL]
  ++ py "EVOLUTION" ++ [NL]
  ++ get_evolution e (py "Patient responded to treatment.") ++ [NL; NL]
  ++ py "CURRENT STATUS" ++ [NL]
  ++ get_current_status e (py "Stable") ++ [NL].

(** [generate_expected_report_vdc]: it reads the VDC keys of the episode. *)
Definition generate_expected_report_vdc (d : demographics) (e : episode)
    (med_history : list pystr) : expected_report + py_exn :=
  match ep_keys e with
  | VdcKeys days points _ _ =>
      inl (VdcReport
             (str_of_Z (age d) ++ py "-year-old " ++ sex d
              ++ py " with history of: " ++ str_join (py ", ") med_history)
             (py "Injury occurred on " ++ ep_date e ++ py " with diagnosis of "
              ++ ep_diagnosis e)
             (py "Residual limitations from " ++ ep_diagnosis e)
             days points
             (py "Assessment of body damage per Spanish legal tables (VDC)."))
  | PraxisKeys _ _ _ _ => inr (KeyError (py "expected_injury_days"))
  end.

(** [generate_expected_report_praxis]: it reads the praxis keys. *)
Definition generate_expected_report_praxis (d : demographics) (e : episode)
    (med_history : list pystr) : expected_report + py_exn :=
  match ep_keys e with
  | PraxisKeys _ _ conclusion reasoning =>
      inl (PraxisReport
             (str_of_Z (age d) ++ py "-year-old " ++ sex d
              ++ py " with relevant history: "
              ++ str_join (py ", ") (take 2 med_history))
             (py "Patient presented on " ++ ep_date e ++ py " with "
              ++ ep_chief_complaint e)
             reasoning conclusion)
  | VdcKeys _ _ _ _ => inr (KeyError (py "reasoning"))
  end.

(** A computation that draws from [random] and reads the clock: from the
    state of both to a value or an exception, and the next state. *)
Definition Gen (St A : Type) : Type := St -> (A + py_exn) * St.

#[global] Instance Gen_ret (St : Type) : MRet (Gen St) :=
  fun A a s => (inl a, s).

#[global] Instance Gen_bind (St : Type) : MBind (Gen St) :=
  fun A B f m s =>
    match m s with
    | (inl a, s') => f a s'
    | (inr e, s') => (inr e, s')
    end.

Definition gen_raise {St A : Type} (e : py_exn) : Gen St A :=
  fun s => (inr e, s).

Definition gen_lift {St A : Type} (r : A + py_exn) : Gen St A :=
  fun s => (r, s).

(** The list comprehension [[f(x) for x in l]] with effects. *)
Fixpoint gen_for {St A B : Type} (f : A -> Gen St B) (l : list A)
  : Gen St (list B) :=
  match l with
  | [] => mret []
  | x :: l' => y ← f x; ys ← gen_for f l'; mret (y :: ys)
  end.

Section GeneratorDefs.
Context {St DT : Type}.

(** The [random] and [datetime] modules.  [DT] is the type of [datetime]
    values and [St] the state of the random generator and the clock. *)
Record Runtime := MkRuntime {
  rt_randint : Z -> Z -> St -> Z * St;      (* the draw of [randint(a, b)] *)
  rt_randbelow : nat -> St -> nat * St;     (* the position [choice] draws *)
  rt_sample : list pystr -> nat -> St -> list pystr * St;
                                            (* the draw of [sample(pop, k)] *)
  rt_random : St -> QArith_base.Q * St;     (* [random.random()] *)
  rt_now : St -> DT * St;                   (* [datetime.now()] *)
  rt_add_days : DT -> Z -> DT;              (* [d + timedelta(days=n)] *)
  rt_strftime : DT -> pystr;                (* [d.strftime("%Y-%m-%d")] *)
  rt_strptime : pystr -> option DT;         (* [strptime(s, "%Y-%m-%d")] *)
  rt_isoformat : DT -> pystr                (* [d.isoformat()] *)
}.

(** What the library guarantees: a draw of [randint] lies in its range, a
    position drawn by [choice] lies in the sequence, [sample] draws without
    replacement, and [strptime] parses what [strftime] printed (dates with a
    year of four digits, as the dates around [now] are; the overflow of
    date arithmetic is not modelled). *)
Record runtime_ok (rt : Runtime) : Prop := RuntimeOk {
  randint_range : forall a b s,
    (a <= b)%Z -> (a <= fst (rt_randint rt a b s) <= b)%Z;
  randbelow_range : forall n s, 0 < n -> fst (rt_randbelow rt n s) < n;
  sample_ok : forall pop k s,
    k <= length pop ->
    length (fst (rt_sample rt pop k s)) = k /\
    exists rest, Permutation (fst (rt_sample rt pop k s) ++ rest) pop;
  strptime_strftime : forall d, is_Some (rt_strptime rt (rt_strftime rt d))
}.

Variable rt : Runtime.

(** [random.randint(a, b)] *)
Definition randint (a b : Z) : Gen St Z :=
  fun s => if (b <? a)%Z then (inr ValueError, s)
           else let r := rt_randint rt a b s in (inl (fst r), snd r).

(** [random.choice(seq)] *)
Definition choice {A : Type} (seq : list A) : Gen St A :=
  fun s => match seq with
           | [] => (inr IndexError, s)
           | x :: _ =>
               let r := rt_randbelow rt (length seq) s in
               (inl (nth (fst r) seq x), snd r)
           end.

(** [random.sample(population, k)] *)
Definition sample (population : list pystr) (k : Z) : Gen St (list pystr) :=
  fun s => if ((k <? 0) || (Z.of_nat (length population) <? k))%Z
           then (inr ValueError, s)
           else let r := rt_sample rt population (Z.to_nat k) s in
                (inl (fst r), snd r).

(** [random.random() < p], the threshold taken as a rational *)
Definition random_below (p : QArith_base.Q) : Gen St bool :=
  fun s => let r := rt_random rt s in
           (inl (negb (QArith_base.Qle_bool p (fst r))), snd r).

Definition now : Gen St DT :=
  fun s => let r := rt_now rt s in (inl (fst r), snd r).

Definition strptime (text : pystr) : Gen St DT :=
  fun s => match rt_strptime rt text with
           | Some d => (inl d, s)
           | None => (inr ValueError, s)
           end.

Definition generate_patient_demographics : Gen St demographics :=
  age ← randint 25 75;
  sex ← choice [py "M"; py "F"];
  id ← randint 1000 9999;
  occupation ← choice OCCUPATIONS;
  mret (Demographics (py "SYNTH-" ++ str_of_Z id) age sex occupation).

Definition generate_medical_history : Gen St (list pystr) :=
  num_conditions ← randint 1 4;
  conditions ← sample MEDICAL_CONDITIONS num_conditions;
  gen_for (fun condition =>
             year ← randint 2015 2023;
             mret (condition ++ py " (diagnosed " ++ str_of_Z year ++ py ")"))
          conditions.

Definition generate_surgical_history : Gen St (list pystr) :=
  none ← random_below (QArith_base.Qmake 3 10);
  if (none : bool) then mret []
  else
    num_surgeries ← randint 1 3;
    surgeries ← sample SURGICAL_HISTORY
                  (Z.min num_surgeries (Z.of_nat (length SURGICAL_HISTORY)));
    gen_for (fun surgery =>
               year ← randint 2010 2022;
               mret (surgery ++ py " (" ++ str_of_Z year ++ py ")"))
            surgeries.

Definition generate_medications : Gen St (list pystr) :=
  none ← random_below (QArith_base.Qmake 2 10);
  if (none : bool) then mret []
  else
    num_meds ← randint 1 5;
    sample MEDICATIONS (Z.min num_meds (Z.of_nat (length MEDICATIONS))).

Definition generate_episode_vdc : Gen St episode :=
  template ← choice EPISODES_VDC;
  today ← now;
  days ← randint 30 365;
  let base_date := rt_add_days rt today (- days) in
  location ← choice [py "Hospital General";
                     py "Clinic San Jos" ++ [233%N];
                     py "Emergency Room"];
  mret (Episode (rt_strftime rt base_date) location
          (vt_chief_complaint template) (vt_diagnosis template)
          (vt_treatment template)
          (VdcKeys (vt_expected_injury_days template)
                   (vt_expected_disability_points template)
                   (py "Patient improved with treatment, residual limitations persist.")
                   (py "Stable, ongoing rehabilitation"))).

Definition generate_episode_praxis : Gen St episode :=
  template ← choice EPISODES_PRAXIS;
  today ← now;
  days ← randint 180 730;
  let base_date := rt_add_days rt today (- days) in
  location ← choice [py "Hospital Universitario"; py "Private Clinic";
                     py "Emergency Department"];
  mret (Episode (rt_strftime rt base_date) location
          (pt_chief_complaint template) (pt_diagnosis template)
          (pt_treatment template)
          (PraxisKeys (pt_allegation template) (pt_lex_artis_met template)
             (if pt_lex_artis_met template
              then py "Standard of care was met. No malpractice identified."
              else py "Deviation from standard of care identified.")
             (pt_reasoning template))).

(** The follow-up document number [i] (from 0) of a complex case. *)
Definition follow_up_document (e : episode) (i : nat) : Gen St document :=
  base ← strptime (ep_date e);
  let follow_up_date := rt_add_days rt base (7 * (Z.of_nat i + 1)) in
  type ← choice [py "Follow-up Note"; py "Lab Report"; py "Imaging Report"];
  mret (Document type (rt_strftime rt follow_up_date)
          (py "Follow-up " ++ str_of_Z (Z.of_nat i + 1)
           ++ py ": Patient progress noted. Continuing treatment plan.")).

Definition generate_synthetic_case (report_type complexity : pystr)
  : Gen St synthetic_case :=
  demographics ← generate_patient_demographics;
  med_history ← generate_medical_history;
  surgical_history ← generate_surgical_history;
  medications ← generate_medications;
  '(episode, expected_report) ←
    (if decide (report_type = py "vdc") then
       episode ← generate_episode_vdc;
       report ← gen_lift (generate_expected_report_vdc demographics episode med_history);
       mret (episode, report)
     else
       episode ← generate_episode_praxis;
       report ← gen_lift (generate_expected_report_praxis demographics episode med_history);
       mret (episode, report));
  let document_text := generate_document_text episode demographics med_history in
  let first := Document (py "Emergency Room Report") (ep_date episode) document_text in
  documents ←
    (if decide (complexity = py "complex") then
       num_additional_docs ← randint 3 7;
       follow_ups ← gen_for (follow_up_document episode)
                            (seq 0 (Z.to_nat num_additional_docs));
       mret (first :: follow_ups)
     else mret [first]);
  id ← randint 10000 99999;
  today ← now;
  mret (SyntheticCase (py "CASE-" ++ str_of_Z id) report_type complexity
          demographics med_history surgical_history medications episode
          documents expected_report
          (CaseMetadata (rt_isoformat rt today) true (py "1.0"))).

(** [generate_dataset]: the list it builds and returns (the prints and the
    JSON file it writes from that list are left out). *)
Definition generate_dataset (count : Z) (report_types : list pystr)
    (complexity : pystr) : Gen St (list synthetic_case) :=
  gen_for (fun _ : nat =>
             report_type ← choice report_types;
             generate_synthetic_case report_type complexity)
          (seq 0 (Z.to_nat count)).
End GeneratorDefs.

Arguments Runtime : clear implicits.

(** ** Running the generator *)

(** [m] returns normally, from every state, a value that satisfies [P]. *)
Definition returns {St A : Type} (m : Gen St A) (P : A -> Prop) : Prop :=
  forall s, exists a s', m s = (inl a, s') /\ P a.

(** ["valoracion_dias"] of a VDC report and ["conclusiones"],
    ["analisis_lex_artis"] of a praxis report. *)
Definition valoracion_dias (r : expected_report) : option (Z * Z) :=
  match r with
  | VdcReport _ _ _ dias puntos _ => Some (dias, puntos)
  | PraxisReport _ _ _ _ => None
  end.

Definition conclusiones (r : expected_report) : pystr :=
  match r with
  | VdcReport _ _ _ _ _ c => c
  | PraxisReport _ _ _ c => c
  end.

Definition analisis_lex_artis (r : expected_report) : option pystr :=
  match r with
  | VdcReport _ _ _ _ _ _ => None
  | PraxisReport _ _ a _ => Some a
  end.

(** [text.split(',')] *)
Fixpoint split_comma (s : pystr) : list pystr :=
  match s with
  | [] => [[]]
  | c :: t =>
      if (c =? 44)%N then [] :: split_comma t
      else match split_comma t with
           | l :: ls => (c :: l) :: ls
           | [] => [[c]]
           end
  end.

(** [main] after [parser.parse_args()]: [count], [report_types] and
    [complexity] are the parsed arguments. *)
Definition main_dataset {St DT : Type} (rt : Runtime St DT) (count : Z)
    (report_types complexity : pystr) : Gen St (list synthetic_case) :=
  generate_dataset rt count (strip <$> split_comma report_types) complexity.

(** A runtime to run the generator on: the state is a counter that every
    draw advances, a [datetime] is a day number printed in decimal. *)
Definition string_of_pystr (s : pystr) : string :=
  string_of_list_ascii (ascii_of_N <$> s).

Definition counter_runtime : Runtime nat nat := {|
  rt_randint a b s := ((a + Z.of_nat s mod (b - a + 1))%Z, S s);
  rt_randbelow n s := (s mod n, S s);
  rt_sample pop k s := (take k (rotate s pop), S s);
  rt_random s := (QArith_base.Qmake (Z.of_nat (s mod 10)) 10, S s);
  rt_now s := (Z.to_nat 20000 + s, s);
  rt_add_days d n := Z.to_nat (Z.of_nat d + n);
  rt_strftime d := str_of_nat d;
  rt_strptime text :=
    Nat.of_uint <$> DecimalString.NilEmpty.uint_of_string (string_of_pystr text);
  rt_isoformat d := str_of_nat d
|}.

(** ** [remove_repetition] for every [int] *)

(** The limit of [re] on a repetition count ([MAXREPEAT]): a pattern with
    [{n,}] for [n] at or above it is refused with [OverflowError]. *)
Definition MAXREPEAT : Z := 4294967295.

(** [re.sub(pattern, '', s)] for the pattern [(.)\1] followed by the
    literal text [literal], scanning left to right.  [skip] is the number
    of characters still covered by the match found last; at a free position
    the pattern matches when the character is not a newline and is followed
    by itself and then by [literal], and the match is deleted. *)
Fixpoint re_sub_pair_literal (literal : pystr) (skip : nat) (s : pystr)
  : pystr :=
  match s with
  | [] => []
  | c :: t =>
      match skip with
      | S k => re_sub_pair_literal literal k t
      | 0 =>
          match t with
          | d :: t' =>
              if negb (c =? NL)%N && (d =? c)%N && str_startswith t' literal
              then re_sub_pair_literal literal (S (length literal)) t
              else c :: re_sub_pair_literal literal 0 t
          | [] => [c]
          end
      end
  end.

(** [re.sub(r'(.)\1{' + str(max_consecutive) + ',}',
            r'\1' * max_consecutive, line)] for a Python [int].
    For a negative number the braces do not form a quantifier: the pattern
    is [(.)\1] followed by the literal text ["{-n,}"], and the replacement
    [r'\1' * max_consecutive] is the empty string.  From [MAXREPEAT] on the
    call raises (memory limits below that bound are not modelled). *)
Definition re_sub_repetition (max_consecutive : Z) (line : pystr)
  : option pystr :=
  if (max_consecutive <? 0)%Z then
    Some (re_sub_pair_literal
            (py "{" ++ str_of_Z max_consecutive ++ py ",}") 0 line)
  else if (max_consecutive <? MAXREPEAT)%Z then
    Some (collapse_runs (Z.to_nat max_consecutive) line)
  else None.

(** One iteration of [for line in lines], for a Python [int]; [None] when
    an iteration has raised. *)
Definition loop_body_int (max_consecutive : Z) (st : option loop_state)
    (line : pystr) : option loop_state :=
  st ← st;
  if is_separator_line line then Some st
  else
    line ← re_sub_repetition max_consecutive line;
    if decide (prev_line st = Some line) then
      let count := S (line_count st) in
      if (max_consecutive <? Z.of_nat count)%Z
      then Some (LoopState (cleaned_lines st) (prev_line st) count)
      else Some (LoopState (cleaned_lines st ++ [line]) (prev_line st) count)
    else Some (LoopState (cleaned_lines st ++ [line]) (Some line) 1).

(** [remove_repetition(text, max_consecutive)] for every Python [int]:
    the returned text, or [None] when the call raises. *)
Definition remove_repetition_int (text : pystr) (max_consecutive : Z)
  : option pystr :=
  st ← fold_left (loop_body_int max_consecutive) (split_nl text)
       (Some loop_init);
  Some (join_nl (cleaned_lines st)).

(** ** [retry_gemini_async] and exceptions outside [Exception] *)

(** What an invocation of the operation does: it returns a value, raises
    an instance of [Exception], or raises another [BaseException]
    ([asyncio.CancelledError], [KeyboardInterrupt]), which the clause
    [except Exception] does not catch. *)
Inductive call_result (V E B : Type) : Type :=
  | CallReturns (v : V)
  | CallRaises (e : E)
  | CallRaisesBase (b : B).
Arguments CallReturns {V E B} v.
Arguments CallRaises {V E B} e.
Arguments CallRaisesBase {V E B} b.

Section RetryBaseDefs.
Context {V E B : Type}.

Variable generate_fn : nat -> call_result V E B.

(** The loop of [retry_gemini_async]; what it raises is an [Exception] of
    the operation re-raised by [raise], or a [BaseException] that passed
    through. *)
Fixpoint retry_loop_base (retries : Z) (items : list (nat * Z))
    (calls : nat) (slept : list Z) : retry_run V (E + B) :=
  match items with
  | [] => RetryRun ReturnedNone calls slept
  | (attempt, delay) :: rest =>
      let slept := if (0 <? delay)%Z then slept ++ [delay] else slept in
      match generate_fn calls with
      | CallReturns v => RetryRun (Returned v) (S calls) slept
      | CallRaisesBase b => RetryRun (Raised (inr b)) (S calls) slept
      | CallRaises e =>
          if (Z.of_nat attempt =? retries - 1)%Z
          then RetryRun (Raised (inl e)) (S calls) slept
          else retry_loop_base retries rest (S calls) slept
      end
  end.

Definition retry_gemini_async_base (retries : Z) (delays : list Z)
  : retry_run V (E + B) :=
  retry_loop_base retries (enumerate (py_slice_to delays retries)) 0 [].
End RetryBaseDefs.

(** An operation that fails with instances of [Exception] only. *)
Definition exceptions_only {V E B : Type} (generate_fn : nat -> V + E)
    (k : nat) : call_result V E B :=
  match generate_fn k with
  | inl v => CallReturns v
  | inr e => CallRaises e
  end.


(** ** Page results outside [Exception] *)

(** A page result as [asyncio.gather(..., return_exceptions=True)] hands
    it to the combining loop: the text the call returned, the [Exception]
    it raised, or, for a page task that was cancelled, an
    [asyncio.CancelledError] with its message, which is no instance of
    [Exception]. *)
Inductive page_result (Exn : Type) : Type :=
  | PageText (text : pystr)
  | PageException (e : Exn)
  | PageCancelled (message : pystr).
Arguments PageText {Exn} text.
Arguments PageException {Exn} e.
Arguments PageCancelled {Exn} message.

(** One iteration of the combining loop on such a result:
    [isinstance(text, Exception)] is false for the [CancelledError], whose
    [str()] is its message. *)
Definition combine_page_result {Exn : Type} (combined_text : pystr)
    (it : nat * page_result Exn) : pystr :=
  match it with
  | (i, PageException _) => combined_text ++ page_failed_marker i
  | (i, PageText text) => combined_text ++ page_block i text
  | (i, PageCancelled message) => combined_text ++ page_block i message
  end.

(** A page call that returned or raised an [Exception]. *)
Definition page_result_of {Exn : Type} (result : pystr + Exn)
  : page_result Exn :=
  match result with
  | inl text => PageText text
  | inr e => PageException e
  end.

(* ===================================================================== *)
(** * Part II: properties                                                 *)
(* ===================================================================== *)

(** ** Lines: [split] and [join] *)

Lemma split_nl_nonempty s : split_nl s <> [].
Proof.
  destruct s as [|c t]; simpl; [done|].
  destruct (c =? NL)%N; [done|]. by destruct (split_nl t).
Qed.

Lemma split_nl_no_newline s : Forall no_newline (split_nl s).
Proof.
  induction s as [|c t IH]; simpl.
  - repeat constructor. apply not_elem_of_nil.
  - destruct (N.eqb_spec c NL) as [->|Hc].
    + constructor; [|done]. apply not_elem_of_nil.
    + destruct (split_nl t) as [|l ls] eqn:E; [by apply split_nl_nonempty in E|].
      inversion IH as [|? ? Hl Hls]; subst. constructor; [|done].
      apply not_elem_of_cons. split; [congruence|done].
Qed.

Lemma join_nl_cons l l' ls : join_nl (l :: l' :: ls) = l ++ NL :: join_nl (l' :: ls).
Proof. reflexivity. Qed.

Lemma join_split s : join_nl (split_nl s) = s.
Proof.
  induction s as [|c t IH]; simpl; [done|].
  destruct (N.eqb_spec c NL) as [->|Hc].
  - destruct (split_nl t) as [|l ls] eqn:E; [by apply split_nl_nonempty in E|].
    rewrite join_nl_cons. simpl. by rewrite <- IH.
  - destruct (split_nl t) as [|l ls] eqn:E; [by apply split_nl_nonempty in E|].
    rewrite <- IH. by destruct ls.
Qed.

Lemma split_nl_app_line l s :
  no_newline l ->
  split_nl (l ++ NL :: s) = l :: split_nl s.
Proof.
  unfold no_newline. induction l as [|c l IH]; intros Hl; simpl.
  - done.
  - apply not_elem_of_cons in Hl as [Hc Hl].
    destruct (N.eqb_spec c NL) as [->|_]; [done|].
    by rewrite IH.
Qed.

Lemma split_nl_line l : no_newline l -> split_nl l = [l].
Proof.
  unfold no_newline. induction l as [|c l IH]; intros Hl; simpl; [done|].
  apply not_elem_of_cons in Hl as [Hc Hl].
  destruct (N.eqb_spec c NL) as [->|_]; [done|].
  by rewrite IH.
Qed.

Lemma split_join ls :
  ls <> [] -> Forall no_newline ls -> split_nl (join_nl ls) = ls.
Proof.
  induction ls as [|l ls IH]; intros Hne Hall; [done|].
  inversion Hall as [|? ? Hl Hls]; subst.
  destruct ls as [|l' ls].
  - simpl. by apply split_nl_line.
  - rewrite join_nl_cons, split_nl_app_line by done.
    f_equal. by apply IH.
Qed.

(** ** The loop as a recursive function *)

Lemma fold_loop_body n lines st :
  cleaned_lines (fold_left (loop_body n) lines st)
  = cleaned_lines st ++ kept_lines n (prev_line st) (line_count st) lines.
Proof.
  revert st. induction lines as [|line rest IH]; intros st; simpl.
  - by rewrite app_nil_r.
  - rewrite IH. unfold loop_body.
    destruct (is_separator_line line); [done|].
    destruct (decide (prev_line st = Some (collapse_runs n line))) as [Heq|Hne]; simpl.
    + destruct (n <? S (line_count st)); simpl; [done|].
      by rewrite <- app_assoc.
    + by rewrite <- app_assoc.
Qed.

Lemma remove_repetition_kept text n :
  remove_repetition text n = join_nl (kept_lines n None 0 (split_nl text)).
Proof. unfold remove_repetition. by rewrite fold_loop_body. Qed.

(** ** Runs of characters *)

Lemma expand_cons c k rs : expand ((c, k) :: rs) = repeat c k ++ expand rs.
Proof. reflexivity. Qed.

Lemma expand_runs s : expand (runs s) = s.
Proof.
  induction s as [|c t IH]; simpl; [done|].
  destruct (runs t) as [|[d k] rs]; simpl in *.
  - by rewrite <- IH.
  - destruct (N.eqb_spec c d) as [->|Hcd]; rewrite <- IH; reflexivity.
Qed.

Lemma normal_runs s : normal (runs s).
Proof.
  induction s as [|c t IH]; simpl; [done|].
  destruct (runs t) as [|[d k] rs]; simpl in *.
  - repeat split; lia.
  - destruct (N.eqb_spec c d) as [->|Hcd]; simpl.
    + destruct IH as (? & ? & ?). repeat split; [lia|done|done].
    + repeat split; [lia|done|tauto..].
Qed.

Lemma runs_repeat_app c k rs :
  normal ((c, k) :: rs) -> runs (expand rs) = rs ->
  runs (repeat c k ++ expand rs) = (c, k) :: rs.
Proof.
  intros (Hk & Hne & Hrs) Hr.
  destruct k as [|k]; [lia|]. clear Hk.
  induction k as [|k IH]; simpl.
  - rewrite Hr. destruct rs as [|[d j] rs']; [done|].
    destruct (N.eqb_spec c d); [done|done].
  - simpl in IH. rewrite IH. by rewrite N.eqb_refl.
Qed.

Lemma runs_expand rs : normal rs -> runs (expand rs) = rs.
Proof.
  induction rs as [|[c k] rs IH]; intros Hn; [done|].
  rewrite expand_cons. apply runs_repeat_app; [done|].
  apply IH. by destruct Hn as (_ & _ & ?).
Qed.

(** ** The substitution [re.sub] on runs *)

Lemma run_length_repeat c j rest :
  ~ starts_with c rest -> run_length c (repeat c j ++ rest) = j.
Proof.
  intros Hrest. induction j as [|j IH]; simpl.
  - destruct rest as [|d rest']; [done|]. simpl in *.
    by destruct (N.eqb_spec d c).
  - by rewrite N.eqb_refl, IH.
Qed.

Lemma re_sub_runs_skip n a rest :
  re_sub_runs n (length a) (a ++ rest) = re_sub_runs n 0 rest.
Proof.
  induction a as [|c a IH]; simpl; [|done].
  by destruct rest.
Qed.

Lemma collapse_one_run n c j rest :
  c <> NL -> ~ starts_with c rest ->
  collapse_runs n (repeat c (S j) ++ rest)
  = repeat c (Nat.min (S j) n) ++ collapse_runs n rest.
Proof.
  intros Hc Hrest. unfold collapse_runs.
  induction j as [|j IH].
  - pose proof (run_length_repeat c 0 rest Hrest) as H0. simpl in H0.
    simpl. rewrite H0.
    destruct (N.eqb_spec c NL) as [|_]; [done|]. simpl.
    destruct n as [|n]; simpl; [|done].
    by destruct rest.
  - change (repeat c (S (S j)) ++ rest) with (c :: repeat c (S j) ++ rest).
    cbn [re_sub_runs].
    rewrite (run_length_repeat c (S j) rest Hrest).
    destruct (N.eqb_spec c NL) as [|_]; [done|]. cbn [negb andb].
    destruct (Nat.leb_spec n (S j)) as [Hle|Hgt].
    + replace (Nat.min (S (S j)) n) with n by lia.
      f_equal.
      rewrite <- (repeat_length c (S j)) at 1.
      apply re_sub_runs_skip.
    + rewrite IH.
      replace (Nat.min (S j) n) with (S j) by lia.
      replace (Nat.min (S (S j)) n) with (S (S j)) by lia.
      reflexivity.
Qed.

Lemma starts_with_expand c d k rs :
  0 < k -> c <> d -> ~ starts_with c (expand ((d, k) :: rs)).
Proof.
  intros Hk Hcd. destruct k as [|k]; [lia|]. simpl. congruence.
Qed.

Lemma collapse_expand n rs :
  normal rs -> runs_no_newline rs ->
  collapse_runs n (expand rs) = expand (cap n <$> rs).
Proof.
  induction rs as [|[c k] rs IH]; intros Hn Hnl; [done|].
  destruct Hn as (Hk & Hne & Hrs).
  inversion Hnl as [|? ? Hc Hnl']; subst. simpl in Hc.
  rewrite fmap_cons, !expand_cons. unfold cap at 1. simpl fst. simpl snd.
  destruct k as [|k]; [lia|].
  rewrite collapse_one_run; [by rewrite IH|done|].
  destruct rs as [|[d j] rs']; [simpl; tauto|].
  destruct Hrs as (Hj & _). by apply starts_with_expand.
Qed.

Lemma runs_chars s r : r ∈ runs s -> fst r ∈ s.
Proof.
  revert r. induction s as [|c t IH]; intros r; simpl.
  { intros Hr. by apply elem_of_nil in Hr. }
  destruct (runs t) as [|[d k] rs]; simpl in *.
  - intros ->%list_elem_of_singleton. left.
  - destruct (N.eqb_spec c d) as [->|Hcd].
    + intros [->|Hr]%elem_of_cons; [left|].
      right. apply IH. by right.
    + intros [->|Hr]%elem_of_cons; [left|].
      right. by apply IH.
Qed.

Lemma runs_no_newline_of s : no_newline s -> runs_no_newline (runs s).
Proof.
  intros Hs. apply Forall_forall. intros r Hr%runs_chars Heq.
  apply Hs. by rewrite <- Heq.
Qed.

(** Every run of a line without newline is cut down to [n] characters. *)
Lemma collapse_runs_cap n s :
  no_newline s -> collapse_runs n s = expand (cap n <$> runs s).
Proof.
  intros Hs. rewrite <- (expand_runs s) at 1.
  apply collapse_expand; [apply normal_runs | by apply runs_no_newline_of].
Qed.

Lemma re_sub_runs_subset n skip s x : x ∈ re_sub_runs n skip s -> x ∈ s.
Proof.
  revert skip. induction s as [|c t IH]; intros skip; simpl; [done|].
  destruct skip as [|k].
  - destruct (negb (c =? NL)%N && (n <=? run_length c t)).
    + intros [Hx|Hx]%elem_of_app.
      * apply list_elem_of_In, repeat_spec in Hx. subst. left.
      * right. by apply (IH _ Hx).
    + intros [->|Hx]%elem_of_cons; [left|right; by apply (IH _ Hx)].
  - intros Hx. right. by apply (IH _ Hx).
Qed.

Lemma collapse_runs_no_newline n s : no_newline s -> no_newline (collapse_runs n s).
Proof. intros Hs Hx. apply Hs. by apply (re_sub_runs_subset n 0). Qed.

Lemma run_length_le c t : run_length c t <= length t.
Proof.
  induction t as [|d t IH]; simpl; [lia|].
  destruct (d =? c)%N; simpl; lia.
Qed.

Lemma re_sub_runs_length n skip s :
  length (re_sub_runs n skip s) + Nat.min skip (length s) <= length s.
Proof.
  revert skip. induction s as [|c t IH]; intros skip; simpl; [lia|].
  destruct skip as [|k].
  - destruct (negb (c =? NL)%N && (n <=? run_length c t)) eqn:Hm.
    + apply andb_true_iff in Hm as [_ Hle%Nat.leb_le].
      rewrite length_app, repeat_length.
      pose proof (IH (run_length c t)). pose proof (run_length_le c t). lia.
    + simpl. pose proof (IH 0). lia.
  - pose proof (IH k). lia.
Qed.

(** The substitution never lengthens a line. *)
Lemma collapse_runs_length n s : length (collapse_runs n s) <= length s.
Proof. pose proof (re_sub_runs_length n 0 s). unfold collapse_runs. lia. Qed.

Lemma expand_cap_sublist n rs : expand (cap n <$> rs) `sublist_of` expand rs.
Proof.
  induction rs as [|[c k] rs IH]; [done|].
  rewrite fmap_cons, !expand_cons. apply sublist_app; [|done].
  unfold cap. simpl.
  replace k with (Nat.min k n + (k - Nat.min k n)) at 2 by lia.
  rewrite repeat_app. by apply sublist_inserts_r.
Qed.

(** The substitution only deletes characters. *)
Lemma collapse_runs_sublist n s :
  no_newline s -> collapse_runs n s `sublist_of` s.
Proof.
  intros Hs. rewrite collapse_runs_cap by done.
  rewrite <- (expand_runs s) at 2. apply expand_cap_sublist.
Qed.

Lemma normal_cap n rs : 0 < n -> normal rs -> normal (cap n <$> rs).
Proof.
  intros Hn. induction rs as [|[c k] rs IH]; [done|].
  intros (Hk & Hne & Hrs). rewrite fmap_cons. unfold cap at 1. simpl.
  repeat split; [lia| |by apply IH].
  destruct rs as [|[d j] rs']; [done|]. done.
Qed.

Lemma cap_cap n r : cap n (cap n r) = cap n r.
Proof. unfold cap. simpl. f_equal. lia. Qed.

Lemma expand_cap_0 rs : expand (cap 0 <$> rs) = [].
Proof.
  induction rs as [|[c k] rs IH]; [done|].
  rewrite fmap_cons.
  change (expand (cap 0 (c, k) :: (cap 0 <$> rs)))
    with (repeat c (Nat.min k 0) ++ expand (cap 0 <$> rs)).
  by rewrite IH, Nat.min_0_r.
Qed.

Lemma runs_collapse n s :
  0 < n -> no_newline s -> runs (collapse_runs n s) = cap n <$> runs s.
Proof.
  intros Hn Hs. rewrite collapse_runs_cap by done.
  apply runs_expand, normal_cap; [done|apply normal_runs].
Qed.

(** Applying the substitution twice changes nothing more. *)
Lemma collapse_runs_idem n s :
  no_newline s -> collapse_runs n (collapse_runs n s) = collapse_runs n s.
Proof.
  intros Hs. destruct n as [|n].
  - rewrite (collapse_runs_cap 0 s) by done. by rewrite expand_cap_0.
  - rewrite (collapse_runs_cap (S n) (collapse_runs (S n) s))
      by by apply collapse_runs_no_newline.
    rewrite runs_collapse by (done || lia).
    rewrite (collapse_runs_cap (S n) s) by done.
    rewrite <- list_fmap_compose. f_equal.
    apply list_fmap_ext. intros _ r _. apply cap_cap.
Qed.

Lemma cap_id n r : snd r <= n -> cap n r = r.
Proof. destruct r as [c k]. unfold cap. simpl. intros. f_equal. lia. Qed.

Lemma longest_run_bound s n r : longest_run s <= n -> r ∈ runs s -> snd r <= n.
Proof.
  unfold longest_run. induction (runs s) as [|r' rs IH].
  - intros _ Hr. by apply elem_of_nil in Hr.
  - rewrite fmap_cons. cbn [foldr].
    intros [H1 H2]%Nat.max_lub_iff [->|Hr]%elem_of_cons; [done|by apply IH].
Qed.

(** A line without a run longer than [n] is left as it is. *)
Lemma collapse_runs_id n s :
  no_newline s -> longest_run s <= n -> collapse_runs n s = s.
Proof.
  intros Hs Hmax. rewrite collapse_runs_cap by done.
  rewrite <- (expand_runs s) at 2. f_equal.
  rewrite <- (list_fmap_id (runs s)) at 2.
  apply list_fmap_ext. intros i r Hr. apply cap_id.
  apply (longest_run_bound s); [done|]. by apply list_elem_of_lookup_2 in Hr.
Qed.

(** ** Stripping and the separator test on runs *)

Lemma normal_positive rs : normal rs -> positive_runs rs.
Proof.
  induction rs as [|[c k] rs IH]; intros Hn; [constructor|].
  destruct Hn as (Hk & _ & Hrs). constructor; [done|by apply IH].
Qed.

Lemma lstrip_repeat_space c k x :
  isspace c = true -> lstrip (repeat c k ++ x) = lstrip x.
Proof. intros Hc. induction k as [|k IH]; simpl; [done|]. by rewrite Hc. Qed.

Lemma lstrip_expand rs :
  positive_runs rs -> lstrip (expand rs) = expand (lstrip_runs rs).
Proof.
  induction 1 as [|[c k] rs Hk _ IH]; [done|]. simpl in Hk.
  rewrite expand_cons. simpl. destruct (isspace c) eqn:Hc.
  - by rewrite lstrip_repeat_space.
  - destruct k as [|k]; [lia|]. simpl. by rewrite Hc.
Qed.

Lemma rev_repeat_same (c : N) k : rev (repeat c k) = repeat c k.
Proof.
  induction k as [|k IH]; simpl; [done|].
  rewrite IH. clear IH. induction k as [|k IH]; simpl; [done|]. by rewrite IH.
Qed.

Lemma expand_app rs1 rs2 : expand (rs1 ++ rs2) = expand rs1 ++ expand rs2.
Proof. unfold expand. apply flat_map_app. Qed.

Lemma rev_expand rs : rev (expand rs) = expand (rev rs).
Proof.
  induction rs as [|[c k] rs IH]; [done|].
  rewrite expand_cons, rev_app_distr, IH, rev_repeat_same. simpl.
  rewrite expand_app. simpl. by rewrite app_nil_r.
Qed.

Lemma positive_lstrip_runs rs : positive_runs rs -> positive_runs (lstrip_runs rs).
Proof.
  induction 1 as [|r rs Hr Hrs IH]; simpl; [constructor|].
  destruct (isspace (fst r)); [done|by constructor].
Qed.

Lemma positive_rev rs : positive_runs rs -> positive_runs (rev rs).
Proof. unfold positive_runs. rewrite !Forall_forall. intros H r Hr. apply H.
  by apply list_elem_of_In, in_rev, list_elem_of_In in Hr. Qed.

Lemma strip_expand rs :
  positive_runs rs -> strip (expand rs) = expand (strip_runs rs).
Proof.
  intros Hp. unfold strip, rstrip, strip_runs.
  rewrite lstrip_expand, rev_expand, lstrip_expand, rev_expand; [done| |done].
  by apply positive_rev, positive_lstrip_runs.
Qed.

Lemma normal_lstrip_runs rs : normal rs -> normal (lstrip_runs rs).
Proof.
  induction rs as [|[c k] rs IH]; [done|]. intros Hn. simpl.
  destruct (isspace c); [|done]. apply IH. by destruct Hn as (_ & _ & ?).
Qed.

Lemma normal_snoc rs c k :
  normal rs -> 0 < k ->
  match last rs with Some (d, _) => d <> c | None => True end ->
  normal (rs ++ [(c, k)]).
Proof.
  induction rs as [|[d j] rs IH]; intros Hn Hk Hlast.
  - simpl. tauto.
  - destruct Hn as (Hj & Hne & Hrs). destruct rs as [|[e i] rs'].
    + simpl in *. tauto.
    + change (normal ((d, j) :: ((e, i) :: rs') ++ [(c, k)])).
      cbn [normal app]. split; [done|]. split; [done|].
      apply IH; [done|done|]. by rewrite last_cons_cons in Hlast.
Qed.

Lemma normal_rev rs : normal rs -> normal (rev rs).
Proof.
  induction rs as [|[c k] rs IH]; [done|]. intros (Hk & Hne & Hrs).
  simpl. apply normal_snoc; [by apply IH|done|].
  destruct rs as [|[d j] rs']; [done|].
  simpl. rewrite last_snoc. congruence.
Qed.

Lemma normal_strip_runs rs : normal rs -> normal (strip_runs rs).
Proof.
  intros Hn. unfold strip_runs.
  by apply normal_rev, normal_lstrip_runs, normal_rev, normal_lstrip_runs.
Qed.

Lemma runs_strip s : runs (strip s) = strip_runs (runs s).
Proof.
  rewrite <- (expand_runs s) at 1.
  rewrite strip_expand by apply normal_positive, normal_runs.
  apply runs_expand, normal_strip_runs, normal_runs.
Qed.

Lemma lstrip_subset s x : x ∈ lstrip s -> x ∈ s.
Proof.
  induction s as [|c t IH]; simpl; [done|].
  destruct (isspace c); [|done]. intros Hx. right. by apply IH.
Qed.

Lemma strip_no_newline s : no_newline s -> no_newline (strip s).
Proof.
  intros Hs Hx. apply Hs. unfold strip, rstrip in Hx.
  apply list_elem_of_In, in_rev, list_elem_of_In, lstrip_subset in Hx.
  apply list_elem_of_In, in_rev, list_elem_of_In in Hx.
  by apply lstrip_subset.
Qed.

(** On a string without newline the separator pattern matches exactly the
    strings made of one run of five or more characters. *)
Lemma re_match_separator_runs s :
  no_newline s -> re_match_separator s = sep_runs (runs s).
Proof.
  intros Hs. pose proof (normal_runs s) as Hn.
  pose proof (runs_no_newline_of s Hs) as Hnl.
  rewrite <- (expand_runs s) at 1.
  destruct (runs s) as [|[c k] rs]; [done|].
  destruct Hn as (Hk & Hne & Hrs). destruct k as [|k]; [lia|].
  inversion Hnl as [|? ? Hc Hnl']; subst. simpl in Hc.
  rewrite expand_cons. simpl repeat. cbn [app re_match_separator].
  destruct (N.eqb_spec c NL) as [|_]; [done|]. cbn [negb andb].
  destruct rs as [|[d j] rs'].
  - simpl expand. rewrite app_nil_r.
    pose proof (run_length_repeat c k [] (fun H => H)) as Hr.
    rewrite app_nil_r in Hr. rewrite Hr.
    rewrite drop_ge by (by rewrite repeat_length).
    simpl. by rewrite andb_true_r.
  - destruct Hrs as (Hj & _). destruct j as [|j]; [lia|].
    inversion Hnl' as [|? ? Hd _]; subst. simpl in Hd.
    rewrite run_length_repeat by (simpl; congruence).
    rewrite drop_app_length'  by (by rewrite repeat_length).
    rewrite expand_cons. simpl.
    destruct (repeat d j ++ expand rs') as [|x xs] eqn:E.
    + destruct (N.eqb_spec d NL); [done|]. by rewrite andb_false_r.
    + by rewrite andb_false_r.
Qed.

Lemma lstrip_runs_cap n rs : lstrip_runs (cap n <$> rs) = cap n <$> lstrip_runs rs.
Proof.
  induction rs as [|[c k] rs IH]; [done|].
  rewrite fmap_cons. simpl. destruct (isspace c); [done|]. by rewrite fmap_cons.
Qed.

Lemma strip_runs_cap n rs : strip_runs (cap n <$> rs) = cap n <$> strip_runs rs.
Proof.
  unfold strip_runs.
  change (cap n <$> ?l) with (map (cap n) l).
  rewrite map_rev. change (map (cap n) ?l) with (cap n <$> l).
  rewrite <- lstrip_runs_cap.
  change (cap n <$> ?l) with (map (cap n) l).
  rewrite map_rev. change (map (cap n) ?l) with (cap n <$> l).
  by rewrite <- lstrip_runs_cap.
Qed.

Lemma sep_runs_cap n rs : sep_runs (cap n <$> rs) = true -> sep_runs rs = true.
Proof.
  destruct rs as [|[c k] [|r rs]]; [done| |done].
  unfold sep_runs, cap. cbn [fmap list_fmap fst snd].
  intros H%Nat.leb_le. apply Nat.leb_le. lia.
Qed.

(** The substitution never turns a line into a separator line. *)
Lemma is_separator_line_collapse n s :
  no_newline s ->
  is_separator_line (collapse_runs n s) = true -> is_separator_line s = true.
Proof.
  intros Hs. unfold is_separator_line.
  destruct n as [|n].
  - rewrite collapse_runs_cap, expand_cap_0 by done. done.
  - rewrite !re_match_separator_runs
      by (apply strip_no_newline; [by apply collapse_runs_no_newline || done]).
    rewrite !runs_strip, runs_collapse by (done || lia).
    rewrite strip_runs_cap. apply sep_runs_cap.
Qed.

(** ** The lines kept by [remove_repetition] *)

Lemma kept_lines_no_newline n prev count lines :
  Forall no_newline lines -> Forall no_newline (kept_lines n prev count lines).
Proof.
  intros Hall. revert prev count.
  induction Hall as [|line rest Hl _ IH]; intros prev count; simpl; [constructor|].
  destruct (is_separator_line line); [apply IH|].
  destruct (decide (prev = Some (collapse_runs n line))).
  - destruct (n <? S count); [apply IH|].
    constructor; [by apply collapse_runs_no_newline|apply IH].
  - constructor; [by apply collapse_runs_no_newline|apply IH].
Qed.

Lemma kept_lines_length n prev count lines :
  length (kept_lines n prev count lines) <= length lines.
Proof.
  revert prev count. induction lines as [|line rest IH]; intros prev count; simpl; [lia|].
  destruct (is_separator_line line); [pose proof (IH prev count); lia|].
  destruct (decide (prev = Some (collapse_runs n line))).
  - destruct (n <? S count); simpl; pose proof (IH prev (S count)); lia.
  - simpl. pose proof (IH (Some (collapse_runs n line)) 1). lia.
Qed.

Lemma kept_lines_derived n prev count lines :
  derived_lines n lines (kept_lines n prev count lines).
Proof.
  revert prev count. induction lines as [|line rest IH]; intros prev count; simpl.
  - constructor.
  - destruct (is_separator_line line); [by constructor|].
    destruct (decide (prev = Some (collapse_runs n line))).
    + destruct (n <? S count); by constructor.
    + by constructor.
Qed.

(** A second pass of the loop over its own output keeps every line, when
    it starts with the same [prev_line] and a count that is not larger. *)
Lemma kept_lines_idem n prev c1 c2 lines :
  c2 <= c1 -> Forall no_newline lines ->
  kept_lines n prev c2 (kept_lines n prev c1 lines) = kept_lines n prev c1 lines.
Proof.
  intros Hc Hall. revert prev c1 c2 Hc.
  induction Hall as [|line rest Hl _ IH]; intros prev c1 c2 Hc; [done|].
  cbn [kept_lines].
  destruct (is_separator_line line) eqn:Hsep; [by apply IH|].
  assert (is_separator_line (collapse_runs n line) = false) as Hsep'.
  { destruct (is_separator_line (collapse_runs n line)) eqn:E; [|done].
    apply is_separator_line_collapse in E; [congruence|done]. }
  destruct (decide (prev = Some (collapse_runs n line))) as [Heq|Hne].
  - destruct (Nat.ltb_spec n (S c1)) as [Hlt|Hge]; [apply IH; lia|].
    cbn [kept_lines]. rewrite Hsep', collapse_runs_idem by done.
    rewrite decide_True by done.
    destruct (Nat.ltb_spec n (S c2)) as [Hlt'|_]; [lia|].
    f_equal. apply IH. lia.
  - cbn [kept_lines]. rewrite Hsep', collapse_runs_idem by done.
    rewrite decide_False by done.
    f_equal. by apply IH.
Qed.

Lemma kept_lines_separator n prev count pre line post :
  is_separator_line line = true ->
  kept_lines n prev count (pre ++ line :: post)
  = kept_lines n prev count (pre ++ post).
Proof.
  intros Hsep. revert prev count.
  induction pre as [|l pre IH]; intros prev count; simpl.
  - by rewrite Hsep.
  - destruct (is_separator_line l); [apply IH|].
    destruct (decide (prev = Some (collapse_runs n l))).
    + destruct (n <? S count); [apply IH|]. f_equal. apply IH.
    + f_equal. apply IH.
Qed.

Lemma kept_lines_unchanged n prev count lines :
  Forall no_newline lines ->
  Forall (fun l => is_separator_line l = false) lines ->
  Forall (fun l => longest_run l <= n) lines ->
  adjacent_distinct lines ->
  prev <> head lines ->
  kept_lines n prev count lines = lines.
Proof.
  intros Hnl. revert prev count.
  induction Hnl as [|line rest Hl _ IH]; intros prev count Hsep Hrun Hadj Hprev; [done|].
  inversion Hsep as [|? ? Hs Hsep']; subst.
  inversion Hrun as [|? ? Hr Hrun']; subst.
  simpl. rewrite Hs, collapse_runs_id by done.
  rewrite decide_False by done.
  f_equal. apply IH; [done|done| |].
  - intros i l Hi. apply (Hadj (S i) l Hi).
  - intros Heq. apply (Hadj 0 line); [done|]. simpl.
    by destruct rest; simplify_eq/=.
Qed.

Lemma kept_lines_repeat_from n line count m :
  is_separator_line line = false ->
  kept_lines n (Some (collapse_runs n line)) count (repeat line m)
  = repeat (collapse_runs n line) (Nat.min m (n - count)).
Proof.
  intros Hsep. revert count. induction m as [|m IH]; intros count; [done|].
  simpl repeat. cbn [kept_lines]. rewrite Hsep, decide_True by done.
  destruct (Nat.ltb_spec n (S count)) as [Hlt|Hge].
  - rewrite IH. replace (n - count) with 0 by lia.
    replace (n - S count) with 0 by lia. by rewrite !Nat.min_0_r.
  - rewrite IH. replace (n - count) with (S (n - S count)) by lia.
    reflexivity.
Qed.

(** [m] copies of a line in a row: [max_consecutive] of them are kept (the
    first one always is). *)
Lemma kept_lines_repeat n line m :
  is_separator_line line = false ->
  kept_lines n None 0 (repeat line (S m))
  = repeat (collapse_runs n line) (S (Nat.min m (n - 1))).
Proof.
  intros Hsep. simpl repeat. cbn [kept_lines].
  rewrite Hsep, decide_False by done.
  by rewrite kept_lines_repeat_from.
Qed.

(** ** [remove_repetition]: the text cleaner *)

Example str_of_nat_12 : str_of_nat 12 = py "12".
Proof. reflexivity. Qed.

Example split_nl_trailing : split_nl (py "a" ++ [NL]) = [py "a"; []].
Proof. reflexivity. Qed.

Example strip_mixed : strip ([TAB] ++ py "  ----- " ++ [160%N]) = py "-----".
Proof. reflexivity. Qed.

Example separator_dashes : is_separator_line (py "  =====") = true.
Proof. reflexivity. Qed.

Example separator_four : is_separator_line (py "----") = false.
Proof. reflexivity. Qed.

Example separator_mixed : is_separator_line (py "-----=") = false.
Proof. reflexivity. Qed.

Example collapse_sample : collapse_runs 2 (py "aaabbbbcc") = py "aabbcc".
Proof. reflexivity. Qed.

(** The example of the docstring: ["Patient\n" * 50 + "has diabetes"]. *)
Example remove_repetition_docstring :
  remove_repetition (concat (repeat (py "Patient" ++ [NL]) 50) ++ py "has diabetes") 20
  = concat (repeat (py "Patient" ++ [NL]) 20) ++ py "has diabetes".
Proof. vm_compute. reflexivity. Qed.

Lemma remove_repetition_lines n lines :
  Forall no_newline lines ->
  remove_repetition (join_nl lines) n = join_nl (kept_lines n None 0 lines).
Proof.
  intros Hall. rewrite remove_repetition_kept.
  destruct lines as [|l ls]; [done|].
  by rewrite split_join.
Qed.

Lemma length_split_join lines :
  Forall no_newline lines -> length (split_nl (join_nl lines)) = Nat.max 1 (length lines).
Proof.
  intros Hall. destruct lines as [|l ls]; [done|].
  rewrite split_join by done. simpl. lia.
Qed.

(** On repetition counts from 0 to below [MAXREPEAT] the cleaner for every
    [int] is the cleaner for repetition counts. *)
Lemma fold_loop_body_int (max_consecutive : Z) lines st :
  (0 <= max_consecutive < MAXREPEAT)%Z ->
  fold_left (loop_body_int max_consecutive) lines (Some st)
  = Some (fold_left (loop_body (Z.to_nat max_consecutive)) lines st).
Proof.
  intros Hm. revert st. induction lines as [|line lines IH]; intros st; [done|].
  cbn [fold_left]. rewrite <- IH. f_equal.
  unfold loop_body_int, loop_body. cbn [mbind option_bind].
  destruct (is_separator_line line); [done|].
  unfold re_sub_repetition.
  destruct (Z.ltb_spec max_consecutive 0); [lia|].
  destruct (Z.ltb_spec max_consecutive MAXREPEAT); [|lia].
  cbn [mbind option_bind].
  destruct (decide (prev_line st = Some _)); [|done].
  destruct (Z.ltb_spec max_consecutive (Z.of_nat (S (line_count st))));
    destruct (Nat.ltb_spec (Z.to_nat max_consecutive) (S (line_count st)));
    (done || lia).
Qed.

Lemma remove_repetition_int_count (text : pystr) (max_consecutive : Z) :
  (0 <= max_consecutive < MAXREPEAT)%Z ->
  remove_repetition_int text max_consecutive
  = Some (remove_repetition text (Z.to_nat max_consecutive)).
Proof.
  intros Hm. unfold remove_repetition_int, remove_repetition.
  by rewrite fold_loop_body_int.
Qed.

Lemma remove_repetition_twice (text : pystr) (n : nat) :
  remove_repetition (remove_repetition text n) n = remove_repetition text n.
Proof.
  rewrite (remove_repetition_kept text).
  pose proof (split_nl_no_newline text) as Hnl.
  rewrite remove_repetition_lines by by apply kept_lines_no_newline.
  by rewrite kept_lines_idem.
Qed.

(** C6 (amended). For every repetition count from 0 to below the limit of
    the regular expression engine, the text cleaner returns and is
    idempotent: cleaning the cleaned text with the same [max_consecutive]
    gives the cleaned text again, for every input text. *)
Theorem remove_repetition_idempotent (text : pystr) (max_consecutive : Z) :
  (0 <= max_consecutive < MAXREPEAT)%Z ->
  exists cleaned,
    remove_repetition_int text max_consecutive = Some cleaned /\
    remove_repetition_int cleaned max_consecutive = Some cleaned.
Proof.
  intros Hm. exists (remove_repetition text (Z.to_nat max_consecutive)).
  rewrite !remove_repetition_int_count by done.
  by rewrite remove_repetition_twice.
Qed.

Lemma remove_repetition_idempotent_witness :
  exists cleaned,
    remove_repetition_int
      (py "x" ++ a50 ++ [NL] ++ py "=====" ++ [NL] ++ py "y") 20
    = Some cleaned /\
    remove_repetition_int cleaned 20 = Some cleaned.
Proof.
  apply (remove_repetition_idempotent
           (py "x" ++ a50 ++ [NL] ++ py "=====" ++ [NL] ++ py "y") 20).
  unfold MAXREPEAT. lia.
Defined.

(** C6 (as stated) fails for a negative [max_consecutive]: with [-1] the
    braces of the pattern are literal text and the replacement is empty, so
    a first pass turns ["aaaa{-1,}{-1,}"] into ["aa{-1,}"] and a second
    pass turns that into the empty string. *)
Lemma remove_repetition_negative_not_idempotent :
  remove_repetition_int (py "aaaa{-1,}{-1,}") (-1) = Some (py "aa{-1,}") /\
  remove_repetition_int (py "aa{-1,}") (-1) = Some [] /\
  remove_repetition_int (py "aa{-1,}") (-1) <> Some (py "aa{-1,}").
Proof. repeat split; vm_compute; (reflexivity || discriminate). Qed.

(** The limit of the engine from both sides: just below it the cleaner
    returns; at the limit it raises as soon as a line reaches the
    substitution, which the cleaned text of a separator line does. *)
Example remove_repetition_at_limit :
  remove_repetition_int [] 4294967294 = Some [] /\
  remove_repetition_int (py "-----") 4294967295 = Some [] /\
  remove_repetition_int [] 4294967295 = None.
Proof.
  split; [|split; reflexivity].
  rewrite remove_repetition_int_count by (unfold MAXREPEAT; lia).
  reflexivity.
Qed.

(** C5 (as stated) fails: cleaning ["a"*50] with [max_consecutive = 20] does
    not give twenty ['a'] characters. *)
Lemma remove_repetition_a50_not_20 :
  remove_repetition a50 20 <> repeat char_a 20.
Proof. vm_compute. discriminate. Qed.

(** C5 (amended).  The line ["a"*50] is one character repeated five or
    more times, so it is dropped as a separator line before runs are
    collapsed: the result is the empty string. *)
Theorem remove_repetition_a50 : remove_repetition a50 20 = [].
Proof. vm_compute. reflexivity. Qed.

(** After another character the same run is no separator line and is cut
    down to 20. *)
Example remove_repetition_x_a50 :
  remove_repetition (py "x" ++ a50) 20 = py "x" ++ repeat char_a 20.
Proof. vm_compute. reflexivity. Qed.

(** ** C9: separator lines, repeated lines, clean input *)

Lemma runs_within_mono n prev c c' out :
  c <= c' -> runs_within n prev c' out -> runs_within n prev c out.
Proof.
  revert prev c c'. induction out as [|l out IH]; intros prev c c' Hc; [done|].
  simpl. destruct (decide (prev = Some l)); [|done].
  intros [Hle Hrest]. split; [lia|]. apply (IH _ (S c) (S c')); [lia|done].
Qed.

Lemma kept_lines_runs_within n prev count lines :
  runs_within n prev count (kept_lines n prev count lines).
Proof.
  revert prev count. induction lines as [|line rest IH]; intros prev count; [done|].
  cbn [kept_lines]. destruct (is_separator_line line); [apply IH|].
  destruct (decide (prev = Some (collapse_runs n line))) as [Heq|Hne].
  - destruct (Nat.ltb_spec n (S count)) as [Hlt|Hge].
    + apply (runs_within_mono n prev count (S count)); [lia|apply IH].
    + cbn [runs_within]. rewrite decide_True by done. split; [done|apply IH].
  - cbn [runs_within]. rewrite decide_False by done. apply IH.
Qed.

Lemma runs_within_repeat n l c k post :
  runs_within n (Some l) c (repeat l k ++ post) -> c + k <= n \/ k = 0.
Proof.
  revert c. induction k as [|k IH]; intros c; [by right|].
  simpl. rewrite decide_True by done. intros [Hle Hrest].
  destruct (IH _ Hrest) as [H|H]; left; lia.
Qed.

(** No line occurs more than [n] times in a row among the lines of a run
    bounded list (for [n >= 1]). *)
Lemma runs_within_no_long_run n prev count out pre l post :
  1 <= n -> runs_within n prev count out ->
  out <> pre ++ repeat l (S n) ++ post.
Proof.
  intros Hn. revert prev count out.
  induction pre as [|x pre IH]; intros prev count out Hout ->.
  - simpl in Hout. destruct (decide (prev = Some l)) as [->|Hne].
    + destruct Hout as [Hle Hrest].
      apply runs_within_repeat in Hrest as [H|H]; lia.
    + apply runs_within_repeat in Hout as [H|H]; lia.
  - simpl in Hout. destruct (decide (prev = Some x)).
    + destruct Hout as [_ Hrest]. by apply (IH _ _ _ Hrest).
    + by apply (IH _ _ _ Hout).
Qed.

(** The cleaned text never has more than [max_consecutive] equal lines in a
    row (for [max_consecutive >= 1]). *)
Lemma remove_repetition_no_long_run text n pre l post :
  1 <= n ->
  split_nl (remove_repetition text n) <> pre ++ repeat l (S n) ++ post.
Proof.
  intros Hn. rewrite remove_repetition_kept.
  pose proof (kept_lines_runs_within n None 0 (split_nl text)) as Hrun.
  pose proof (kept_lines_no_newline n None 0 (split_nl text)
                (split_nl_no_newline text)) as Hnl.
  destruct (kept_lines n None 0 (split_nl text)) as [|k ks] eqn:E.
  - simpl. destruct pre as [|x [|y pre]]; simpl; try done.
    destruct n; [lia|]. done.
  - rewrite split_join by done.
    by apply (runs_within_no_long_run n None 0).
Qed.

Lemma lstrip_spaces w x :
  Forall (fun c => isspace c = true) w -> lstrip (w ++ x) = lstrip x.
Proof. induction 1 as [|c w Hc _ IH]; simpl; [done|]. by rewrite Hc. Qed.

Lemma lstrip_nonspace c x : isspace c = false -> lstrip (c :: x) = c :: x.
Proof. intros Hc. simpl. by rewrite Hc. Qed.

Lemma strip_padded_run c k w1 w2 :
  isspace c = false -> 0 < k ->
  Forall (fun c => isspace c = true) w1 ->
  Forall (fun c => isspace c = true) w2 ->
  strip (w1 ++ repeat c k ++ w2) = repeat c k.
Proof.
  intros Hc Hk H1 H2. unfold strip, rstrip.
  rewrite lstrip_spaces by done.
  destruct k as [|k]; [lia|].
  change (repeat c (S k) ++ w2) with (c :: (repeat c k ++ w2)).
  rewrite lstrip_nonspace by done.
  change (c :: repeat c k ++ w2) with (repeat c (S k) ++ w2).
  rewrite rev_app_distr, lstrip_spaces, rev_repeat_same.
  - simpl. rewrite Hc. apply (rev_repeat_same c (S k)).
  - apply Forall_forall. intros x Hx.
    apply list_elem_of_In, in_rev, list_elem_of_In in Hx.
    by apply (proj1 (Forall_forall _ _) H2).
Qed.

Lemma re_match_separator_repeat c k :
  c <> NL -> 5 <= k -> re_match_separator (repeat c k) = true.
Proof.
  intros Hc Hk. destruct k as [|k]; [lia|]. cbn [repeat re_match_separator].
  destruct (N.eqb_spec c NL); [done|].
  pose proof (run_length_repeat c k [] (fun H => H)) as Hr.
  rewrite app_nil_r in Hr. rewrite Hr.
  rewrite drop_ge by (by rewrite repeat_length).
  cbn [negb andb]. rewrite andb_true_r. apply Nat.leb_le. lia.
Qed.

(** A run of five or more copies of a character that is no whitespace,
    with whitespace around it or not, is a separator line. *)
Lemma padded_run_is_separator c k w1 w2 :
  isspace c = false -> 5 <= k ->
  Forall (fun c => isspace c = true) w1 ->
  Forall (fun c => isspace c = true) w2 ->
  is_separator_line (w1 ++ repeat c k ++ w2) = true.
Proof.
  intros Hc Hk H1 H2. unfold is_separator_line.
  rewrite strip_padded_run by (done || lia).
  apply re_match_separator_repeat; [|done].
  intros ->. done.
Qed.

(** C9 (as stated) fails: a line of five spaces is one character repeated
    five times with nothing else, and the cleaner keeps it. *)
Lemma remove_repetition_keeps_blank_run :
  remove_repetition (repeat 32%N 5) 20 = repeat 32%N 5.
Proof. vm_compute. reflexivity. Qed.

(** C9 (amended), for [max_consecutive = 20].
    (1) A line that is one non-whitespace character repeated five or more
        times, with or without whitespace around it, is removed: the text
        is cleaned as if the line were not there.
    (2) A line repeated 50 times in a row is kept 20 times (with its
        character runs cut down), or not at all when it is a separator
        line; and no cleaned text has 21 equal lines in a row.
    (3) A text with no separator line, no character run over 20 and no two
        equal neighbouring lines is returned unchanged. *)
Theorem remove_repetition_behaviour :
  (forall c k w1 w2 pre post,
      isspace c = false -> 5 <= k ->
      Forall (fun c => isspace c = true) w1 ->
      Forall (fun c => isspace c = true) w2 ->
      Forall no_newline (pre ++ (w1 ++ repeat c k ++ w2) :: post) ->
      remove_repetition (join_nl (pre ++ (w1 ++ repeat c k ++ w2) :: post)) 20
      = remove_repetition (join_nl (pre ++ post)) 20) /\
  (forall line,
      no_newline line ->
      remove_repetition (join_nl (repeat line 50)) 20
      = join_nl (repeat (collapse_runs 20 line)
                        (if is_separator_line line then 0 else 20))) /\
  (forall text pre l post,
      split_nl (remove_repetition text 20) <> pre ++ repeat l 21 ++ post) /\
  (forall text,
      Forall (fun l => is_separator_line l = false) (split_nl text) ->
      Forall (fun l => longest_run l <= 20) (split_nl text) ->
      adjacent_distinct (split_nl text) ->
      remove_repetition text 20 = text).
Proof.
  split; [|split; [|split]].
  - intros c k w1 w2 pre post Hc Hk H1 H2 Hnl.
    assert (Forall no_newline (pre ++ post)) as Hnl'.
    { apply Forall_app in Hnl as [Hpre Hpost]. apply Forall_app. split; [done|].
      by inversion Hpost. }
    rewrite (remove_repetition_lines 20 _ Hnl), (remove_repetition_lines 20 _ Hnl').
    f_equal. apply kept_lines_separator. by apply padded_run_is_separator.
  - intros line Hl.
    rewrite remove_repetition_lines by (apply Forall_forall; intros x Hx;
      apply list_elem_of_In, repeat_spec in Hx; by subst).
    f_equal. destruct (is_separator_line line) eqn:Hsep.
    + clear Hl. generalize 50. intros m. induction m as [|m IH]; [done|].
      simpl. by rewrite Hsep.
    + by rewrite (kept_lines_repeat 20 line 49).
  - intros text pre l post. apply remove_repetition_no_long_run. lia.
  - intros text Hsep Hrun Hadj.
    rewrite remove_repetition_kept, kept_lines_unchanged;
      [apply join_split | apply split_nl_no_newline | done | done | done
      | pose proof (split_nl_nonempty text); by destruct (split_nl text)].
Qed.

(** A literal line contains no newline. *)
Ltac literal_no_newline :=
  vm_compute; intros H;
  repeat (apply elem_of_cons in H as [H|H]; [discriminate|]);
  by apply elem_of_nil in H.

(** The three parts on a sample: a padded separator line between two lines
    of text, fifty lines ["Patient"], and a single clean line. *)
Lemma remove_repetition_behaviour_witness :
  remove_repetition sample_text 20
    = remove_repetition (join_nl [py "Patient: Ana"; py "has diabetes"]) 20
  /\ remove_repetition (join_nl (repeat (py "Patient") 50)) 20
     = join_nl (repeat (py "Patient") 20)
  /\ remove_repetition (py "has diabetes") 20 = py "has diabetes".
Proof.
  destruct remove_repetition_behaviour as (H1 & H2 & _ & H3).
  split; [|split].
  - apply (H1 45%N 5 (py "  ") (py " ") [py "Patient: Ana"] [py "has diabetes"]).
    + reflexivity.
    + lia.
    + repeat constructor.
    + repeat constructor.
    + repeat constructor; literal_no_newline.
  - apply (H2 (py "Patient")). literal_no_newline.
  - apply (H3 (py "has diabetes")).
    + repeat constructor.
    + repeat constructor; vm_compute; lia.
    + intros i l Hi. destruct i; simpl in *; [done|]. simplify_eq.
Defined.

(** C10. The cleaner never adds content.  The lines it joins are obtained
    from the lines of the input by deleting lines and applying the run
    substitution to the lines that stay; the substitution only deletes
    characters, so a kept line is at most as long as the line it comes
    from; and the output has at most as many lines as the input. *)
Theorem remove_repetition_never_adds (text : pystr) (max_consecutive : nat) :
  (exists out,
      remove_repetition text max_consecutive = join_nl out /\
      derived_lines max_consecutive (split_nl text) out) /\
  (forall line,
      length (collapse_runs max_consecutive line) <= length line) /\
  Forall (fun line => collapse_runs max_consecutive line `sublist_of` line)
         (split_nl text) /\
  length (split_nl (remove_repetition text max_consecutive))
  <= length (split_nl text).
Proof.
  split; [|split; [|split]].
  - exists (kept_lines max_consecutive None 0 (split_nl text)).
    split; [apply remove_repetition_kept|apply kept_lines_derived].
  - intros line. apply collapse_runs_length.
  - eapply Forall_impl; [apply split_nl_no_newline|].
    intros line Hl. by apply collapse_runs_sublist.
  - rewrite remove_repetition_kept, length_split_join
      by apply kept_lines_no_newline, split_nl_no_newline.
    pose proof (kept_lines_length max_consecutive None 0 (split_nl text)).
    pose proof (split_nl_nonempty text).
    destruct (split_nl text); [done|]. simpl in *. lia.
Qed.

(** ** [retry_gemini_async] *)

Section RetryFacts.
Context {V E : Type}.
Variable generate_fn : nat -> V + E.
Variable err : nat -> E.
Hypothesis always_fails : forall k, generate_fn k = inr (err k).

(** Attempts numbered from [a]: when no attempt has the number
    [retries - 1], every failure is logged and skipped, the loop runs to
    its end and the function returns [None]. *)
Lemma retry_loop_falls_through retries (items : list Z) a calls slept :
  (forall i, i < length items -> Z.of_nat (a + i) <> (retries - 1)%Z) ->
  let r := retry_loop generate_fn retries
             (imap (fun i x => (a + i, x)) items) calls slept in
  outcome r = ReturnedNone /\ invocations r = calls + length items.
Proof.
  revert a calls slept. induction items as [|d items IH]; intros a calls slept Hne.
  - simpl. split; [done|lia].
  - cbn [imap retry_loop]. rewrite always_fails.
    destruct (Z.eqb_spec (Z.of_nat (a + 0)) (retries - 1)) as [Heq|_].
    { exfalso. apply (Hne 0); [simpl; lia|done]. }
    rewrite (imap_ext _ (fun i x => (S a + i, x))); last first.
    { intros i x _. simpl. f_equal. lia. }
    destruct (IH (S a) (S calls) (if (0 <? d)%Z then slept ++ [d] else slept))
      as [H1 H2].
    { intros i Hi. replace (S a + i) with (a + S i) by lia. apply Hne. simpl. lia. }
    split; [done|]. rewrite H2. simpl. lia.
Qed.

(** When attempt number [retries - 1] is among the attempts, it is the
    last one made, and its error is raised. *)
Lemma retry_loop_raises retries (items : list Z) a calls slept j :
  j < length items -> Z.of_nat (a + j) = (retries - 1)%Z ->
  let r := retry_loop generate_fn retries
             (imap (fun i x => (a + i, x)) items) calls slept in
  outcome r = Raised (err (calls + j)) /\ invocations r = calls + j + 1.
Proof.
  revert a calls slept j.
  induction items as [|d items IH]; intros a calls slept j Hj Hlast.
  - simpl in Hj. lia.
  - cbn [imap retry_loop]. rewrite always_fails.
    destruct (Z.eqb_spec (Z.of_nat (a + 0)) (retries - 1)) as [Heq|Hne].
    + assert (j = 0) as -> by lia. simpl.
      rewrite Nat.add_0_r. split; [done|lia].
    + destruct j as [|j]; [done|].
      rewrite (imap_ext _ (fun i x => (S a + i, x))); last first.
      { intros i x _. simpl. f_equal. lia. }
      destruct (IH (S a) (S calls) (if (0 <? d)%Z then slept ++ [d] else slept) j)
        as [H1 H2]; [simpl in Hj; lia|lia|].
      rewrite H1, H2. split; [f_equal; f_equal; lia|lia].
Qed.

(** With [1 <= retries <= len(delays)] and an operation that always
    fails, the operation is invoked exactly [retries] times and the error
    of the last invocation is raised. *)
Lemma retry_exhausted (retries : Z) (delays : list Z) :
  (1 <= retries <= Z.of_nat (length delays))%Z ->
  let r := retry_gemini_async generate_fn retries delays in
  outcome r = Raised (err (Z.to_nat retries - 1)) /\
  invocations r = Z.to_nat retries.
Proof.
  intros Hr. unfold retry_gemini_async, enumerate, py_slice_to.
  destruct (Z.ltb_spec retries 0) as [Hneg|_]; [lia|].
  destruct (retry_loop_raises retries (take (Z.to_nat retries) delays) 0 0 []
              (Z.to_nat retries - 1)) as [H1 H2].
  - rewrite length_take. lia.
  - lia.
  - simpl in H1, H2. split; [done|]. rewrite H2. lia.
Qed.

(** With [retries > len(delays)] and an operation that always fails, the
    attempts are capped at [len(delays)], and after the last one the
    function returns [None]: the error is logged, not raised. *)
Lemma retry_beyond_schedule (retries : Z) (delays : list Z) :
  (Z.of_nat (length delays) < retries)%Z ->
  let r := retry_gemini_async generate_fn retries delays in
  outcome r = ReturnedNone /\ invocations r = length delays.
Proof.
  intros Hr. unfold retry_gemini_async, enumerate, py_slice_to.
  destruct (Z.ltb_spec retries 0) as [Hneg|_]; [lia|].
  rewrite take_ge by lia.
  destruct (retry_loop_falls_through retries delays 0 0 []) as [H1 H2].
  - intros i Hi. lia.
  - simpl in H1, H2. done.
Qed.
End RetryFacts.

(** C3. With the default arguments ([retries = 3], delays [0, 60, 180]):
    an operation that fails on its first two invocations and succeeds on
    the third makes [retry_gemini_async] return that result after exactly
    3 invocations; an operation that fails every time makes it raise the
    error of the last invocation after exactly [retries] invocations. *)
Theorem retry_default_schedule {V E : Type} (generate_fn : nat -> V + E) :
  (forall e0 e1 v,
      generate_fn 0 = inr e0 -> generate_fn 1 = inr e1 -> generate_fn 2 = inl v ->
      let r := retry_gemini_async generate_fn default_retries default_delays in
      outcome r = Returned v /\ invocations r = 3) /\
  (forall err : nat -> E,
      (forall k, generate_fn k = inr (err k)) ->
      let r := retry_gemini_async generate_fn default_retries default_delays in
      outcome r = Raised (err 2) /\ invocations r = Z.to_nat default_retries).
Proof.
  split.
  - intros e0 e1 v H0 H1 H2. unfold retry_gemini_async. simpl.
    rewrite H0. simpl. rewrite H1. simpl. rewrite H2. done.
  - intros err Hfail.
    apply (retry_exhausted generate_fn err Hfail default_retries default_delays).
    simpl. unfold default_retries. lia.
Qed.

(** Both parts on the sample operations. *)
Lemma retry_default_schedule_witness :
  (let r := retry_gemini_async flaky_twice default_retries default_delays in
   outcome r = Returned 42 /\ invocations r = 3) /\
  (let r := retry_gemini_async always_failing default_retries default_delays in
   outcome r = Raised 2 /\ invocations r = 3).
Proof.
  split.
  - apply (proj1 (retry_default_schedule flaky_twice) 0 1 42); reflexivity.
  - apply (proj2 (retry_default_schedule always_failing) (fun k => k)).
    intros k. reflexivity.
Defined.

(** C4 at [retries = 4] with the default delays and an operation that
    always fails: three attempts are made (the cap [len(delays)]), then the
    function returns [None] and no error reaches the caller. *)
Theorem retry_four_swallows_error :
  let r := retry_gemini_async always_failing 4 default_delays in
  outcome r = ReturnedNone /\ invocations r = 3 /\ sleeps r = [60; 180]%Z.
Proof. vm_compute. done. Qed.

(** ** [asyncio.gather] *)

Lemma gather_fold_lookup {A} (results : list A) completion slots i :
  length slots = length results ->
  fold_left (fun slots i =>
               match results !! i with
               | Some r => <[i := Some r]> slots
               | None => slots
               end) completion slots !! i
  = if decide (i ∈ completion) then Some <$> results !! i else slots !! i.
Proof.
  revert slots. induction completion as [|j completion IH]; intros slots Hlen.
  - cbn [fold_left].
    destruct (decide (i ∈ [])) as [Hin|_]; [by apply elem_of_nil in Hin|done].
  - cbn [fold_left]. rewrite IH; last first.
    { destruct (results !! j); [by rewrite length_insert|done]. }
    destruct (decide (i ∈ completion)) as [Hin|Hnin].
    + rewrite decide_True by (by right). done.
    + destruct (decide (i = j)) as [->|Hij].
      * rewrite decide_True by left.
        destruct (results !! j) as [r|] eqn:Hr; simpl.
        -- apply list_lookup_insert_eq. rewrite Hlen. by eapply lookup_lt_Some.
        -- apply lookup_ge_None. rewrite Hlen. by apply lookup_ge_None.
      * rewrite decide_False by (intros [?|?]%elem_of_cons; done).
        destruct (results !! j); [by rewrite list_lookup_insert_ne|done].
Qed.

Lemma mapM_id_Some {A} (l : list A) : mapM id (Some <$> l) = Some l.
Proof.
  induction l as [|x l IH]; [done|].
  rewrite fmap_cons. cbn [mapM]. rewrite IH. done.
Qed.

(** When every task finishes, in whatever order, the awaited list holds
    the results in task order. *)
Lemma gather_all_finish {A} (results : list A) completion :
  (forall i, i < length results -> i ∈ completion) ->
  gather results completion = Some results.
Proof.
  intros Hall. unfold gather.
  replace (gather_slots results completion) with (Some <$> results);
    [apply mapM_id_Some|].
  apply list_eq. intros i. unfold gather_slots.
  rewrite gather_fold_lookup by by rewrite length_replicate.
  rewrite list_lookup_fmap.
  destruct (decide (i ∈ completion)) as [Hin|Hnin]; [done|].
  destruct (decide (i < length results)) as [Hlt|Hge]; [by apply Hall in Hlt|].
  rewrite (proj2 (lookup_ge_None results i)) by lia.
  symmetry. apply lookup_ge_None. rewrite length_replicate. lia.
Qed.

Lemma gather_permutation {A} (results : list A) completion :
  Permutation completion (seq 0 (length results)) ->
  gather results completion = Some results.
Proof.
  intros Hperm. apply gather_all_finish. intros i Hi.
  rewrite Hperm. apply list_elem_of_In, in_seq. lia.
Qed.

(** ** [extract_from_pdf] *)

Section PdfFacts.
Context {Path Image Exn : Type}.
Variable w : World Path Image Exn.

Lemma fold_combine_page (results : list (pystr + Exn)) a acc :
  fold_left combine_page (imap (fun i x => (a + i, x)) results) acc
  = acc ++ concat (imap (fun i x => page_segment (a + i) x) results).
Proof.
  revert a acc. induction results as [|r results IH]; intros a acc.
  - simpl. by rewrite app_nil_r.
  - cbn [imap fold_left concat].
    rewrite (imap_ext _ (fun i x => (S a + i, x)))
      by (intros i x _; simpl; f_equal; lia).
    rewrite IH.
    rewrite (imap_ext (fun i x => page_segment (S a + i) x)
                      ((fun i x => page_segment (a + i) x) ∘ S))
      by (intros i x _; simpl; f_equal; lia).
    destruct r as [text|e]; simpl; by rewrite <- app_assoc.
Qed.

Lemma extract_from_pdf_pages pdf_path images :
  convert_from_path w pdf_path CONVERSION_DPI = inl images ->
  Permutation (page_completion w pdf_path) (seq 0 (length images)) ->
  extract_from_pdf w pdf_path
  = Some (PdfRun (pdf_pages_text w images) [CONVERSION_DPI]).
Proof.
  intros Hconv Hperm. unfold extract_from_pdf. rewrite Hconv.
  rewrite gather_permutation; last first.
  { unfold enumerate. by rewrite length_fmap, length_imap. }
  simpl. f_equal. f_equal. unfold enumerate, pdf_pages_text.
  rewrite (fold_combine_page _ 0 []). simpl. f_equal.
  apply list_eq. intros i.
  rewrite !list_lookup_imap, list_lookup_fmap, list_lookup_imap.
  by destruct (images !! i).
Qed.

(** When rasterisation at [CONVERSION_DPI] raises, the extractor returns
    the empty text after that single call of the rasteriser. *)
Lemma extract_from_pdf_raster_failure pdf_path e :
  convert_from_path w pdf_path CONVERSION_DPI = inr e ->
  extract_from_pdf w pdf_path = Some (PdfRun [] [CONVERSION_DPI]).
Proof. intros Hconv. unfold extract_from_pdf. by rewrite Hconv. Qed.
End PdfFacts.

(** On page calls that return or raise an [Exception], the loop on page
    results is the loop of [extract_from_pdf] above. *)
Lemma combine_page_result_exceptions_only {Exn : Type}
    (items : list (nat * (pystr + Exn))) acc :
  fold_left combine_page_result
            ((fun it => (fst it, page_result_of (snd it))) <$> items) acc
  = fold_left combine_page items acc.
Proof.
  revert acc. induction items as [|[i [text|e]] items IH]; intros acc;
    [done|apply IH..].
Qed.

(** A cancelled page does not get the marker: it gets a page block with
    the message of the [CancelledError], here the empty one. *)
Example cancelled_page_gets_block :
  fold_left combine_page_result
            (enumerate [PageText (py "A"); PageCancelled []; PageException tt])
            []
  = [NL] ++ py "--- Page 1 ---" ++ [NL] ++ py "A" ++ [NL]
    ++ [NL] ++ py "--- Page 2 ---" ++ [NL] ++ [NL]
    ++ [NL] ++ py "[Page 3 extraction failed]" ++ [NL].
Proof. reflexivity. Qed.

(** C7. For a PDF whose pages were rasterised, and for every order in
    which the page tasks finish, the combined text is the concatenation,
    in page-index order, of one segment per page: for page number [N]
    (the index plus one) the block ["\n--- Page N ---\n" text "\n"] when
    its remote call returned [text], and the marker
    ["\n[Page N extraction failed]\n"] when its remote call raised an
    [Exception].  So a failed page leaves the other pages' texts in place
    and its marker stands at its own position. *)
Theorem pdf_pages_in_order {Path Image Exn : Type}
    (w : World Path Image Exn) (pdf_path : Path) (images : list Image) :
  convert_from_path w pdf_path CONVERSION_DPI = inl images ->
  Permutation (page_completion w pdf_path) (seq 0 (length images)) ->
  pdf_text <$> extract_from_pdf w pdf_path
  = Some (concat (imap (fun i img =>
                          match extract_text_from_image_content w img (i + 1) with
                          | inl text =>
                              [NL] ++ py "--- Page " ++ str_of_nat (i + 1)
                              ++ py " ---" ++ [NL] ++ text ++ [NL]
                          | inr _ =>
                              [NL] ++ py "[Page " ++ str_of_nat (i + 1)
                              ++ py " extraction failed]" ++ [NL]
                          end) images)).
Proof.
  intros Hconv Hperm. by rewrite (extract_from_pdf_pages w pdf_path images).
Qed.

(** A three-page scan whose second page fails, with the page tasks
    finishing in the order 3, 1, 2. *)
Lemma pdf_pages_in_order_witness :
  pdf_text <$> extract_from_pdf world_three_pages scan_pdf
  = Some ([NL] ++ py "--- Page 1 ---" ++ [NL] ++ placeholder_text 1 ++ [NL]
          ++ [NL] ++ py "[Page 2 extraction failed]" ++ [NL]
          ++ [NL] ++ py "--- Page 3 ---" ++ [NL] ++ placeholder_text 3 ++ [NL]).
Proof.
  rewrite (pdf_pages_in_order world_three_pages scan_pdf [0; 1; 2]).
  - reflexivity.
  - reflexivity.
  - apply (bool_decide_unpack _). vm_compute. reflexivity.
Defined.

(** C8 on a scan that fails at 200 DPI and would succeed at 100 DPI: the
    rasteriser is called once, at 200 DPI, and the document's text is
    empty; the 100 DPI fallback is never tried. *)
Theorem pdf_no_low_resolution_retry :
  convert_from_path world_low_memory scan_pdf 100 = inl [0] /\
  extract_from_pdf world_low_memory scan_pdf = Some (PdfRun [] [200]).
Proof. split; reflexivity. Qed.


(** ** [extract_text_from_documents] *)

Lemma fold_collect_dom {Exn : Type} (kvs : list (pystr * pystr)) (m : gmap pystr pystr) :
  dom (fold_left (collect (Exn:=Exn)) (inl <$> kvs) m)
  = dom m ∪ list_to_set (fst <$> kvs).
Proof.
  revert m. induction kvs as [|[k v] kvs IH]; intros m.
  - simpl. by rewrite (right_id_L ∅ (∪)).
  - rewrite fmap_cons. cbn [fold_left collect]. rewrite IH, dom_insert_L.
    rewrite fmap_cons. cbn [fst list_to_set].
    by rewrite (comm_L (∪) {[k]} (dom m)), (assoc_L (∪)).
Qed.

(** A task that finished with an exception leaves no entry. *)
Lemma collect_skips_exception {Exn : Type} (e : Exn)
    (results : list (pystr * pystr + Exn)) (m : gmap pystr pystr) :
  fold_left collect (inr e :: results) m = fold_left collect results m.
Proof. reflexivity. Qed.

Lemma fold_collect_size {Exn : Type} (results : list (pystr * pystr + Exn))
    (m : gmap pystr pystr) :
  size (fold_left collect results m) <= size m + length results.
Proof.
  revert m. induction results as [|r results IH]; intros m; simpl; [lia|].
  etrans; [apply IH|]. destruct r as [[k v]|e]; simpl; [|lia].
  rewrite map_size_insert. destruct (m !! k); simpl; lia.
Qed.

Lemma fold_collect_other {Exn : Type} (kvs : list (pystr * pystr))
    (m : gmap pystr pystr) k :
  k ∉ fst <$> kvs ->
  fold_left (collect (Exn:=Exn)) (inl <$> kvs) m !! k = m !! k.
Proof.
  revert m. induction kvs as [|[k' v'] kvs IH]; intros m Hk; [done|].
  rewrite fmap_cons in Hk. apply not_elem_of_cons in Hk as [Hne Hk].
  rewrite fmap_cons. cbn [fold_left collect]. rewrite IH by done.
  by rewrite lookup_insert_ne.
Qed.

Lemma fold_collect_lookup {Exn : Type} (kvs : list (pystr * pystr))
    (m : gmap pystr pystr) k v :
  NoDup (fst <$> kvs) -> (k, v) ∈ kvs ->
  fold_left (collect (Exn:=Exn)) (inl <$> kvs) m !! k = Some v.
Proof.
  revert m. induction kvs as [|[k' v'] kvs IH]; intros m Hnd Hin.
  - by apply elem_of_nil in Hin.
  - rewrite fmap_cons in Hnd. apply NoDup_cons in Hnd as [Hk' Hnd].
    rewrite fmap_cons. cbn [fold_left collect].
    apply elem_of_cons in Hin as [Heq|Hin].
    + injection Heq as -> ->. rewrite fold_collect_other by done.
      apply lookup_insert_eq.
    + by apply IH.
Qed.

Section BatchFacts.
Context {Path Image Exn : Type}.
Variable w : World Path Image Exn.

Lemma extract_single_finishes path :
  (forall images,
      convert_from_path w path CONVERSION_DPI = inl images ->
      Permutation (page_completion w path) (seq 0 (length images))) ->
  extract_single w path = Some (inl (path_str w path, document_text w path)).
Proof.
  intros Hpages. unfold extract_single, document_text.
  destruct (decide (suffix_lower w path = py ".pdf")) as [Hpdf|Hpdf].
  - destruct (convert_from_path w path CONVERSION_DPI) as [images|e] eqn:Hconv.
    + by rewrite (extract_from_pdf_pages w path images Hconv (Hpages images eq_refl)).
    + by rewrite (extract_from_pdf_raster_failure w path e Hconv).
  - destruct (decide (suffix_lower w path ∈ [py ".docx"; py ".doc"])); [done|].
    by destruct (decide (suffix_lower w path ∈ [py ".png"; py ".jpg"; py ".jpeg"])).
Qed.

Lemma mapM_extract_single file_paths :
  (forall p images,
      p ∈ file_paths ->
      convert_from_path w p CONVERSION_DPI = inl images ->
      Permutation (page_completion w p) (seq 0 (length images))) ->
  mapM (extract_single w) file_paths
  = Some ((fun p => inl (path_str w p, document_text w p)) <$> file_paths).
Proof.
  induction file_paths as [|p ps IH]; intros Hpages; [done|].
  cbn [mapM]. rewrite extract_single_finishes
    by (intros images; apply Hpages; left).
  rewrite IH by (intros q images Hq; apply Hpages; by right).
  done.
Qed.

Lemma extraction_failed_empty path :
  extraction_failed w path -> document_text w path = [].
Proof.
  unfold extraction_failed, document_text.
  intros [(Hpdf & e & He)|[(Hpdf & Hdoc & e & He)|(Hpdf & Hdoc & Himg & Hfail)]].
  - rewrite decide_True by done. by rewrite He.
  - rewrite decide_False, decide_True by done.
    unfold extract_from_docx. by rewrite He.
  - rewrite decide_False, decide_False, decide_True by done.
    unfold extract_from_image.
    destruct Hfail as [[e He]|(img & e & Himg' & He)].
    + by rewrite He.
    + by rewrite Himg', He.
Qed.

Lemma unsupported_empty path : unsupported w path -> document_text w path = [].
Proof.
  unfold unsupported, document_text. intros (Hpdf & Hdoc & Himg).
  by rewrite !decide_False by done.
Qed.
End BatchFacts.

(** C1 (as stated) fails: a scan whose rasterisation raised and a DOCX file
    without any text get the same entry, the empty string; the entry of the
    failed document carries no failure indicator. *)
Lemma failed_document_looks_empty :
  (exists e, convert_from_path world_batch scan_pdf CONVERSION_DPI = inr e) /\
  DocxDocument world_batch empty_docx = inl (MkDocx [] []) /\
  extract_text_from_documents world_batch [scan_pdf; empty_docx]
  = Some (<[empty_docx := []]> {[ scan_pdf := [] ]}).
Proof. split; [by eexists|]. split; reflexivity. Qed.

(** C1 (amended).  When every task finishes, the returned mapping has an
    entry for every input path and for nothing else, so at most one entry
    per input document, and exactly one when the paths are distinct; each
    path is then mapped to its document's text.  A document whose
    extraction failed as a whole is mapped to the empty string, which is
    also the entry of an unsupported file: the mapping has no failure
    indicator. *)
Theorem batch_output_entries {Path Image Exn : Type}
    (w : World Path Image Exn) (file_paths : list Path) :
  all_tasks_finish w file_paths ->
  exists output,
    extract_text_from_documents w file_paths = Some output /\
    dom output = list_to_set (path_str w <$> file_paths) /\
    size output <= length file_paths /\
    (NoDup (path_str w <$> file_paths) ->
       size output = length file_paths /\
       forall p, p ∈ file_paths ->
                 output !! path_str w p = Some (document_text w p)) /\
    (forall p, extraction_failed w p \/ unsupported w p ->
               document_text w p = []).
Proof.
  intros [Hdocs Hpages]. unfold extract_text_from_documents.
  rewrite (mapM_extract_single w file_paths Hpages). cbn [mbind option_bind].
  rewrite gather_permutation by (by rewrite length_fmap). cbn [mbind option_bind].
  eexists. split; [reflexivity|].
  set (kvs := (fun p => (path_str w p, document_text w p)) <$> file_paths).
  assert (((fun p => inl (path_str w p, document_text w p)) <$> file_paths)
          = (inl <$> kvs : list (pystr * pystr + Exn))) as ->.
  { unfold kvs. by rewrite <- list_fmap_compose. }
  assert (fst <$> kvs = path_str w <$> file_paths) as Hkeys.
  { unfold kvs. by rewrite <- list_fmap_compose. }
  split; [|split; [|split]].
  - by rewrite fold_collect_dom, Hkeys, dom_empty_L, (left_id_L ∅ (∪)).
  - etrans; [apply fold_collect_size|].
    rewrite map_size_empty, length_fmap. unfold kvs. by rewrite length_fmap.
  - intros Hnd. split.
    + rewrite <- size_dom, fold_collect_dom, Hkeys, dom_empty_L, (left_id_L ∅ (∪)).
      rewrite size_list_to_set by done. by rewrite length_fmap.
    + intros p Hp. apply fold_collect_lookup; [by rewrite Hkeys|].
      unfold kvs. apply list_elem_of_fmap. by exists p.
  - intros p [Hfail|Hunsup].
    + by apply extraction_failed_empty.
    + by apply unsupported_empty.
Qed.

(** A batch of a scan that cannot be rasterised, an empty DOCX file and
    an unsupported text file. *)
Lemma batch_output_entries_witness :
  exists output,
    extract_text_from_documents world_batch [scan_pdf; empty_docx; notes_txt]
      = Some output /\
    dom output = list_to_set (path_str world_batch <$> [scan_pdf; empty_docx; notes_txt]) /\
    size output <= 3 /\
    (NoDup (path_str world_batch <$> [scan_pdf; empty_docx; notes_txt]) ->
       size output = 3 /\
       forall p, p ∈ [scan_pdf; empty_docx; notes_txt] ->
                 output !! path_str world_batch p = Some (document_text world_batch p)) /\
    (forall p, extraction_failed world_batch p \/ unsupported world_batch p ->
               document_text world_batch p = []).
Proof.
  apply (batch_output_entries world_batch [scan_pdf; empty_docx; notes_txt]).
  split.
  - apply (bool_decide_unpack _). vm_compute. reflexivity.
  - intros p images _ Hconv. simpl in Hconv. discriminate.
Defined.

(** ** The semaphore *)

Lemma sum_list_insert (f : task_state -> nat) ts i t t' :
  ts !! i = Some t ->
  sum_list_with f (<[i := t']> ts) + f t = sum_list_with f ts + f t'.
Proof.
  revert i. induction ts as [|x ts IH]; intros i Hi; [done|].
  destruct i as [|i]; simpl in *.
  - injection Hi as ->. lia.
  - pose proof (IH i Hi). lia.
Qed.

Lemma task_ok_insert calls ts i t t' n :
  Forall2 task_ok calls ts -> ts !! i = Some t ->
  (task_ok n t -> task_ok n t') ->
  calls !! i = Some n ->
  Forall2 task_ok calls (<[i := t']> ts).
Proof.
  intros Hall Hi Hok Hn.
  rewrite <- (list_insert_id calls i n Hn).
  apply Forall2_insert; [done|]. apply Hok.
  by apply (Forall2_lookup_lr _ _ _ i n t Hall).
Qed.

Lemma sem_step_invariant K calls s s' :
  sem_step s s' ->
  permit_holders s + permits s = K /\ Forall2 task_ok calls (tasks s) ->
  permit_holders s' + permits s' = K /\ Forall2 task_ok calls (tasks s').
Proof.
  unfold permit_holders.
  intros Hstep [Hsum Hok]. destruct Hstep as
    [p ts i n Hi | p ts i cs j Hi Hj | p ts i cs j Hi Hj | p ts i cs Hi Hdone];
    simpl in *.
  - destruct (Forall2_lookup_r _ _ _ _ _ Hok Hi) as (m & Hm & Hmn).
    simpl in Hmn. subst m. split.
    + pose proof (sum_list_insert holds_permit ts i _
                    (Inside (replicate n Created)) Hi). simpl in *. lia.
    + eapply task_ok_insert; [done..| |done].
      intros _. simpl. by rewrite length_replicate.
  - destruct (Forall2_lookup_r _ _ _ _ _ Hok Hi) as (m & Hm & Hmn). split.
    + pose proof (sum_list_insert holds_permit ts i _
                    (Inside (<[j := Active]> cs)) Hi). simpl in *. lia.
    + eapply task_ok_insert; [done..| |done].
      simpl. by rewrite length_insert.
  - destruct (Forall2_lookup_r _ _ _ _ _ Hok Hi) as (m & Hm & Hmn). split.
    + pose proof (sum_list_insert holds_permit ts i _
                    (Inside (<[j := Completed]> cs)) Hi). simpl in *. lia.
    + eapply task_ok_insert; [done..| |done].
      simpl. by rewrite length_insert.
  - destruct (Forall2_lookup_r _ _ _ _ _ Hok Hi) as (m & Hm & Hmn). split.
    + pose proof (sum_list_insert holds_permit ts i _ Finished Hi). simpl in *. lia.
    + eapply task_ok_insert; [done..| |done]. done.
Qed.

Lemma sem_invariant K calls s :
  sem_reachable (sem_init K calls) s ->
  permit_holders s + permits s = K /\ Forall2 task_ok calls (tasks s).
Proof.
  induction 1 as [|s s' _ IH Hstep].
  - split.
    + unfold permit_holders, sem_init. cbn [tasks permits].
      enough (sum_list_with holds_permit (Waiting <$> calls) = 0) as -> by done.
      induction calls as [|n calls IH]; [done|]. rewrite fmap_cons. by simpl.
    + unfold sem_init. simpl. apply Forall2_fmap_r, Forall_Forall2_diag.
      by apply Forall_forall.
  - by apply (sem_step_invariant K calls s s').
Qed.

(** At most [max_concurrency] document tasks are inside the
    [async with sem] block at any time. *)
Lemma sem_bounds_documents K calls s :
  sem_reachable (sem_init K calls) s -> permit_holders s <= K.
Proof. intros [Hsum _]%sem_invariant. lia. Qed.

(** When no document makes more than one remote call (no PDF with several
    pages), at most [max_concurrency] remote calls are in flight. *)
Lemma sem_bounds_single_calls K calls s :
  Forall (fun n => n <= 1) calls ->
  sem_reachable (sem_init K calls) s -> active_calls s <= K.
Proof.
  intros Hone Hreach. pose proof (sem_bounds_documents K calls s Hreach) as Hk.
  apply sem_invariant in Hreach as [_ Hok].
  enough (active_calls s <= permit_holders s) by lia.
  unfold active_calls, permit_holders.
  induction Hok as [|n t calls' ts Hnt _ IH]; simpl; [done|].
  inversion Hone as [|? ? Hn Hone']; subst.
  specialize (IH Hone').
  enough (active_in t <= holds_permit t) by lia.
  destruct t as [m|cs|]; simpl in *; [lia| |lia].
  pose proof (length_filter (fun c => c = Active) cs). lia.
Qed.

Lemma sem_reachable_trans s0 s1 s2 :
  sem_reachable s0 s1 -> sem_reachable s1 s2 -> sem_reachable s0 s2.
Proof. intros H1 H2. induction H2; [done|]. by eapply reach_step. Qed.

(** All the page calls of one PDF can be brought in flight while the
    document task holds a single permit. *)
Lemma page_calls_start p ts i n j :
  j <= n ->
  ts !! i = Some (Inside (replicate n Created)) ->
  sem_reachable (SemState p ts)
    (SemState p (<[i := Inside (replicate j Active ++ replicate (n - j) Created)]> ts)).
Proof.
  intros Hj Hi. induction j as [|j IH].
  - simpl. rewrite Nat.sub_0_r, list_insert_id by done. constructor.
  - eapply reach_step; [apply IH; lia|].
    pose proof (step_call_start p
      (<[i := Inside (replicate j Active ++ replicate (n - j) Created)]> ts)
      i (replicate j Active ++ replicate (n - j) Created) j) as Hstep.
    rewrite list_insert_insert_eq in Hstep.
    replace (<[j:=Active]> (replicate j Active ++ replicate (n - j) Created))
      with (replicate (S j) Active ++ replicate (n - S j) Created) in Hstep.
    + apply Hstep.
      * apply list_lookup_insert_eq. by eapply lookup_lt_Some.
      * rewrite lookup_app_r by (by rewrite length_replicate).
        rewrite length_replicate, Nat.sub_diag.
        apply lookup_replicate_2. lia.
    + replace (n - j) with (S (n - S j)) by lia.
      rewrite replicate_S_end, <- app_assoc.
      rewrite insert_app_r_alt by (by rewrite length_replicate).
      rewrite length_replicate, Nat.sub_diag. done.
Qed.

Lemma all_active n :
  length (filter (fun c => c = Active) (replicate n Active)) = n.
Proof.
  induction n as [|n IH]; [done|]. cbn [replicate].
  rewrite filter_cons_True by done. simpl. by rewrite IH.
Qed.

Lemma pdf_pages_all_in_flight p n :
  let s := SemState p [Inside (replicate n Active)] in
  sem_reachable (sem_init (S p) [n]) s /\ active_calls s = n.
Proof.
  split.
  - eapply sem_reachable_trans.
    + eapply reach_step; [apply reach_init|].
      apply (step_acquire p [Waiting n] 0 n). done.
    + pose proof (page_calls_start p [Inside (replicate n Created)] 0 n n) as H.
      rewrite Nat.sub_diag, app_nil_r in H. simpl in H. apply H; [lia|done].
  - unfold active_calls. cbn [tasks sum_list_with active_in].
    rewrite all_active. lia.
Qed.

(** C2 with [max_concurrency = 1] and a batch of one two-page PDF: the
    document task takes the only permit, [asyncio.gather] starts both page
    calls, and two remote calls are in flight at once. *)
Theorem page_calls_exceed_semaphore :
  let s0 := sem_init 1 (remote_calls world_two_pages <$> [scan_pdf]) in
  let s := SemState 0 [Inside [Active; Active]] in
  sem_reachable s0 s /\ active_calls s = 2 /\ permit_holders s = 1.
Proof.
  split; [|split; reflexivity].
  apply (proj1 (pdf_pages_all_in_flight 0 2)).
Qed.

(** ** More on [retry_gemini_async] *)

Section RetryLoopFacts.
Context {V E : Type}.
Variable generate_fn : nat -> V + E.

(** The loop invokes the operation once per attempt it makes, and sleeps
    the positive delays of exactly those attempts. *)
Lemma retry_loop_sleeps retries (items : list Z) a calls slept :
  let r := retry_loop generate_fn retries
             (imap (fun i x => (a + i, x)) items) calls slept in
  calls <= invocations r <= calls + length items /\
  sleeps r = slept ++ filter (fun d => (0 < d)%Z) (take (invocations r - calls) items).
Proof.
  revert a calls slept. induction items as [|d items IH]; intros a calls slept.
  - simpl. rewrite Nat.sub_diag, app_nil_r. split; [lia|done].
  - cbn [imap retry_loop].
    assert ((if (0 <? d)%Z then slept ++ [d] else slept)
            = slept ++ filter (fun d => (0 < d)%Z) [d]) as Hslept.
    { destruct (Z.ltb_spec 0 d).
      - by rewrite filter_cons_True, filter_nil.
      - rewrite filter_cons_False by lia. by rewrite filter_nil, app_nil_r. }
    assert (forall n, take (S n) (d :: items) = [d] ++ take n items) as Htake by done.
    destruct (generate_fn calls) as [v|e].
    + simpl. replace (S calls - calls) with 1 by lia.
      rewrite Htake, take_0, app_nil_r, Hslept. split; [cbn [length]; lia|done].
    + destruct (Z.of_nat (a + 0) =? retries - 1)%Z.
      * simpl. replace (S calls - calls) with 1 by lia.
        rewrite Htake, take_0, app_nil_r, Hslept. split; [cbn [length]; lia|done].
      * rewrite (imap_ext _ (fun i x => (S a + i, x)))
          by (intros i x _; simpl; f_equal; lia).
        pose proof (IH (S a) (S calls)
                    (if (0 <? d)%Z then slept ++ [d] else slept)) as IH'.
        cbv zeta in IH'.
        set (r' := retry_loop generate_fn retries
                     (imap (fun i x => (S a + i, x)) items) (S calls)
                     (if (0 <? d)%Z then slept ++ [d] else slept)) in *.
        destruct IH' as [Hb Hs].
        cbn [length]. split; [lia|].
        rewrite Hs, Hslept, <- app_assoc. f_equal.
        replace (invocations r' - calls) with (S (invocations r' - S calls)) by lia.
        by rewrite Htake, filter_app.
Qed.

(** An error leaves the loop only at the attempt numbered [retries - 1]:
    it is the error of the invocation made there, and every earlier
    invocation failed. *)
Lemma retry_loop_raised retries (items : list Z) a calls slept e :
  outcome (retry_loop generate_fn retries
             (imap (fun i x => (a + i, x)) items) calls slept) = Raised e ->
  exists j,
    j < length items /\ Z.of_nat (a + j) = (retries - 1)%Z /\
    invocations (retry_loop generate_fn retries
                   (imap (fun i x => (a + i, x)) items) calls slept)
      = calls + j + 1 /\
    generate_fn (calls + j) = inr e /\
    forall i, i < j -> exists e', generate_fn (calls + i) = inr e'.
Proof.
  revert a calls slept. induction items as [|d items IH]; intros a calls slept.
  - simpl. discriminate.
  - cbn [imap retry_loop].
    destruct (generate_fn calls) as [v|e0] eqn:Hcall; [simpl; discriminate|].
    destruct (Z.eqb_spec (Z.of_nat (a + 0)) (retries - 1)) as [Heq|Hne].
    + simpl. intros [= ->]. exists 0. rewrite !Nat.add_0_r.
      repeat split; [simpl; lia|by rewrite Nat.add_0_r in Heq|lia|done|].
      intros i Hi. lia.
    + rewrite (imap_ext _ (fun i x => (S a + i, x)))
        by (intros i x _; simpl; f_equal; lia).
      intros Hr. destruct (IH _ _ _ Hr) as (j & Hj & Hlast & Hinv & Hfail & Hbefore).
      exists (S j). repeat split.
      * simpl. lia.
      * rewrite <- Hlast. lia.
      * rewrite Hinv. lia.
      * by replace (calls + S j) with (S calls + j) by lia.
      * intros i Hi. destruct i as [|i].
        -- exists e0. by rewrite Nat.add_0_r.
        -- replace (calls + S i) with (S calls + i) by lia. apply Hbefore. lia.
Qed.

(** The first invocation that returns ends the loop, when no earlier
    attempt has the number [retries - 1]. *)
Lemma retry_loop_first_success retries (items : list Z) a calls slept k v :
  k < length items ->
  (forall j, j < k -> exists e, generate_fn (calls + j) = inr e) ->
  (forall j, j < k -> Z.of_nat (a + j) <> (retries - 1)%Z) ->
  generate_fn (calls + k) = inl v ->
  let r := retry_loop generate_fn retries
             (imap (fun i x => (a + i, x)) items) calls slept in
  outcome r = Returned v /\ invocations r = calls + k + 1.
Proof.
  revert a calls slept k.
  induction items as [|d items IH]; intros a calls slept k Hk Hfail Hne Hok.
  - simpl in Hk. lia.
  - cbn [imap retry_loop]. destruct k as [|k].
    + rewrite Nat.add_0_r in Hok. rewrite Hok. simpl. split; [done|lia].
    + destruct (Hfail 0) as [e He]; [lia|]. rewrite Nat.add_0_r in He. rewrite He.
      destruct (Z.eqb_spec (Z.of_nat (a + 0)) (retries - 1)) as [Heq|_].
      { exfalso. apply (Hne 0); [lia|done]. }
      rewrite (imap_ext _ (fun i x => (S a + i, x)))
        by (intros i x _; simpl; f_equal; lia).
      destruct (IH (S a) (S calls)
                  (if (0 <? d)%Z then slept ++ [d] else slept) k) as [H1 H2].
      * simpl in Hk. lia.
      * intros j Hj. replace (S calls + j) with (calls + S j) by lia.
        apply Hfail. lia.
      * intros j Hj. replace (S a + j) with (a + S j) by lia. apply Hne. lia.
      * by replace (S calls + k) with (calls + S k) by lia.
      * split; [done|]. rewrite H2. lia.
Qed.
End RetryLoopFacts.

Lemma py_slice_to_take {A} (l : list A) (r : Z) :
  exists m, py_slice_to l r = take m l /\
            ((0 <= r)%Z -> m = Z.to_nat r).
Proof.
  unfold py_slice_to. destruct (Z.ltb_spec r 0).
  - eexists. split; [done|lia].
  - eexists. split; [done|done].
Qed.

(** X1. The operation is invoked at most [len(delays)] times, and at most
    [retries] times when [retries >= 0]; the delays slept are exactly the
    positive delays of the attempts that were made. *)
Theorem retry_attempts_and_sleeps {V E : Type} (generate_fn : nat -> V + E)
    (retries : Z) (delays : list Z) :
  let r := retry_gemini_async generate_fn retries delays in
  invocations r <= length delays /\
  ((0 <= retries)%Z -> (Z.of_nat (invocations r) <= retries)%Z) /\
  sleeps r = filter (fun d => (0 < d)%Z) (take (invocations r) delays).
Proof.
  unfold retry_gemini_async, enumerate.
  destruct (py_slice_to_take delays retries) as (m & -> & Hm).
  pose proof (retry_loop_sleeps generate_fn retries (take m delays) 0 0 []) as H.
  cbv zeta in H. simpl in H. cbv zeta.
  set (r := retry_loop generate_fn retries
              (imap (fun i x => (i, x)) (take m delays)) 0 []) in *.
  destruct H as [[_ Hle] Hs]. rewrite length_take in Hle.
  split; [lia|]. split; [intros Hr; specialize (Hm Hr); lia|].
  rewrite Hs, Nat.sub_0_r, take_take. f_equal. f_equal. lia.
Qed.

Lemma retry_attempts_and_sleeps_witness :
  let r := retry_gemini_async flaky_twice 5 [0; 30; 0; 90]%Z in
  invocations r <= 4 /\ (Z.of_nat (invocations r) <= 5)%Z /\
  sleeps r = filter (fun d => (0 < d)%Z) (take (invocations r) [0; 30; 0; 90]%Z).
Proof.
  pose proof (retry_attempts_and_sleeps flaky_twice 5 [0; 30; 0; 90]%Z) as H.
  cbv zeta in H. destruct H as (H1 & H2 & H3).
  split; [exact H1|]. split; [apply H2; lia|exact H3].
Defined.

(** X2. The first invocation that returns ends the retries: when the
    operation fails on its first [k] invocations and returns [v] on the
    next one, and attempt [k] is within both the delay schedule and
    [retries], the wrapper returns [v] after exactly [k + 1] invocations. *)
Theorem retry_returns_first_success {V E : Type} (generate_fn : nat -> V + E)
    (retries : Z) (delays : list Z) (k : nat) (v : V) :
  k < length delays -> (Z.of_nat k < retries)%Z ->
  (forall j, j < k -> exists e, generate_fn j = inr e) ->
  generate_fn k = inl v ->
  let r := retry_gemini_async generate_fn retries delays in
  outcome r = Returned v /\ invocations r = k + 1.
Proof.
  intros Hk Hr Hfail Hok. unfold retry_gemini_async, enumerate.
  destruct (py_slice_to_take delays retries) as (m & -> & Hm).
  specialize (Hm ltac:(lia)).
  apply (retry_loop_first_success generate_fn retries (take m delays) 0 0 [] k v).
  - rewrite length_take. lia.
  - exact Hfail.
  - intros j Hj. simpl. lia.
  - exact Hok.
Qed.

Lemma retry_returns_first_success_witness :
  let r := retry_gemini_async flaky_twice 5 [0; 30; 0; 90]%Z in
  outcome r = Returned 42 /\ invocations r = 3.
Proof.
  apply (retry_returns_first_success flaky_twice 5 [0; 30; 0; 90]%Z 2 42).
  - simpl. lia.
  - lia.
  - intros j Hj. exists j. unfold flaky_twice.
    destruct (Nat.ltb_spec j 2); [reflexivity|lia].
  - reflexivity.
Defined.

Section RetryBaseFacts.
Context {V E B : Type}.

(** On operations that fail with instances of [Exception] only, the loop
    is the loop of the model above. *)
Lemma retry_loop_base_exceptions_only (generate_fn : nat -> V + E)
    retries items calls slept :
  let r := retry_loop generate_fn retries items calls slept in
  retry_loop_base (B:=B) (exceptions_only generate_fn) retries items calls slept
  = RetryRun (match outcome r with
              | Returned v => Returned v
              | ReturnedNone => ReturnedNone
              | Raised e => Raised (inl e)
              end) (invocations r) (sleeps r).
Proof.
  revert calls slept. induction items as [|[attempt delay] rest IH];
    intros calls slept; [done|].
  cbn [retry_loop_base retry_loop]. unfold exceptions_only at 1.
  destruct (generate_fn calls) as [v|e]; [done|].
  destruct (Z.of_nat attempt =? retries - 1)%Z; [done|]. apply IH.
Qed.

Lemma retry_gemini_async_base_exceptions_only (generate_fn : nat -> V + E)
    retries delays :
  let r := retry_gemini_async generate_fn retries delays in
  retry_gemini_async_base (B:=B) (exceptions_only generate_fn) retries delays
  = RetryRun (match outcome r with
              | Returned v => Returned v
              | ReturnedNone => ReturnedNone
              | Raised e => Raised (inl e)
              end) (invocations r) (sleeps r).
Proof. apply retry_loop_base_exceptions_only. Qed.

Variable generate_fn : nat -> call_result V E B.

End RetryBaseFacts.



(** X4. Non-positive [retries].  With [retries = 0] the operation is never
    invoked and the wrapper returns [None].  A negative [retries] does not
    disable the attempts: the slice [delays[:retries]] drops that many
    delays from the end of the schedule, the remaining attempts are made,
    and when they all fail the wrapper returns [None] without raising. *)
Theorem retry_nonpositive_retries {V E : Type} (generate_fn : nat -> V + E)
    (delays : list Z) :
  (let r := retry_gemini_async generate_fn 0 delays in
   outcome r = ReturnedNone /\ invocations r = 0 /\ sleeps r = []) /\
  (forall (retries : Z) (err : nat -> E),
      (retries < 0)%Z ->
      (forall k, generate_fn k = inr (err k)) ->
      let r := retry_gemini_async generate_fn retries delays in
      outcome r = ReturnedNone /\
      invocations r = length delays - Z.to_nat (- retries)).
Proof.
  split; [done|].
  intros retries err Hneg Hfail. unfold retry_gemini_async, enumerate, py_slice_to.
  destruct (Z.ltb_spec retries 0) as [_|Hge]; [|lia].
  destruct (retry_loop_falls_through generate_fn err Hfail retries
              (take (length delays - Z.to_nat (- retries)) delays) 0 0 [])
    as [H1 H2].
  - intros i Hi. lia.
  - simpl in H1, H2. cbv zeta. split; [exact H1|].
    etrans; [exact H2|]. rewrite length_take. lia.
Qed.

Lemma retry_nonpositive_retries_witness :
  let r := retry_gemini_async always_failing (-1) default_delays in
  outcome r = ReturnedNone /\ invocations r = 2.
Proof.
  apply (proj2 (retry_nonpositive_retries always_failing default_delays)
           (-1)%Z (fun k => k)).
  - lia.
  - intros k. reflexivity.
Defined.

(** ** More on [remove_repetition] *)

Lemma join_nl_sublist_drop l ls : join_nl ls `sublist_of` join_nl (l :: ls).
Proof.
  destruct ls as [|l' ls]; [apply sublist_nil_l|].
  rewrite join_nl_cons. apply sublist_inserts_l. by apply sublist_cons.
Qed.

Lemma join_nl_sublist_keep l' l ks ls :
  l' `sublist_of` l -> join_nl ks `sublist_of` join_nl ls ->
  length ks <= length ls ->
  join_nl (l' :: ks) `sublist_of` join_nl (l :: ls).
Proof.
  intros Hl Hks Hlen. destruct ks as [|k ks].
  - simpl. destruct ls as [|l2 ls]; [done|].
    rewrite join_nl_cons. by apply sublist_inserts_r.
  - destruct ls as [|l2 ls]; [simpl in Hlen; lia|].
    rewrite !join_nl_cons. apply sublist_app; [done|]. by apply sublist_skip.
Qed.

Lemma join_kept_lines_sublist n prev count lines :
  Forall no_newline lines ->
  join_nl (kept_lines n prev count lines) `sublist_of` join_nl lines.
Proof.
  intros Hall. revert prev count.
  induction Hall as [|line rest Hl _ IH]; intros prev count; [done|].
  cbn [kept_lines].
  assert (forall p c, join_nl (kept_lines n p c rest) `sublist_of` join_nl (line :: rest))
    as Hdrop.
  { intros p c. etrans; [apply IH|apply join_nl_sublist_drop]. }
  assert (forall p c, join_nl (collapse_runs n line :: kept_lines n p c rest)
                      `sublist_of` join_nl (line :: rest)) as Hkeep.
  { intros p c. apply join_nl_sublist_keep;
      [by apply collapse_runs_sublist|apply IH|apply kept_lines_length]. }
  destruct (is_separator_line line); [apply Hdrop|].
  destruct (decide (prev = Some (collapse_runs n line))).
  - destruct (n <? S count); [apply Hdrop|apply Hkeep].
  - apply Hkeep.
Qed.

(** X5. The cleaned text is a subsequence of the input text: the cleaner
    only deletes characters, it never inserts, replaces or reorders any; in
    particular the result is never longer than the input. *)
Theorem remove_repetition_subsequence (text : pystr) (max_consecutive : nat) :
  remove_repetition text max_consecutive `sublist_of` text /\
  length (remove_repetition text max_consecutive) <= length text.
Proof.
  assert (remove_repetition text max_consecutive `sublist_of` text) as H.
  { rewrite remove_repetition_kept. rewrite <- (join_split text) at 2.
    apply join_kept_lines_sublist, split_nl_no_newline. }
  split; [done|]. by apply sublist_length.
Qed.

Lemma kept_lines_Forall (P : pystr -> Prop) n prev count lines :
  (forall line, no_newline line -> is_separator_line line = false ->
                P (collapse_runs n line)) ->
  Forall no_newline lines -> Forall P (kept_lines n prev count lines).
Proof.
  intros HP Hall. revert prev count.
  induction Hall as [|line rest Hl _ IH]; intros prev count; [constructor|].
  cbn [kept_lines]. destruct (is_separator_line line) eqn:Hsep; [apply IH|].
  destruct (decide (prev = Some (collapse_runs n line))).
  - destruct (n <? S count); [apply IH|]. constructor; [by apply HP|apply IH].
  - constructor; [by apply HP|apply IH].
Qed.

(** Every line of the cleaned text is the empty line or the substitution
    applied to an input line that is no separator. *)
Lemma cleaned_lines_Forall (P : pystr -> Prop) text n :
  P [] ->
  (forall line, no_newline line -> is_separator_line line = false ->
                P (collapse_runs n line)) ->
  Forall P (split_nl (remove_repetition text n)).
Proof.
  intros Hnil HP. rewrite remove_repetition_kept.
  pose proof (kept_lines_Forall P n None 0 (split_nl text) HP
                (split_nl_no_newline text)) as Hall.
  pose proof (kept_lines_no_newline n None 0 (split_nl text)
                (split_nl_no_newline text)) as Hnl.
  destruct (kept_lines n None 0 (split_nl text)) as [|k ks].
  - simpl. by constructor.
  - by rewrite split_join.
Qed.

Lemma longest_run_collapse n s :
  no_newline s -> longest_run (collapse_runs n s) <= n.
Proof.
  intros Hs. destruct n as [|n].
  - rewrite collapse_runs_cap, expand_cap_0 by done. done.
  - unfold longest_run. rewrite runs_collapse by (done || lia).
    induction (runs s) as [|[c k] rs IH]; [simpl; lia|].
    rewrite !fmap_cons. cbn [foldr]. apply Nat.max_lub; [|exact IH].
    unfold cap. simpl. lia.
Qed.

(** X6. For a repetition count [max_consecutive] from 0 to below the
    limit of the regular expression engine, the cleaner returns and no
    line of the cleaned text has a run of more than [max_consecutive]
    equal characters. *)
Theorem remove_repetition_run_bound (text : pystr) (max_consecutive : Z) :
  (0 <= max_consecutive < MAXREPEAT)%Z ->
  exists cleaned,
    remove_repetition_int text max_consecutive = Some cleaned /\
    Forall (fun line => (Z.of_nat (longest_run line) <= max_consecutive)%Z)
           (split_nl cleaned).
Proof.
  intros Hm. eexists. split; [by apply remove_repetition_int_count|].
  apply cleaned_lines_Forall.
  - unfold longest_run. simpl. lia.
  - intros line Hl _.
    pose proof (longest_run_collapse (Z.to_nat max_consecutive) line Hl). lia.
Qed.

Lemma remove_repetition_run_bound_witness :
  exists cleaned,
    remove_repetition_int (py "x" ++ a50 ++ [NL] ++ py "bbbb") 3
    = Some cleaned /\
    Forall (fun line => (Z.of_nat (longest_run line) <= 3)%Z)
           (split_nl cleaned).
Proof.
  apply (remove_repetition_run_bound (py "x" ++ a50 ++ [NL] ++ py "bbbb") 3).
  unfold MAXREPEAT. lia.
Defined.

(** A negative [max_consecutive] bounds nothing: the text is returned with
    its runs. *)
Example remove_repetition_negative_keeps_runs :
  remove_repetition_int (py "ab") (-1) = Some (py "ab").
Proof. vm_compute. reflexivity. Qed.

(** X7. For a repetition count [max_consecutive] from 0 to below the limit
    of the regular expression engine, the cleaner returns and no line of
    the cleaned text is a separator line: cutting the character runs down
    never leaves a line that the separator test would remove in a second
    pass. *)
Theorem remove_repetition_no_separator_left (text : pystr)
    (max_consecutive : Z) :
  (0 <= max_consecutive < MAXREPEAT)%Z ->
  exists cleaned,
    remove_repetition_int text max_consecutive = Some cleaned /\
    Forall (fun line => is_separator_line line = false) (split_nl cleaned).
Proof.
  intros Hm. eexists. split; [by apply remove_repetition_int_count|].
  apply cleaned_lines_Forall; [done|].
  intros line Hl Hsep.
  destruct (is_separator_line (collapse_runs (Z.to_nat max_consecutive) line))
    eqn:E; [|done].
  apply is_separator_line_collapse in E; [congruence|done].
Qed.

Lemma remove_repetition_no_separator_left_witness :
  exists cleaned,
    remove_repetition_int
      (py "-----" ++ [NL] ++ py "  =====  " ++ [NL] ++ py "abc") 20
    = Some cleaned /\
    Forall (fun line => is_separator_line line = false) (split_nl cleaned).
Proof.
  apply (remove_repetition_no_separator_left
           (py "-----" ++ [NL] ++ py "  =====  " ++ [NL] ++ py "abc") 20).
  unfold MAXREPEAT. lia.
Defined.

(** With a negative [max_consecutive] the substitution can leave a
    separator line behind. *)
Example remove_repetition_negative_leaves_separator :
  remove_repetition_int (py "-----aa{-1,}") (-1) = Some (py "-----") /\
  is_separator_line (py "-----aa{-1,}") = false /\
  is_separator_line (py "-----") = true.
Proof. repeat split; vm_compute; reflexivity. Qed.

Lemma collapse_runs_zero s : no_newline s -> collapse_runs 0 s = [].
Proof. intros Hs. by rewrite collapse_runs_cap, expand_cap_0. Qed.

Lemma kept_lines_zero_after count lines :
  Forall no_newline lines -> kept_lines 0 (Some []) count lines = [].
Proof.
  intros Hall. revert count.
  induction Hall as [|line rest Hl _ IH]; intros count; [done|].
  cbn [kept_lines]. destruct (is_separator_line line); [apply IH|].
  rewrite collapse_runs_zero by done. rewrite decide_True by done.
  simpl. apply IH.
Qed.

(** X8. With [max_consecutive = 0] the cleaner erases everything: the
    result is the empty string for every input. *)
Theorem remove_repetition_zero (text : pystr) : remove_repetition text 0 = [].
Proof.
  rewrite remove_repetition_kept.
  pose proof (split_nl_no_newline text) as Hall.
  induction Hall as [|line rest Hl Hrest IH]; [done|].
  cbn [kept_lines]. destruct (is_separator_line line); [exact IH|].
  rewrite collapse_runs_zero by done. rewrite decide_False by done.
  by rewrite kept_lines_zero_after.
Qed.

(** ** More on the extractors *)

Lemma page_segment_nonempty {Exn : Type} i (result : pystr + Exn) :
  page_segment i result <> [].
Proof. by destruct result. Qed.

(** X9. For a PDF that was rasterised, the combined text is empty exactly
    when the PDF has no page: page calls that fail leave their markers, so
    they alone never produce the empty text that a rasterisation failure
    produces. *)
Theorem extract_from_pdf_empty_iff_no_pages {Path Image Exn : Type}
    (w : World Path Image Exn) (pdf_path : Path) (images : list Image) :
  convert_from_path w pdf_path CONVERSION_DPI = inl images ->
  Permutation (page_completion w pdf_path) (seq 0 (length images)) ->
  pdf_text <$> extract_from_pdf w pdf_path = Some [] <-> images = [].
Proof.
  intros Hconv Hperm.
  rewrite (extract_from_pdf_pages w pdf_path images Hconv Hperm). simpl.
  unfold pdf_pages_text. split.
  - intros [= Hnil]. destruct images as [|img images]; [done|].
    rewrite imap_cons in Hnil. simpl in Hnil.
    apply app_eq_nil in Hnil as [Hseg _].
    by apply page_segment_nonempty in Hseg.
  - by intros ->.
Qed.

Lemma extract_from_pdf_empty_iff_no_pages_witness :
  pdf_text <$> extract_from_pdf world_three_pages scan_pdf = Some []
  <-> [0; 1; 2] = [].
Proof.
  apply (extract_from_pdf_empty_iff_no_pages world_three_pages scan_pdf [0; 1; 2]).
  - reflexivity.
  - apply (bool_decide_unpack _). vm_compute. reflexivity.
Defined.

Lemma str_join_no_newline (sep : pystr) (ls : list pystr) :
  no_newline sep -> Forall no_newline ls -> no_newline (str_join sep ls).
Proof.
  intros Hsep Hall. induction Hall as [|l ls Hl Hls IH].
  - apply not_elem_of_nil.
  - destruct ls as [|l' ls]; [done|].
    change (str_join sep (l :: l' :: ls)) with (l ++ sep ++ str_join sep (l' :: ls)).
    unfold no_newline in *. rewrite !elem_of_app. tauto.
Qed.

(** X10. For a DOCX file that opens, whose paragraphs and cells hold no
    newline: the lines of the extracted text are the paragraphs that are
    not blank (kept as they are, not stripped), in order, followed by one
    line per table row with the cells joined by tabs; the text is empty
    when there is no such paragraph and no row. *)
Theorem extract_from_docx_lines {Path Image Exn : Type}
    (w : World Path Image Exn) (docx_path : Path) (doc : Docx) :
  DocxDocument w docx_path = inl doc ->
  Forall no_newline (docx_paragraphs doc) ->
  Forall (Forall (Forall no_newline)) (docx_tables doc) ->
  extract_from_docx w docx_path = join_nl (docx_lines doc) /\
  (docx_lines doc = [] -> extract_from_docx w docx_path = []) /\
  (docx_lines doc <> [] ->
   split_nl (extract_from_docx w docx_path) = docx_lines doc).
Proof.
  intros Hdoc Hpars Htabs. unfold extract_from_docx. rewrite Hdoc.
  fold (docx_lines doc). split; [done|]. split; [by intros ->|].
  intros Hne. apply split_join; [done|]. unfold docx_lines.
  apply Forall_app. split.
  - apply Forall_forall. intros t [_ Ht]%list_elem_of_filter.
    by apply (proj1 (Forall_forall _ _) Hpars).
  - apply Forall_forall. intros row Hrow.
    apply list_elem_of_In, in_flat_map in Hrow as (table & Htable & Hrow).
    apply list_elem_of_In in Htable, Hrow.
    apply list_elem_of_fmap in Hrow as (cells & -> & Hcells).
    apply str_join_no_newline.
    + unfold no_newline. intros [=]%list_elem_of_singleton.
    + pose proof (proj1 (Forall_forall _ _) Htabs table Htable) as Hrows.
      by apply (proj1 (Forall_forall _ _) Hrows).
Qed.

Lemma extract_from_docx_lines_witness :
  extract_from_docx world_docx report_docx = join_nl (docx_lines sample_docx) /\
  (docx_lines sample_docx = [] -> extract_from_docx world_docx report_docx = []) /\
  (docx_lines sample_docx <> [] ->
   split_nl (extract_from_docx world_docx report_docx)
   = [py "Patient: Ana"; py " Diagnosis"; py "Dose" ++ [TAB] ++ py "5 mg"; [TAB]]).
Proof.
  apply (extract_from_docx_lines world_docx report_docx sample_docx).
  - reflexivity.
  - repeat constructor; literal_no_newline.
  - repeat constructor; literal_no_newline.
Defined.

Lemma fold_collect_last {Exn : Type} (kvs1 kvs2 : list (pystr * pystr))
    (m : gmap pystr pystr) k v :
  k ∉ fst <$> kvs2 ->
  fold_left (collect (Exn:=Exn)) (inl <$> (kvs1 ++ (k, v) :: kvs2)) m !! k = Some v.
Proof.
  intros Hk. rewrite fmap_app, fold_left_app, fmap_cons. cbn [fold_left collect].
  rewrite fold_collect_other by done. apply lookup_insert_eq.
Qed.

(** X11. When a path occurs several times in the batch, the mapping keeps
    one entry for it, the text of its last occurrence; the number of
    entries is the number of distinct paths. *)
Theorem batch_last_occurrence_wins {Path Image Exn : Type}
    (w : World Path Image Exn) (before after : list Path) (p : Path) :
  all_tasks_finish w (before ++ p :: after) ->
  path_str w p ∉ path_str w <$> after ->
  exists output,
    extract_text_from_documents w (before ++ p :: after) = Some output /\
    output !! path_str w p = Some (document_text w p) /\
    size output = length (remove_dups (path_str w <$> (before ++ p :: after))).
Proof.
  intros [Hdocs Hpages] Hlast. unfold extract_text_from_documents.
  rewrite (mapM_extract_single w _ Hpages). cbn [mbind option_bind].
  rewrite gather_permutation by (by rewrite length_fmap). cbn [mbind option_bind].
  eexists. split; [reflexivity|].
  set (kv := fun q => (path_str w q, document_text w q)).
  assert (((fun q => inl (path_str w q, document_text w q)) <$> (before ++ p :: after))
          = (inl <$> ((kv <$> before) ++ kv p :: (kv <$> after))
             : list (pystr * pystr + Exn))) as ->.
  { rewrite <- fmap_cons, <- fmap_app, <- list_fmap_compose. done. }
  split.
  - apply fold_collect_last. by rewrite <- list_fmap_compose.
  - rewrite <- size_dom, fold_collect_dom, dom_empty_L, (left_id_L ∅ (∪)).
    rewrite <- fmap_cons, <- fmap_app, <- list_fmap_compose.
    change (fst ∘ kv) with (path_str w).
    rewrite <- (size_list_to_set (C:=gset pystr) (remove_dups _))
      by apply NoDup_remove_dups.
    f_equal. apply set_eq. intros x.
    by rewrite !elem_of_list_to_set, elem_of_remove_dups.
Qed.

Lemma batch_last_occurrence_wins_witness :
  exists output,
    extract_text_from_documents world_batch_four
      ([scan_pdf; empty_docx] ++ scan_pdf :: [notes_txt]) = Some output /\
    output !! scan_pdf = Some (document_text world_batch_four scan_pdf) /\
    size output = 3.
Proof.
  apply (batch_last_occurrence_wins world_batch_four
           [scan_pdf; empty_docx] [notes_txt] scan_pdf).
  - split.
    + apply (bool_decide_unpack _). vm_compute. reflexivity.
    + intros q images _ Hconv. simpl in Hconv. discriminate.
  - apply (bool_decide_unpack _). vm_compute. reflexivity.
Defined.

(** ** More on the semaphore *)

Lemma sum_list_with_insert {A} (f : A -> nat) (l : list A) i x y :
  l !! i = Some x ->
  sum_list_with f (<[i := y]> l) + f x = sum_list_with f l + f y.
Proof.
  revert i. induction l as [|z l IH]; intros i Hi; [done|].
  destruct i as [|i]; simpl in *.
  - injection Hi as ->. lia.
  - pose proof (IH i Hi). lia.
Qed.

Lemma sum_list_with_replicate {A} (f : A -> nat) n x :
  sum_list_with f (replicate n x) = n * f x.
Proof. induction n as [|n IH]; simpl; [done|]. rewrite IH. lia. Qed.

Lemma sum_list_with_zero {A} (f : A -> nat) (l : list A) :
  Forall (fun x => f x = 0) l -> sum_list_with f l = 0.
Proof. induction 1 as [|x l Hx _ IH]; simpl; [done|]. lia. Qed.

(** Every step uses up one unit of the weight. *)
Lemma sem_step_weight s s' : sem_step s s' -> sem_weight s = S (sem_weight s').
Proof.
  unfold sem_weight.
  intros [p ts i n Hi | p ts i cs j Hi Hj | p ts i cs j Hi Hj | p ts i cs Hi Hdone];
    cbn [tasks].
  - pose proof (sum_list_with_insert task_weight ts i _
                  (Inside (replicate n Created)) Hi) as H.
    cbn [task_weight] in H. rewrite sum_list_with_replicate in H.
    cbn [call_weight] in H. lia.
  - pose proof (sum_list_with_insert task_weight ts i _
                  (Inside (<[j := Active]> cs)) Hi) as H.
    pose proof (sum_list_with_insert call_weight cs j _ Active Hj) as H'.
    cbn [task_weight call_weight] in H, H'. lia.
  - pose proof (sum_list_with_insert task_weight ts i _
                  (Inside (<[j := Completed]> cs)) Hi) as H.
    pose proof (sum_list_with_insert call_weight cs j _ Completed Hj) as H'.
    cbn [task_weight call_weight] in H, H'. lia.
  - pose proof (sum_list_with_insert task_weight ts i _ Finished Hi) as H.
    cbn [task_weight] in H.
    rewrite (sum_list_with_zero call_weight cs) in H; [lia|].
    eapply Forall_impl; [exact Hdone|]. by intros c ->.
Qed.

Lemma sem_steps_weight k s s' : sem_steps k s s' -> sem_weight s = k + sem_weight s'.
Proof.
  induction 1 as [|k s s' s'' _ IH Hstep]; [done|].
  apply sem_step_weight in Hstep. lia.
Qed.

Lemma sem_steps_reachable k s s' : sem_steps k s s' -> sem_reachable s s'.
Proof. induction 1; [constructor|by eapply reach_step]. Qed.

Lemma sem_reachable_steps s s' : sem_reachable s s' -> exists k, sem_steps k s s'.
Proof.
  induction 1 as [|s' s'' _ [k IH] Hstep]; [exists 0; constructor|].
  exists (S k). by eapply steps_more.
Qed.

Lemma sem_init_weight K calls :
  sem_weight (sem_init K calls) = sum_list_with (fun n => 2 * n + 2) calls.
Proof.
  unfold sem_weight, sem_init. cbn [tasks].
  induction calls as [|n calls IH]; [done|].
  rewrite fmap_cons. cbn [sum_list_with task_weight]. by rewrite IH.
Qed.

(** A task inside the block can always take a step. *)
Lemma inside_can_step p ts i cs :
  ts !! i = Some (Inside cs) -> exists s', sem_step (SemState p ts) s'.
Proof.
  intros Hi.
  destruct (decide (Created ∈ cs)) as [Hc|Hc].
  { apply list_elem_of_lookup in Hc as [j Hj]. eexists.
    by apply (step_call_start p ts i cs j). }
  destruct (decide (Active ∈ cs)) as [Ha|Ha].
  { apply list_elem_of_lookup in Ha as [j Hj]. eexists.
    by apply (step_call_return p ts i cs j). }
  eexists. apply (step_release p ts i cs Hi).
  apply Forall_forall. intros c Hin. destruct c; done.
Qed.

Lemma no_inside_no_holder (ts : list task_state) :
  (forall i cs, ts !! i <> Some (Inside cs)) ->
  sum_list_with holds_permit ts = 0.
Proof.
  induction ts as [|t ts IH]; intros Hno; [done|].
  simpl. rewrite IH by (intros i cs; apply (Hno (S i))).
  destruct t as [n|cs|]; simpl; try done.
  by destruct (Hno 0 cs).
Qed.

Lemma exists_inside_dec (ts : list task_state) :
  (exists i cs, ts !! i = Some (Inside cs)) \/
  (forall i cs, ts !! i <> Some (Inside cs)).
Proof.
  induction ts as [|t ts [(i & cs & Hi)|Hno]].
  - right. intros i cs. by rewrite lookup_nil.
  - left. by exists (S i), cs.
  - destruct t as [n|cs|].
    + right. intros [|i] cs; [done|apply Hno].
    + left. by exists 0, cs.
    + right. intros [|i] cs; [done|apply Hno].
Qed.

(** X12. At every moment of a batch, the number of document tasks inside
    the [async with sem] block plus the semaphore's counter is
    [max_concurrency]; so at most [max_concurrency] documents are being
    processed at once. *)
Theorem sem_documents_bounded (max_concurrency : nat) (calls : list nat)
    (s : sem_state) :
  sem_reachable (sem_init max_concurrency calls) s ->
  permit_holders s + permits s = max_concurrency /\
  permit_holders s <= max_concurrency.
Proof. intros [Hsum _]%sem_invariant. lia. Qed.

Lemma sem_documents_bounded_witness :
  let s := SemState 2 [Inside [Active; Active; Active]] in
  permit_holders s + permits s = 3 /\ permit_holders s <= 3.
Proof.
  apply (sem_documents_bounded 3 [3]).
  apply (proj1 (pdf_pages_all_in_flight 2 3)).
Defined.

(** X13. In a batch where no document makes more than one remote call (no
    PDF with several pages), at most [max_concurrency] remote calls are in
    flight at any moment. *)
Theorem sem_bounds_calls_without_multipage (max_concurrency : nat)
    (calls : list nat) (s : sem_state) :
  Forall (fun n => n <= 1) calls ->
  sem_reachable (sem_init max_concurrency calls) s ->
  active_calls s <= max_concurrency.
Proof. apply sem_bounds_single_calls. Qed.

Lemma sem_bounds_calls_without_multipage_witness :
  active_calls (SemState 1 [Inside [Active]]) <= 2.
Proof.
  apply (sem_bounds_calls_without_multipage 2 [1]).
  - repeat constructor.
  - apply (proj1 (pdf_pages_all_in_flight 1 1)).
Defined.

(** Progress: with a permit in the semaphore's budget, a reachable state
    with an unfinished task has a successor. *)
Lemma sem_progress (max_concurrency : nat) (calls : list nat)
    (s : sem_state) :
  1 <= max_concurrency ->
  sem_reachable (sem_init max_concurrency calls) s ->
  (exists i t, tasks s !! i = Some t /\ t <> Finished) ->
  exists s', sem_step s s'.
Proof.
  intros HK Hreach (i & t & Hi & Ht).
  apply sem_invariant in Hreach as [Hsum _].
  destruct s as [p ts]. cbn [tasks permits] in *.
  destruct (exists_inside_dec ts) as [(j & cs & Hj)|Hno].
  - by apply (inside_can_step p ts j cs).
  - unfold permit_holders in Hsum. cbn [tasks] in Hsum.
    rewrite no_inside_no_holder in Hsum by done.
    destruct t as [n|cs|]; [|by destruct (Hno i cs)|done].
    destruct p as [|p]; [lia|].
    eexists. by apply (step_acquire p ts i n).
Qed.

(** X14. With [max_concurrency >= 1] the batch cannot deadlock: as long as
    some document task has not finished, a step is possible. *)
Theorem sem_no_deadlock (max_concurrency : nat) (calls : list nat)
    (s : sem_state) :
  1 <= max_concurrency ->
  sem_reachable (sem_init max_concurrency calls) s ->
  (exists i t, tasks s !! i = Some t /\ t <> Finished) ->
  exists s', sem_step s s'.
Proof. apply sem_progress. Qed.

Lemma sem_no_deadlock_witness :
  exists s', sem_step (SemState 0 [Inside [Active; Active]]) s'.
Proof.
  apply (sem_no_deadlock 1 [2]).
  - lia.
  - apply (proj1 (pdf_pages_all_in_flight 0 2)).
  - exists 0, (Inside [Active; Active]). split; [reflexivity|discriminate].
Defined.

(** A state in which every task has finished has no successor. *)
Lemma sem_finished_stuck p ts :
  Forall (fun t => t = Finished) ts -> sem_stuck (SemState p ts).
Proof.
  intros Hfin s' Hstep.
  assert (forall i t, ts !! i = Some t -> t = Finished) as Hall.
  { intros i t Hi. by apply (Forall_lookup_1 _ _ _ _ Hfin Hi). }
  inversion Hstep as
    [p' ts' i n Hi | p' ts' i cs j Hi Hj | p' ts' i cs j Hi Hj
     | p' ts' i cs Hi Hdone]; subst;
    by apply Hall in Hi.
Qed.

(** X15. Every run of a batch is finite: a run from the initial state
    has at most [2 * n + 2] steps per document with [n] remote calls,
    whatever [max_concurrency] is.  With [max_concurrency >= 1] a run that
    ends in a state without successor has exactly that many steps, ends
    with every document task past the block, and leaves the semaphore's
    counter at [max_concurrency] again. *)
Theorem sem_runs_complete (max_concurrency : nat) (calls : list nat)
    (k : nat) (s : sem_state) :
  sem_steps k (sem_init max_concurrency calls) s ->
  k <= sum_list_with (fun n => 2 * n + 2) calls /\
  (1 <= max_concurrency -> sem_stuck s ->
   k = sum_list_with (fun n => 2 * n + 2) calls /\
   Forall (fun t => t = Finished) (tasks s) /\
   permits s = max_concurrency).
Proof.
  intros Hrun.
  pose proof (sem_steps_weight _ _ _ Hrun) as Hw.
  rewrite sem_init_weight in Hw. split; [lia|].
  intros HK Hstuck.
  assert (Forall (fun t => t = Finished) (tasks s)) as Hfin.
  { apply Forall_forall. intros t Ht.
    assert (t = Finished \/ t <> Finished) as [|Hne]
      by (destruct t; [right|right|left]; done); [done|].
    apply list_elem_of_lookup in Ht as [i Hi].
    destruct (sem_progress max_concurrency calls s HK
                (sem_steps_reachable _ _ _ Hrun)) as [s' Hs'].
    - by exists i, t.
    - by destruct (Hstuck s'). }
  assert (sem_weight s = 0) as Hzero.
  { unfold sem_weight. apply sum_list_with_zero.
    eapply Forall_impl; [exact Hfin|]. by intros t ->. }
  split; [lia|]. split; [done|].
  apply sem_steps_reachable, sem_invariant in Hrun as [Hsum _].
  unfold permit_holders in Hsum.
  rewrite (sum_list_with_zero holds_permit) in Hsum; [lia|].
  eapply Forall_impl; [exact Hfin|]. by intros t ->.
Qed.

(** The complete run of a two-page PDF with one permit: acquire, start
    both calls, both return, release. *)
Lemma sem_runs_complete_witness :
  let s := SemState 1 [Finished] in
  sem_steps 6 (sem_init 1 [2]) s /\ sem_stuck s /\
  6 = sum_list_with (fun n => 2 * n + 2) [2] /\
  Forall (fun t => t = Finished) (tasks s) /\ permits s = 1.
Proof.
  assert (sem_steps 6 (sem_init 1 [2]) (SemState 1 [Finished])) as Hrun.
  { eapply steps_more; [eapply steps_more; [eapply steps_more;
      [eapply steps_more; [eapply steps_more; [eapply steps_more;
        [apply steps_none|]|]|]|]|]|].
    - apply (step_acquire 0 [Waiting 2] 0 2). reflexivity.
    - apply (step_call_start 0 [Inside [Created; Created]] 0
               [Created; Created] 0); reflexivity.
    - apply (step_call_start 0 [Inside [Active; Created]] 0
               [Active; Created] 1); reflexivity.
    - apply (step_call_return 0 [Inside [Active; Active]] 0
               [Active; Active] 0); reflexivity.
    - apply (step_call_return 0 [Inside [Completed; Active]] 0
               [Completed; Active] 1); reflexivity.
    - apply (step_release 0 [Inside [Completed; Completed]] 0
               [Completed; Completed]); [reflexivity|].
      repeat constructor. }
  assert (sem_stuck (SemState 1 [Finished])) as Hstuck.
  { apply sem_finished_stuck. repeat constructor. }
  split; [exact Hrun|]. split; [exact Hstuck|].
  apply (proj2 (sem_runs_complete 1 [2] 6 (SemState 1 [Finished]) Hrun));
    [lia|exact Hstuck].
Defined.

(** X16. With [max_concurrency = 0] nothing ever starts: no document task
    enters the block and no remote call is made. *)
Theorem sem_zero_permits_blocks (calls : list nat) (s : sem_state) :
  sem_reachable (sem_init 0 calls) s -> s = sem_init 0 calls.
Proof.
  induction 1 as [|s s' _ -> Hstep]; [done|].
  unfold sem_init in Hstep. exfalso.
  inversion Hstep as
    [p ts i n Hi | p ts i cs j Hi Hj | p ts i cs j Hi Hj | p ts i cs Hi Hdone];
    subst; rewrite list_lookup_fmap in Hi;
    destruct (calls !! i); simplify_eq/=.
Qed.

Lemma sem_zero_permits_blocks_witness :
  sem_init 0 [2; 1] = sem_init 0 [2; 1].
Proof. apply (sem_zero_permits_blocks [2; 1]). apply reach_init. Defined.

(** ** Document classification *)

Lemma str_startswith_spec s p :
  str_startswith s p = true <-> exists post, s = p ++ post.
Proof.
  revert s. induction p as [|c p IH]; intros s; simpl.
  - split; [intros _; by exists s|by intros _].
  - destruct s as [|d s]; simpl.
    + split; [done|]. intros [post Hpost]. done.
    + rewrite andb_true_iff, IH, N.eqb_eq. split.
      * intros [-> [post ->]]. by exists post.
      * intros [post [= -> ->]]. split; [done|by exists post].
Qed.

(** [needle in hay] holds exactly when [needle] occurs in [hay]. *)
Lemma str_contains_spec needle hay :
  str_contains needle hay = true <-> exists pre post, hay = pre ++ needle ++ post.
Proof.
  induction hay as [|d hay IH]; simpl.
  - rewrite orb_false_r, str_startswith_spec. split.
    + intros [post Hpost]. by exists [], post.
    + intros (pre & post & H). symmetry in H.
      apply app_eq_nil in H as [-> H]. apply app_eq_nil in H as [-> ->].
      by exists [].
  - rewrite orb_true_iff, str_startswith_spec, IH. split.
    + intros [[post Hpost]|(pre & post & ->)].
      * by exists [], post.
      * by exists (d :: pre), post.
    + intros (pre & post & H). destruct pre as [|c pre].
      * left. by exists post.
      * right. injection H as -> ->. by exists pre, post.
Qed.

(** X17. The stub classifier never answers "ambiguous": it answers "claim"
    exactly when the lower-cased text contains one of the five keywords
    somewhere, inside a longer word or not, and "medical" otherwise. *)
Theorem classify_document_keywords (str_lower : pystr -> pystr)
    (text model : pystr) :
  exists b, is_claim (classify_document str_lower text model) = Some b /\
    (b = true <->
     exists keyword pre post,
       keyword ∈ CLAIM_KEYWORDS /\ str_lower text = pre ++ keyword ++ post).
Proof.
  eexists. split; [reflexivity|].
  rewrite existsb_exists. split.
  - intros (keyword & Hin & (pre & post & H)%str_contains_spec).
    exists keyword, pre, post. split; [by apply list_elem_of_In|done].
  - intros (keyword & pre & post & Hin & H).
    exists keyword. split; [by apply list_elem_of_In|].
    apply str_contains_spec. by exists pre, post.
Qed.

Section BatchClassifyFacts.
Variable str_lower : pystr -> pystr.

Lemma classify_step_cases all_medical all_claims file_path text :
  classify_step str_lower (all_medical, all_claims) (file_path, text)
  = if decide (text = []) then (all_medical, all_claims)
    else if classified_as_claim str_lower text
         then (all_medical, all_claims ++ [from_section file_path text])
         else (all_medical ++ [from_section file_path text], all_claims).
Proof.
  unfold classify_step, split_documents, classify_document. cbn [is_claim].
  fold (classified_as_claim str_lower text).
  destruct (classified_as_claim str_lower text); cbn [medical claim];
    destruct (decide (text = [])) as [->|Hne];
    repeat case_decide; done.
Qed.

Lemma fold_classify_step documents all_medical all_claims :
  fold_left (classify_step str_lower) documents (all_medical, all_claims)
  = (all_medical
       ++ ((fun d => from_section (fst d) (snd d))
             <$> filter (fun d => snd d <> [] /\ classified_as_claim str_lower (snd d) = false)
                        documents),
     all_claims
       ++ ((fun d => from_section (fst d) (snd d))
             <$> filter (fun d => snd d <> [] /\ classified_as_claim str_lower (snd d) = true)
                        documents)).
Proof.
  revert all_medical all_claims.
  induction documents as [|[file_path text] documents IH];
    intros all_medical all_claims.
  - simpl. by rewrite !app_nil_r.
  - cbn [fold_left]. rewrite classify_step_cases.
    destruct (decide (text = [])) as [->|Hne].
    + rewrite IH, !filter_cons_False by (simpl; tauto). done.
    + destruct (classified_as_claim str_lower text) eqn:Hc; rewrite IH.
      * rewrite (filter_cons_False _ (file_path, text)) by (simpl; intros [_ ?]; congruence).
        rewrite (filter_cons_True _ (file_path, text)) by done.
        rewrite fmap_cons, <- app_assoc. done.
      * rewrite (filter_cons_True _ (file_path, text)) by done.
        rewrite (filter_cons_False _ (file_path, text)) by (simpl; intros [_ ?]; congruence).
        rewrite fmap_cons, <- app_assoc. done.
Qed.

Lemma batch_classify_closed documents :
  batch_classify_documents str_lower documents
  = MkSplit
      (str_join [NL; NL]
         ((fun d => from_section (fst d) (snd d))
            <$> filter (fun d => snd d <> [] /\ classified_as_claim str_lower (snd d) = false)
                       documents))
      (str_join [NL; NL]
         ((fun d => from_section (fst d) (snd d))
            <$> filter (fun d => snd d <> [] /\ classified_as_claim str_lower (snd d) = true)
                       documents)).
Proof. unfold batch_classify_documents. by rewrite fold_classify_step. Qed.
End BatchClassifyFacts.

(** X18. [batch_classify_documents] sorts the documents by the stub's
    answer: the "medical" text is made of the sections of the documents
    with a non-empty text that is not classified as a claim, the "claim"
    text of the sections of those classified as a claim, each in the
    dict's order and joined by blank lines; no document goes to both, and
    each section holds the whole text of its document after its header. *)
Theorem batch_classify_sorts_documents (str_lower : pystr -> pystr)
    (documents : list (pystr * pystr)) :
  let r := batch_classify_documents str_lower documents in
  let section := fun d : pystr * pystr => from_section (fst d) (snd d) in
  medical r
  = str_join [NL; NL]
      (section <$> filter (fun d => snd d <> [] /\
                                    classified_as_claim str_lower (snd d) = false)
                          documents) /\
  claim r
  = str_join [NL; NL]
      (section <$> filter (fun d => snd d <> [] /\
                                    classified_as_claim str_lower (snd d) = true)
                          documents).
Proof. cbv zeta. by rewrite batch_classify_closed. Qed.

(** X19. A document whose text is empty (the entry every failed or
    unsupported document gets from the extraction) leaves no trace in
    either output: the result is the same as without it. *)
Theorem batch_classify_drops_empty_text (str_lower : pystr -> pystr)
    (before after : list (pystr * pystr)) (file_path : pystr) :
  batch_classify_documents str_lower (before ++ (file_path, []) :: after)
  = batch_classify_documents str_lower (before ++ after).
Proof.
  rewrite !batch_classify_closed, !filter_app.
  by rewrite !filter_cons_False by (simpl; tauto).
Qed.

Example batch_classify_sample :
  batch_classify_documents ascii_lower sample_documents
  = MkSplit
      (from_section (py "a.pdf") (py "Patient presents with chest pain"))
      (from_section (py "c.docx") (py "The plaintiff alleges medical MALPRACTICE")
       ++ [NL; NL]
       ++ from_section (py "d.txt") (py "Disclaimer: for internal use")).
Proof. vm_compute. reflexivity. Qed.

(** ** The synthetic data generator *)

Lemma returns_ret {St A} (a : A) (P : A -> Prop) :
  P a -> returns (mret a : Gen St A) P.
Proof. intros Ha s. exists a, s. done. Qed.

Lemma returns_bind {St A B} (m : Gen St A) (f : A -> Gen St B) P Q :
  returns m P -> (forall a, P a -> returns (f a) Q) -> returns (m ≫= f) Q.
Proof.
  intros Hm Hf s.
  destruct (Hm s) as (a & s' & E & Ha).
  destruct (Hf a Ha s') as (b & s'' & E' & Hb).
  exists b, s''. split; [|done].
  unfold mbind, Gen_bind. rewrite E. done.
Qed.

Lemma returns_gen_lift {St A} (a : A) :
  returns (gen_lift (inl a) : Gen St A) (fun r => r = a).
Proof. intros s. by exists a, s. Qed.

Lemma returns_mono {St A} (m : Gen St A) (P Q : A -> Prop) :
  returns m P -> (forall a, P a -> Q a) -> returns m Q.
Proof.
  intros Hm HPQ s. destruct (Hm s) as (a & s' & E & Ha).
  exists a, s'. auto.
Qed.

Lemma returns_gen_for {St A B} (f : A -> Gen St B) (Q : A -> B -> Prop) l :
  (forall x, x ∈ l -> returns (f x) (Q x)) ->
  returns (gen_for f l) (fun ys => Forall2 Q l ys).
Proof.
  induction l as [|x l IH]; intros Hf; cbn [gen_for].
  - apply returns_ret. constructor.
  - eapply returns_bind; [apply Hf; left|]. intros y Hy.
    eapply returns_bind; [apply IH; intros; apply Hf; by right|]. intros ys Hys.
    apply returns_ret. by constructor.
Qed.

Section GeneratorLemmas.
Context {St DT : Type} (rt : Runtime St DT) (Hrt : runtime_ok rt).

Lemma returns_randint a b :
  (a <= b)%Z -> returns (randint rt a b) (fun z => (a <= z <= b)%Z).
Proof.
  intros Hab s. unfold randint.
  destruct (Z.ltb_spec b a); [lia|].
  eexists _, _. split; [done|]. by apply (randint_range _ Hrt).
Qed.

Lemma returns_choice {A} (l : list A) :
  l <> [] -> returns (choice rt l) (fun x => x ∈ l).
Proof.
  intros Hl s. destruct l as [|x l]; [done|]. unfold choice.
  eexists _, _. split; [done|].
  apply list_elem_of_In, nth_In.
  apply (randbelow_range _ Hrt). cbn [length]. lia.
Qed.

Lemma returns_sample pop k :
  (0 <= k <= Z.of_nat (length pop))%Z ->
  returns (sample rt pop k)
    (fun l => length l = Z.to_nat k /\ exists rest, Permutation (l ++ rest) pop).
Proof.
  intros Hk s. unfold sample.
  destruct (Z.ltb_spec k 0); [lia|].
  destruct (Z.ltb_spec (Z.of_nat (length pop)) k); [lia|]. cbn [orb].
  eexists _, _. split; [done|]. apply (sample_ok _ Hrt). lia.
Qed.

Lemma returns_random_below p : returns (random_below rt p) (fun _ => True).
Proof. intros s. unfold random_below. by eexists _, _. Qed.

Lemma returns_now : returns (now rt) (fun _ => True).
Proof. intros s. unfold now. by eexists _, _. Qed.

Lemma returns_strptime d :
  returns (strptime rt (rt_strftime rt d))
    (fun base => rt_strptime rt (rt_strftime rt d) = Some base).
Proof.
  intros s. unfold strptime.
  destruct (strptime_strftime _ Hrt d) as [base E]. rewrite E.
  by eexists _, _.
Qed.

End GeneratorLemmas.

(** A sample without replacement of a list without duplicates. *)
Lemma sample_NoDup (pop l rest : list pystr) :
  NoDup pop -> Permutation (l ++ rest) pop -> NoDup l /\ l ⊆ pop.
Proof.
  intros Hpop Hperm. split.
  - rewrite <- Hperm in Hpop. by apply NoDup_app in Hpop as [? _].
  - intros x Hx. rewrite <- Hperm. apply elem_of_app. by left.
Qed.

Lemma MEDICAL_CONDITIONS_NoDup : NoDup MEDICAL_CONDITIONS.
Proof. refine (bool_decide_unpack _ _). by vm_compute. Qed.

Lemma SURGICAL_HISTORY_NoDup : NoDup SURGICAL_HISTORY.
Proof. refine (bool_decide_unpack _ _). by vm_compute. Qed.

Lemma MEDICATIONS_NoDup : NoDup MEDICATIONS.
Proof. refine (bool_decide_unpack _ _). by vm_compute. Qed.

Lemma string_of_pystr_py s : string_of_pystr (py s) = s.
Proof.
  unfold string_of_pystr, py. rewrite <- list_fmap_compose.
  rewrite <- (string_of_list_ascii_of_string s) at 2. f_equal.
  induction (list_ascii_of_string s) as [|a l IH]; [done|].
  cbn. by rewrite ascii_N_embedding, IH.
Qed.

Lemma counter_runtime_ok : runtime_ok counter_runtime.
Proof.
  split; unfold counter_runtime;
    cbn [rt_randint rt_randbelow rt_sample rt_strptime rt_strftime fst].
  - intros a b s Hab.
    pose proof (Z.mod_pos_bound (Z.of_nat s) (b - a + 1)). lia.
  - intros n s Hn. apply Nat.mod_upper_bound. lia.
  - intros pop k s Hk. split.
    + rewrite length_take, length_rotate. lia.
    + exists (drop k (rotate s pop)). rewrite take_drop.
      unfold rotate. rewrite Permutation_app_comm. by rewrite take_drop.
  - intros d. unfold str_of_nat. rewrite string_of_pystr_py.
    rewrite DecimalString.NilEmpty.usu. by eexists.
Qed.

Lemma year_length y : (2010 <= y <= 2023)%Z -> length (str_of_Z y) = 4.
Proof.
  intros Hy.
  assert (exists k, k < 14 /\ y = (2010 + Z.of_nat k)%Z) as (k & Hk & ->).
  { exists (Z.to_nat (y - 2010)). lia. }
  do 14 (destruct k as [|k]; [by vm_compute|]). lia.
Qed.

(** Entries built from distinct names by suffixes of one length are
    distinct. *)
Lemma suffixed_NoDup (R : pystr -> pystr -> Prop) n names entries :
  (forall name entry, R name entry ->
     exists suffix, length suffix = n /\ entry = name ++ suffix) ->
  NoDup names -> Forall2 R names entries -> NoDup entries.
Proof.
  intros HR Hnd Hall. induction Hall as [|name entry names entries H Hall IH].
  - constructor.
  - apply NoDup_cons in Hnd as [Hnotin Hnd]. apply NoDup_cons. split; [|auto].
    intros Hin. apply Hnotin.
    destruct (HR _ _ H) as (suffix & Hlen & ->).
    destruct (proj1 (list_elem_of_lookup entries _) Hin) as [i Hi].
    destruct (Forall2_lookup_r _ _ _ _ _ Hall Hi) as (name' & Hname' & HR').
    destruct (HR _ _ HR') as (suffix' & Hlen' & E).
    apply app_inj_2 in E as [-> _]; [|congruence].
    by eapply list_elem_of_lookup_2.
Qed.

Section GeneratorSpecs.
Context {St DT : Type} (rt : Runtime St DT) (Hrt : runtime_ok rt).

Lemma generate_patient_demographics_returns :
  returns (generate_patient_demographics rt) (fun d =>
    (25 <= age d <= 75)%Z /\ sex d ∈ [py "M"; py "F"] /\
    occupation d ∈ OCCUPATIONS).
Proof.
  unfold generate_patient_demographics.
  eapply returns_bind; [by apply returns_randint|]. intros a Ha; cbv beta in Ha.
  eapply returns_bind; [by apply returns_choice|]. intros sx Hsx; cbv beta in Hsx.
  eapply returns_bind; [by apply returns_randint|]. intros id _.
  eapply returns_bind; [by apply returns_choice|]. intros oc Hoc; cbv beta in Hoc.
  by apply returns_ret.
Qed.

Lemma generate_medical_history_returns :
  returns (generate_medical_history rt) (fun history =>
    exists conditions,
      1 <= length conditions <= 4 /\ NoDup conditions /\
      conditions ⊆ MEDICAL_CONDITIONS /\
      Forall2 (fun condition entry =>
                 exists year, (2015 <= year <= 2023)%Z /\
                   entry = condition ++ py " (diagnosed " ++ str_of_Z year
                           ++ py ")")
              conditions history).
Proof.
  unfold generate_medical_history.
  eapply returns_bind; [by apply returns_randint|]. intros n Hn; cbv beta in Hn.
  eapply returns_bind.
  { apply returns_sample; [done|]. cbn [MEDICAL_CONDITIONS length]. lia. }
  intros conditions [Hlen [rest Hperm]].
  destruct (sample_NoDup _ _ _ MEDICAL_CONDITIONS_NoDup Hperm) as [Hnd Hsub].
  eapply returns_mono.
  { apply returns_gen_for with
      (Q := fun condition entry =>
              exists year, (2015 <= year <= 2023)%Z /\
                entry = condition ++ py " (diagnosed " ++ str_of_Z year
                        ++ py ")").
    intros condition _.
    eapply returns_bind; [by apply returns_randint|]. intros year Hyear; cbv beta in Hyear.
    apply returns_ret. by exists year. }
  intros history Hall. exists conditions. repeat split; [lia|lia|done|done|done].
Qed.

Lemma generate_surgical_history_returns :
  returns (generate_surgical_history rt) (fun history =>
    exists surgeries,
      length surgeries <= 3 /\ NoDup surgeries /\
      surgeries ⊆ SURGICAL_HISTORY /\
      Forall2 (fun surgery entry =>
                 exists year, (2010 <= year <= 2022)%Z /\
                   entry = surgery ++ py " (" ++ str_of_Z year ++ py ")")
              surgeries history).
Proof.
  unfold generate_surgical_history.
  eapply returns_bind; [apply returns_random_below|]. intros [] _.
  { apply returns_ret. exists []. repeat split; [cbn; lia|constructor|set_solver|constructor]. }
  eapply returns_bind; [by apply returns_randint|]. intros n Hn; cbv beta in Hn.
  eapply returns_bind.
  { apply returns_sample; [done|]. cbn [SURGICAL_HISTORY length]. lia. }
  intros surgeries [Hlen [rest Hperm]].
  destruct (sample_NoDup _ _ _ SURGICAL_HISTORY_NoDup Hperm) as [Hnd Hsub].
  eapply returns_mono.
  { apply returns_gen_for with
      (Q := fun surgery entry =>
              exists year, (2010 <= year <= 2022)%Z /\
                entry = surgery ++ py " (" ++ str_of_Z year ++ py ")").
    intros surgery _.
    eapply returns_bind; [by apply returns_randint|]. intros year Hyear; cbv beta in Hyear.
    apply returns_ret. by exists year. }
  intros history Hall. exists surgeries.
  cbn [SURGICAL_HISTORY length] in Hlen. repeat split; [lia|done|done|done].
Qed.

Lemma generate_medications_returns :
  returns (generate_medications rt) (fun meds =>
    length meds <= 5 /\ NoDup meds /\ meds ⊆ MEDICATIONS).
Proof.
  unfold generate_medications.
  eapply returns_bind; [apply returns_random_below|]. intros [] _.
  { apply returns_ret. repeat split; [cbn; lia|constructor|set_solver]. }
  eapply returns_bind; [by apply returns_randint|]. intros n Hn; cbv beta in Hn.
  eapply returns_mono.
  { apply returns_sample; [done|]. cbn [MEDICATIONS length]. lia. }
  intros meds [Hlen [rest Hperm]].
  destruct (sample_NoDup _ _ _ MEDICATIONS_NoDup Hperm) as [Hnd Hsub].
  cbn [MEDICATIONS length] in Hlen. repeat split; [lia|done|done].
Qed.

Lemma generate_episode_vdc_returns :
  returns (generate_episode_vdc rt) (fun e =>
    (exists d, ep_date e = rt_strftime rt d) /\
    exists t, t ∈ EPISODES_VDC /\
      ep_chief_complaint e = vt_chief_complaint t /\
      ep_diagnosis e = vt_diagnosis t /\
      ep_treatment e = vt_treatment t /\
      ep_keys e = VdcKeys (vt_expected_injury_days t)
                    (vt_expected_disability_points t)
                    (py "Patient improved with treatment, residual limitations persist.")
                    (py "Stable, ongoing rehabilitation")).
Proof.
  unfold generate_episode_vdc.
  eapply returns_bind; [by apply returns_choice|]. intros t Ht; cbv beta in Ht.
  eapply returns_bind; [apply returns_now|]. intros today _.
  eapply returns_bind; [by apply returns_randint|]. intros days _.
  eapply returns_bind; [by apply returns_choice|]. intros location _.
  apply returns_ret. split; [by eexists|].
  exists t. cbn. by repeat split.
Qed.

Lemma generate_episode_praxis_returns :
  returns (generate_episode_praxis rt) (fun e =>
    (exists d, ep_date e = rt_strftime rt d) /\
    exists t, t ∈ EPISODES_PRAXIS /\
      ep_chief_complaint e = pt_chief_complaint t /\
      ep_diagnosis e = pt_diagnosis t /\
      ep_treatment e = pt_treatment t /\
      ep_keys e =
        PraxisKeys (pt_allegation t) (pt_lex_artis_met t)
          (if pt_lex_artis_met t
           then py "Standard of care was met. No malpractice identified."
           else py "Deviation from standard of care identified.")
          (pt_reasoning t)).
Proof.
  unfold generate_episode_praxis.
  eapply returns_bind; [by apply returns_choice|]. intros t Ht; cbv beta in Ht.
  eapply returns_bind; [apply returns_now|]. intros today _.
  eapply returns_bind; [by apply returns_randint|]. intros days _.
  eapply returns_bind; [by apply returns_choice|]. intros location _.
  apply returns_ret. split; [by eexists|].
  exists t. cbn. by repeat split.
Qed.

Lemma follow_up_documents_return e d n :
  ep_date e = rt_strftime rt d ->
  exists base, rt_strptime rt (ep_date e) = Some base /\
    returns (gen_for (follow_up_document rt e) (seq 0 n)) (fun docs =>
      length docs = n /\
      forall i doc, docs !! i = Some doc ->
        doc_type doc ∈ [py "Follow-up Note"; py "Lab Report";
                        py "Imaging Report"] /\
        doc_date doc
          = rt_strftime rt (rt_add_days rt base (7 * (Z.of_nat i + 1))) /\
        doc_text doc
          = py "Follow-up " ++ str_of_Z (Z.of_nat i + 1)
            ++ py ": Patient progress noted. Continuing treatment plan.").
Proof.
  intros Hdate.
  destruct (strptime_strftime _ Hrt d) as [base Hbase].
  exists base. split; [by rewrite Hdate|].
  eapply returns_mono.
  { apply returns_gen_for with
      (Q := fun i doc =>
        doc_type doc ∈ [py "Follow-up Note"; py "Lab Report";
                        py "Imaging Report"] /\
        doc_date doc
          = rt_strftime rt (rt_add_days rt base (7 * (Z.of_nat i + 1))) /\
        doc_text doc
          = py "Follow-up " ++ str_of_Z (Z.of_nat i + 1)
            ++ py ": Patient progress noted. Continuing treatment plan.").
    intros i _. unfold follow_up_document. rewrite Hdate.
    eapply returns_bind; [by apply returns_strptime|]. intros base' Hbase'.
    assert (base' = base) as -> by congruence.
    eapply returns_bind; [by apply returns_choice|]. intros type Htype; cbv beta in Htype.
    by apply returns_ret. }
  intros docs Hall. split.
  { apply Forall2_length in Hall. by rewrite length_seq in Hall. }
  intros i doc Hi.
  destruct (Forall2_lookup_r _ _ _ _ _ Hall Hi) as (j & Hj & HQ).
  apply lookup_seq in Hj as [-> _]. done.
Qed.

Lemma generate_synthetic_case_returns report_type complexity :
  returns (generate_synthetic_case rt report_type complexity) (fun c =>
    case_report_type c = report_type /\ case_complexity c = complexity /\
    (if decide (report_type = py "vdc")
     then (exists t, t ∈ EPISODES_VDC /\
             ep_diagnosis (current_episode c) = vt_diagnosis t /\
             ep_keys (current_episode c)
               = VdcKeys (vt_expected_injury_days t)
                   (vt_expected_disability_points t)
                   (py "Patient improved with treatment, residual limitations persist.")
                   (py "Stable, ongoing rehabilitation")) /\
          generate_expected_report_vdc (patient_demographics c)
            (current_episode c) (medical_history c)
          = inl (case_expected_report c)
     else (exists t, t ∈ EPISODES_PRAXIS /\
             ep_diagnosis (current_episode c) = pt_diagnosis t /\
             ep_keys (current_episode c)
             = PraxisKeys (pt_allegation t) (pt_lex_artis_met t)
                 (if pt_lex_artis_met t
                  then py "Standard of care was met. No malpractice identified."
                  else py "Deviation from standard of care identified.")
                 (pt_reasoning t)) /\
          generate_expected_report_praxis (patient_demographics c)
            (current_episode c) (medical_history c)
          = inl (case_expected_report c)) /\
    exists follow_ups base,
      documents c
      = Document (py "Emergency Room Report") (ep_date (current_episode c))
          (generate_document_text (current_episode c) (patient_demographics c)
             (medical_history c)) :: follow_ups /\
      (complexity <> py "complex" -> follow_ups = []) /\
      (complexity = py "complex" -> 3 <= length follow_ups <= 7) /\
      rt_strptime rt (ep_date (current_episode c)) = Some base /\
      forall i doc, follow_ups !! i = Some doc ->
        doc_type doc ∈ [py "Follow-up Note"; py "Lab Report";
                        py "Imaging Report"] /\
        doc_date doc
          = rt_strftime rt (rt_add_days rt base (7 * (Z.of_nat i + 1))) /\
        doc_text doc
          = py "Follow-up " ++ str_of_Z (Z.of_nat i + 1)
            ++ py ": Patient progress noted. Continuing treatment plan.").
Proof.
  unfold generate_synthetic_case.
  eapply returns_bind; [apply generate_patient_demographics_returns|].
  intros d _.
  eapply returns_bind; [apply generate_medical_history_returns|].
  intros h _.
  eapply returns_bind; [apply generate_surgical_history_returns|].
  intros sh _.
  eapply returns_bind; [apply generate_medications_returns|].
  intros meds _.
  eapply returns_bind with
    (P := fun er : episode * expected_report =>
       (exists dt, ep_date (fst er) = rt_strftime rt dt) /\
       if decide (report_type = py "vdc")
       then (exists t, t ∈ EPISODES_VDC /\
               ep_diagnosis (fst er) = vt_diagnosis t /\
               ep_keys (fst er)
                 = VdcKeys (vt_expected_injury_days t)
                     (vt_expected_disability_points t)
                     (py "Patient improved with treatment, residual limitations persist.")
                     (py "Stable, ongoing rehabilitation")) /\
            generate_expected_report_vdc d (fst er) h = inl (snd er)
       else (exists t, t ∈ EPISODES_PRAXIS /\
               ep_diagnosis (fst er) = pt_diagnosis t /\
               ep_keys (fst er)
               = PraxisKeys (pt_allegation t) (pt_lex_artis_met t)
                   (if pt_lex_artis_met t
                    then py "Standard of care was met. No malpractice identified."
                    else py "Deviation from standard of care identified.")
                   (pt_reasoning t)) /\
            generate_expected_report_praxis d (fst er) h = inl (snd er)).
  { destruct (decide (report_type = py "vdc")) as [Hty|Hty].
    - eapply returns_bind; [apply generate_episode_vdc_returns|].
      intros e (Hdate & t & Ht & Hcc & Hdi & Htr & Hkeys).
      assert (exists r, generate_expected_report_vdc d e h = inl r) as [r Hr].
      { unfold generate_expected_report_vdc. rewrite Hkeys. by eexists. }
      rewrite Hr.
      eapply returns_bind; [apply returns_gen_lift|]. intros r' ->.
      apply returns_ret. cbn [fst snd]. split; [done|].
      split; [|done]. by exists t.
    - eapply returns_bind; [apply generate_episode_praxis_returns|].
      intros e (Hdate & t & Ht & Hcc & Hdi & Htr & Hkeys).
      assert (exists r, generate_expected_report_praxis d e h = inl r) as [r Hr].
      { unfold generate_expected_report_praxis. rewrite Hkeys. by eexists. }
      rewrite Hr.
      eapply returns_bind; [apply returns_gen_lift|]. intros r' ->.
      apply returns_ret. cbn [fst snd]. split; [done|].
      split; [|done]. by exists t. }
  intros [e r] [[dt Hdate] Her]. cbn [fst snd] in Hdate, Her.
  destruct (follow_up_documents_return e dt) with (n := 0) as (base & Hbase & _);
    [done|].
  eapply returns_bind with
    (P := fun docs => exists follow_ups,
       docs = Document (py "Emergency Room Report") (ep_date e)
                (generate_document_text e d h) :: follow_ups /\
       (complexity <> py "complex" -> follow_ups = []) /\
       (complexity = py "complex" -> 3 <= length follow_ups <= 7) /\
       forall i doc, follow_ups !! i = Some doc ->
         doc_type doc ∈ [py "Follow-up Note"; py "Lab Report";
                         py "Imaging Report"] /\
         doc_date doc
           = rt_strftime rt (rt_add_days rt base (7 * (Z.of_nat i + 1))) /\
         doc_text doc
           = py "Follow-up " ++ str_of_Z (Z.of_nat i + 1)
             ++ py ": Patient progress noted. Continuing treatment plan.").
  { destruct (decide (complexity = py "complex")) as [Hcx|Hcx].
    - eapply returns_bind; [by apply returns_randint|]. intros n Hn; cbv beta in Hn.
      destruct (follow_up_documents_return e dt (Z.to_nat n) Hdate)
        as (base' & Hbase' & Hdocs).
      assert (base' = base) as -> by congruence.
      eapply returns_bind; [apply Hdocs|]. intros fu [Hlen Hfu].
      apply returns_ret. exists fu.
      split; [done|]. split; [done|]. split; [intros _; lia|]. exact Hfu.
    - apply returns_ret. exists [].
      split; [done|]. split; [done|]. split; [done|]. intros i doc Hi. done. }
  intros docs (fu & -> & Hsimple & Hcomplex & Hfu).
  eapply returns_bind; [by apply returns_randint|]. intros id _.
  eapply returns_bind; [apply returns_now|]. intros today _.
  apply returns_ret. cbn.
  split; [done|]. split; [done|]. split; [done|].
  exists fu, base. done.
Qed.

End GeneratorSpecs.

Lemma split_comma_nonempty s : split_comma s <> [].
Proof.
  destruct s as [|c t]; cbn [split_comma]; [done|].
  destruct (c =? 44)%N; [done|]. by destruct (split_comma t).
Qed.

Lemma Forall2_Forall_entries {A B} (R : A -> B -> Prop) (P : B -> Prop) l k :
  (forall x y, x ∈ l -> R x y -> P y) -> Forall2 R l k -> Forall P k.
Proof.
  intros HP Hall. induction Hall as [|x y l k H Hall IH]; constructor.
  - apply (HP x); [left|done].
  - apply IH. intros x' y' Hx'. apply HP. by right.
Qed.

Lemma generate_dataset_returns {St DT} (rt : Runtime St DT) count
    report_types complexity :
  runtime_ok rt -> report_types <> [] ->
  returns (generate_dataset rt count report_types complexity) (fun dataset =>
    length dataset = Z.to_nat count /\
    Forall (fun c =>
              case_report_type c ∈ report_types /\
              case_complexity c = complexity /\
              (report_type_of (case_expected_report c) = py "vdc"
               <-> case_report_type c = py "vdc")) dataset).
Proof.
  intros Hrt Hne. unfold generate_dataset.
  eapply returns_mono.
  { apply returns_gen_for with
      (Q := fun (_ : nat) c =>
              case_report_type c ∈ report_types /\
              case_complexity c = complexity /\
              (report_type_of (case_expected_report c) = py "vdc"
               <-> case_report_type c = py "vdc")).
    intros i _.
    eapply returns_bind; [by apply returns_choice|].
    intros report_type Hin; cbv beta in Hin.
    eapply returns_mono; [by apply generate_synthetic_case_returns|].
    intros c (Hty & Hcx & Her & _). cbv beta.
    rewrite Hty. split; [done|]. split; [done|].
    destruct (decide (report_type = py "vdc")) as [E|E].
    - destruct Her as [(t & _ & _ & Hkeys) Hrep].
      unfold generate_expected_report_vdc in Hrep. rewrite Hkeys in Hrep.
      injection Hrep as <-. done.
    - destruct Her as [(t & _ & _ & Hkeys) Hrep].
      unfold generate_expected_report_praxis in Hrep. rewrite Hkeys in Hrep.
      injection Hrep as <-. cbn [report_type_of]. split; [|done].
      intros Habs. by vm_compute in Habs. }
  intros dataset Hall. split.
  - apply Forall2_length in Hall. by rewrite length_seq in Hall.
  - eapply Forall2_Forall_entries; [|exact Hall]. by intros i c _ Hc.
Qed.

(** X20. [generate_medical_history] never raises under the library's
    guarantees: it returns between one and four entries, each a condition
    of [MEDICAL_CONDITIONS] followed by [" (diagnosed YEAR)"] with a year
    from 2015 to 2023, and no entry occurs twice. *)
Theorem generate_medical_history_entries {St DT} (rt : Runtime St DT) :
  runtime_ok rt ->
  returns (generate_medical_history rt) (fun history =>
    1 <= length history <= 4 /\ NoDup history /\
    Forall (fun entry =>
              exists condition year,
                condition ∈ MEDICAL_CONDITIONS /\ (2015 <= year <= 2023)%Z /\
                entry = condition ++ py " (diagnosed " ++ str_of_Z year
                        ++ py ")") history).
Proof.
  intros Hrt.
  eapply returns_mono; [by apply generate_medical_history_returns|].
  intros history (conditions & Hlen & Hnd & Hsub & Hall). cbv beta.
  split; [|split].
  - apply Forall2_length in Hall. lia.
  - eapply (suffixed_NoDup _ 17); [|exact Hnd|exact Hall].
    intros name entry (year & Hyear & ->). eexists. split; [|done].
    rewrite !length_app, year_length by lia. done.
  - eapply Forall2_Forall_entries; [|exact Hall].
    intros condition entry Hin (year & Hyear & ->).
    exists condition, year. auto.
Qed.

Lemma generate_medical_history_entries_witness :
  exists history s',
    generate_medical_history counter_runtime 5 = (inl history, s') /\
    1 <= length history <= 4 /\ NoDup history /\
    Forall (fun entry =>
              exists condition year,
                condition ∈ MEDICAL_CONDITIONS /\ (2015 <= year <= 2023)%Z /\
                entry = condition ++ py " (diagnosed " ++ str_of_Z year
                        ++ py ")") history.
Proof.
  apply (generate_medical_history_entries counter_runtime).
  exact counter_runtime_ok.
Defined.

(** X21. [generate_surgical_history] never raises under the library's
    guarantees: it returns at most three entries, each a surgery of
    [SURGICAL_HISTORY] followed by [" (YEAR)"] with a year from 2010 to
    2022, and no entry occurs twice. *)
Theorem generate_surgical_history_entries {St DT} (rt : Runtime St DT) :
  runtime_ok rt ->
  returns (generate_surgical_history rt) (fun history =>
    length history <= 3 /\ NoDup history /\
    Forall (fun entry =>
              exists surgery year,
                surgery ∈ SURGICAL_HISTORY /\ (2010 <= year <= 2022)%Z /\
                entry = surgery ++ py " (" ++ str_of_Z year ++ py ")")
           history).
Proof.
  intros Hrt.
  eapply returns_mono; [by apply generate_surgical_history_returns|].
  intros history (surgeries & Hlen & Hnd & Hsub & Hall). cbv beta.
  split; [|split].
  - apply Forall2_length in Hall. lia.
  - eapply (suffixed_NoDup _ 7); [|exact Hnd|exact Hall].
    intros name entry (year & Hyear & ->). eexists. split; [|done].
    rewrite !length_app, year_length by lia. done.
  - eapply Forall2_Forall_entries; [|exact Hall].
    intros surgery entry Hin (year & Hyear & ->).
    exists surgery, year. auto.
Qed.

Lemma generate_surgical_history_entries_witness :
  exists history s',
    generate_surgical_history counter_runtime 5 = (inl history, s') /\
    length history <= 3 /\ NoDup history /\
    Forall (fun entry =>
              exists surgery year,
                surgery ∈ SURGICAL_HISTORY /\ (2010 <= year <= 2022)%Z /\
                entry = surgery ++ py " (" ++ str_of_Z year ++ py ")")
           history.
Proof.
  apply (generate_surgical_history_entries counter_runtime).
  exact counter_runtime_ok.
Defined.

(** X22. [generate_medications] never raises under the library's
    guarantees: it returns at most five medications of [MEDICATIONS], none
    of them twice. *)
Theorem generate_medications_distinct {St DT} (rt : Runtime St DT) :
  runtime_ok rt ->
  returns (generate_medications rt) (fun meds =>
    length meds <= 5 /\ NoDup meds /\ meds ⊆ MEDICATIONS).
Proof. intros Hrt. by apply generate_medications_returns. Qed.

Lemma generate_medications_distinct_witness :
  exists meds s',
    generate_medications counter_runtime 5 = (inl meds, s') /\
    length meds <= 5 /\ NoDup meds /\ meds ⊆ MEDICATIONS.
Proof.
  apply (generate_medications_distinct counter_runtime).
  exact counter_runtime_ok.
Defined.

(** X23. [generate_synthetic_case] never raises under the library's
    guarantees, whatever strings it is given: the case repeats
    [report_type] and [complexity] as given, and its expected report is a
    VDC report when [report_type] is ["vdc"] and a praxis report for every
    other string. *)
Theorem generate_synthetic_case_report_kind {St DT} (rt : Runtime St DT)
    (report_type complexity : pystr) :
  runtime_ok rt ->
  returns (generate_synthetic_case rt report_type complexity) (fun c =>
    case_report_type c = report_type /\ case_complexity c = complexity /\
    (report_type = py "vdc" ->
       report_type_of (case_expected_report c) = py "vdc") /\
    (report_type <> py "vdc" ->
       report_type_of (case_expected_report c) = py "praxis")).
Proof.
  intros Hrt.
  eapply returns_mono; [by apply generate_synthetic_case_returns|].
  intros c (Hty & Hcx & Her & _). cbv beta.
  split; [done|]. split; [done|].
  destruct (decide (report_type = py "vdc")) as [E|E].
  - destruct Her as [(t & _ & _ & Hkeys) Hrep].
    unfold generate_expected_report_vdc in Hrep. rewrite Hkeys in Hrep.
    injection Hrep as <-. done.
  - destruct Her as [(t & _ & _ & Hkeys) Hrep].
    unfold generate_expected_report_praxis in Hrep. rewrite Hkeys in Hrep.
    injection Hrep as <-. done.
Qed.

Lemma generate_synthetic_case_report_kind_witness :
  exists c s',
    generate_synthetic_case counter_runtime (py "VDC") (py "medium") 0
    = (inl c, s') /\
    case_report_type c = py "VDC" /\ case_complexity c = py "medium" /\
    (py "VDC" = py "vdc" ->
       report_type_of (case_expected_report c) = py "vdc") /\
    (py "VDC" <> py "vdc" ->
       report_type_of (case_expected_report c) = py "praxis").
Proof.
  apply (generate_synthetic_case_report_kind counter_runtime).
  exact counter_runtime_ok.
Defined.

(** X24. The documents of a case: the first is always the emergency room
    report, dated as the episode and holding [generate_document_text]; a
    case whose complexity is not ["complex"] has no other document; a
    ["complex"] case has three to seven more, the follow-up number [i + 1]
    dated [7 * (i + 1)] days after the parsed episode date. *)
Theorem generate_synthetic_case_documents {St DT} (rt : Runtime St DT)
    (report_type complexity : pystr) :
  runtime_ok rt ->
  returns (generate_synthetic_case rt report_type complexity) (fun c =>
    exists follow_ups base,
      documents c
      = Document (py "Emergency Room Report") (ep_date (current_episode c))
          (generate_document_text (current_episode c) (patient_demographics c)
             (medical_history c)) :: follow_ups /\
      (complexity <> py "complex" -> follow_ups = []) /\
      (complexity = py "complex" -> 3 <= length follow_ups <= 7) /\
      rt_strptime rt (ep_date (current_episode c)) = Some base /\
      forall i doc, follow_ups !! i = Some doc ->
        doc_type doc ∈ [py "Follow-up Note"; py "Lab Report";
                        py "Imaging Report"] /\
        doc_date doc
          = rt_strftime rt (rt_add_days rt base (7 * (Z.of_nat i + 1))) /\
        doc_text doc
          = py "Follow-up " ++ str_of_Z (Z.of_nat i + 1)
            ++ py ": Patient progress noted. Continuing treatment plan.").
Proof.
  intros Hrt.
  eapply returns_mono; [by apply generate_synthetic_case_returns|].
  intros c (_ & _ & _ & Hdocs). exact Hdocs.
Qed.

Lemma generate_synthetic_case_documents_witness :
  exists c s',
    generate_synthetic_case counter_runtime (py "praxis") (py "complex") 0
    = (inl c, s') /\
    exists follow_ups base,
      documents c
      = Document (py "Emergency Room Report") (ep_date (current_episode c))
          (generate_document_text (current_episode c) (patient_demographics c)
             (medical_history c)) :: follow_ups /\
      (py "complex" <> py "complex" -> follow_ups = []) /\
      (py "complex" = py "complex" -> 3 <= length follow_ups <= 7) /\
      rt_strptime counter_runtime (ep_date (current_episode c)) = Some base /\
      forall i doc, follow_ups !! i = Some doc ->
        doc_type doc ∈ [py "Follow-up Note"; py "Lab Report";
                        py "Imaging Report"] /\
        doc_date doc
          = rt_strftime counter_runtime
              (rt_add_days counter_runtime base (7 * (Z.of_nat i + 1))) /\
        doc_text doc
          = py "Follow-up " ++ str_of_Z (Z.of_nat i + 1)
            ++ py ": Patient progress noted. Continuing treatment plan.".
Proof.
  apply (generate_synthetic_case_documents counter_runtime).
  exact counter_runtime_ok.
Defined.

(** X25. A ["vdc"] case carries the valuation of the template of its
    episode: the days and points of the expected report are those of the
    entry of [EPISODES_VDC] with the episode's diagnosis, so they are one of
    the pairs (45, 3), (90, 8) and (120, 12), and the episode has its own
    evolution and status texts. *)
Theorem generate_synthetic_case_vdc_valuation {St DT} (rt : Runtime St DT)
    (report_type complexity : pystr) :
  runtime_ok rt -> report_type = py "vdc" ->
  returns (generate_synthetic_case rt report_type complexity) (fun c =>
    (exists t, t ∈ EPISODES_VDC /\
       ep_diagnosis (current_episode c) = vt_diagnosis t /\
       valoracion_dias (case_expected_report c)
       = Some (vt_expected_injury_days t, vt_expected_disability_points t)) /\
    valoracion_dias (case_expected_report c)
      ∈ [Some (45, 3); Some (90, 8); Some (120, 12)]%Z /\
    forall default,
      get_evolution (current_episode c) default
      = py "Patient improved with treatment, residual limitations persist." /\
      get_current_status (current_episode c) default
      = py "Stable, ongoing rehabilitation").
Proof.
  intros Hrt ->.
  eapply returns_mono; [by apply generate_synthetic_case_returns|].
  intros c (_ & _ & Her & _). cbv beta.
  destruct (decide (py "vdc" = py "vdc")) as [_|E]; [|done].
  destruct Her as [(t & Ht & Hdi & Hkeys) Hrep].
  unfold generate_expected_report_vdc in Hrep. rewrite Hkeys in Hrep.
  injection Hrep as <-. cbn [valoracion_dias].
  split; [by exists t|]. split.
  - unfold EPISODES_VDC in Ht.
    repeat (apply elem_of_cons in Ht as [->|Ht]);
      [| |  |by apply elem_of_nil in Ht];
      cbn [vt_expected_injury_days vt_expected_disability_points].
    + left.
    + right; left.
    + right; right; left.
  - intros default. unfold get_evolution, get_current_status.
    by rewrite Hkeys.
Qed.

Lemma generate_synthetic_case_vdc_valuation_witness :
  exists c s',
    generate_synthetic_case counter_runtime (py "vdc") (py "medium") 0
    = (inl c, s') /\
    (exists t, t ∈ EPISODES_VDC /\
       ep_diagnosis (current_episode c) = vt_diagnosis t /\
       valoracion_dias (case_expected_report c)
       = Some (vt_expected_injury_days t, vt_expected_disability_points t)) /\
    valoracion_dias (case_expected_report c)
      ∈ [Some (45, 3); Some (90, 8); Some (120, 12)]%Z /\
    forall default,
      get_evolution (current_episode c) default
      = py "Patient improved with treatment, residual limitations persist." /\
      get_current_status (current_episode c) default
      = py "Stable, ongoing rehabilitation".
Proof.
  apply (generate_synthetic_case_vdc_valuation counter_runtime (py "vdc")).
  - exact counter_runtime_ok.
  - reflexivity.
Defined.

(** X26. A case of any report type other than ["vdc"] is a praxis case
    built from one entry of [EPISODES_PRAXIS]: the report's analysis is the
    entry's reasoning, its conclusion says that the standard of care was met
    exactly when the entry's [lex_artis_met] is true, it has no valuation,
    and the episode has no evolution and status of its own, so that the
    emergency room report prints the defaults. *)
Theorem generate_synthetic_case_praxis_conclusion {St DT}
    (rt : Runtime St DT) (report_type complexity : pystr) :
  runtime_ok rt -> report_type <> py "vdc" ->
  returns (generate_synthetic_case rt report_type complexity) (fun c =>
    (exists t, t ∈ EPISODES_PRAXIS /\
       ep_diagnosis (current_episode c) = pt_diagnosis t /\
       analisis_lex_artis (case_expected_report c) = Some (pt_reasoning t) /\
       conclusiones (case_expected_report c)
       = (if pt_lex_artis_met t
          then py "Standard of care was met. No malpractice identified."
          else py "Deviation from standard of care identified.")) /\
    valoracion_dias (case_expected_report c) = None /\
    forall default,
      get_evolution (current_episode c) default = default /\
      get_current_status (current_episode c) default = default).
Proof.
  intros Hrt Hty.
  eapply returns_mono; [by apply generate_synthetic_case_returns|].
  intros c (_ & _ & Her & _). cbv beta.
  destruct (decide (report_type = py "vdc")) as [E|_]; [done|].
  destruct Her as [(t & Ht & Hdi & Hkeys) Hrep].
  unfold generate_expected_report_praxis in Hrep. rewrite Hkeys in Hrep.
  injection Hrep as <-.
  split; [by exists t|]. split; [done|].
  intros default. unfold get_evolution, get_current_status.
  by rewrite Hkeys.
Qed.

Lemma generate_synthetic_case_praxis_conclusion_witness :
  exists c s',
    generate_synthetic_case counter_runtime (py "Praxis") (py "simple") 0
    = (inl c, s') /\
    (exists t, t ∈ EPISODES_PRAXIS /\
       ep_diagnosis (current_episode c) = pt_diagnosis t /\
       analisis_lex_artis (case_expected_report c) = Some (pt_reasoning t) /\
       conclusiones (case_expected_report c)
       = (if pt_lex_artis_met t
          then py "Standard of care was met. No malpractice identified."
          else py "Deviation from standard of care identified.")) /\
    valoracion_dias (case_expected_report c) = None /\
    forall default,
      get_evolution (current_episode c) default = default /\
      get_current_status (current_episode c) default = default.
Proof.
  apply (generate_synthetic_case_praxis_conclusion counter_runtime
           (py "Praxis")).
  - exact counter_runtime_ok.
  - vm_compute. discriminate.
Defined.

(** X27. With a non-empty list of report types, [generate_dataset] builds
    [max(count, 0)] cases without raising; every case has a report type
    drawn from the list and the given complexity, and its expected report
    is a VDC report exactly when that report type is ["vdc"]. *)
Theorem generate_dataset_cases {St DT} (rt : Runtime St DT) (count : Z)
    (report_types : list pystr) (complexity : pystr) :
  runtime_ok rt -> report_types <> [] ->
  returns (generate_dataset rt count report_types complexity) (fun dataset =>
    length dataset = Z.to_nat count /\
    Forall (fun c =>
              case_report_type c ∈ report_types /\
              case_complexity c = complexity /\
              (report_type_of (case_expected_report c) = py "vdc"
               <-> case_report_type c = py "vdc")) dataset).
Proof. apply generate_dataset_returns. Qed.

Lemma generate_dataset_cases_witness :
  exists dataset s',
    generate_dataset counter_runtime 10 [py "praxis"; py "vdc"] (py "medium") 0
    = (inl dataset, s') /\
    length dataset = Z.to_nat 10 /\
    Forall (fun c =>
              case_report_type c ∈ [py "praxis"; py "vdc"] /\
              case_complexity c = py "medium" /\
              (report_type_of (case_expected_report c) = py "vdc"
               <-> case_report_type c = py "vdc")) dataset.
Proof.
  apply (generate_dataset_cases counter_runtime 10 [py "praxis"; py "vdc"]).
  - exact counter_runtime_ok.
  - discriminate.
Defined.

(** X28. With an empty list of report types and a positive [count],
    [generate_dataset] raises [IndexError] in its first iteration, before
    any draw: the state of the generator is unchanged. *)
Theorem generate_dataset_empty_report_types {St DT} (rt : Runtime St DT)
    (count : Z) (complexity : pystr) (s : St) :
  (0 < count)%Z ->
  generate_dataset rt count [] complexity s = (inr IndexError, s).
Proof.
  intros Hcount. unfold generate_dataset.
  destruct (Z.to_nat count) as [|n] eqn:E; [lia|].
  reflexivity.
Qed.

Lemma generate_dataset_empty_report_types_witness :
  generate_dataset counter_runtime 3 [] (py "medium") 0 = (inr IndexError, 0).
Proof.
  apply (generate_dataset_empty_report_types counter_runtime 3). lia.
Defined.

(** X29. [main] never passes an empty list of report types: whatever the
    [--report_types] argument, the dataset is built without raising, with
    [max(count, 0)] cases whose report types are the stripped pieces of the
    argument; a piece other than ["vdc"] gives a praxis report. *)
Theorem main_dataset_cases {St DT} (rt : Runtime St DT) (count : Z)
    (report_types complexity : pystr) :
  runtime_ok rt ->
  returns (main_dataset rt count report_types complexity) (fun dataset =>
    length dataset = Z.to_nat count /\
    Forall (fun c =>
              case_report_type c ∈ strip <$> split_comma report_types /\
              case_complexity c = complexity /\
              (report_type_of (case_expected_report c) = py "vdc"
               <-> case_report_type c = py "vdc")) dataset).
Proof.
  intros Hrt. apply generate_dataset_returns; [done|].
  pose proof (split_comma_nonempty report_types).
  by destruct (split_comma report_types).
Qed.

Lemma main_dataset_cases_witness :
  exists dataset s',
    main_dataset counter_runtime 3 (py "praxis, vdc,") (py "simple") 0
    = (inl dataset, s') /\
    length dataset = Z.to_nat 3 /\
    Forall (fun c =>
              case_report_type c ∈ strip <$> split_comma (py "praxis, vdc,") /\
              case_complexity c = py "simple" /\
              (report_type_of (case_expected_report c) = py "vdc"
               <-> case_report_type c = py "vdc")) dataset.
Proof.
  apply (main_dataset_cases counter_runtime).
  exact counter_runtime_ok.
Defined.
